(** * Weather sandbox: world grid, placement and tornado simulation

    A shallow embedding of the TypeScript sources of the town/weather
    sandbox: the seeded random stream ([utils/random.ts]), the tile world
    ([world/grid.ts], [world/types.ts]), the build tools
    ([world/placement.ts]), the tornado entities ([weather/tornadoSystem.ts])
    and the per-frame orchestrator ([weather/system.ts]).

    Numbers.  JavaScript numbers that hold grid coordinates, seeds, hashes
    and counters are modelled as [Z]; the 32-bit conversions the source
    applies to them ([|], [^], [>>>], [Math.imul]) are written out.
    Continuous quantities (heights, world positions, velocities, time) are
    modelled as exact rationals [Q]: rounding of IEEE doubles is not part
    of the model.  The transcendental library functions are the fields of
    the class [JsMath]; every general theorem holds for each instance.

    State.  Objects mutated in place by the source (the grid, the
    controller, the tornado list, the weather system) are records threaded
    explicitly through the operations.  [Math.random] is an explicit
    stream of draws. *)

From Stdlib Require Import ZArith QArith Qround Qminmax Qabs String Ascii List Lia Lqa.
From Stdlib Require DecimalString HexadecimalString DecimalZ HexadecimalN.
From stdpp Require Import base list strings gmap.

Set Default Proof Using "Type".

(* ===================================================================== *)
(** ** JavaScript number primitives *)
(* ===================================================================== *)

Module Js.
Local Open Scope Z_scope.

Definition two32 : Z := 4294967296.
Definition two31 : Z := 2147483648.

(** [x >>> 0]: the unsigned 32-bit value of an integer-valued number. *)
Definition ToUint32 (n : Z) : Z := n mod two32.

(** [x | 0]: the signed 32-bit value of an integer-valued number. *)
Definition ToInt32 (n : Z) : Z :=
  let u := n mod two32 in
  if two31 <=? u then u - two32 else u.

(** [a ^ b] *)
Definition xor (a b : Z) : Z := Z.lxor (ToInt32 a) (ToInt32 b).
(** [a | b] *)
Definition or (a b : Z) : Z := Z.lor (ToInt32 a) (ToInt32 b).
(** [a & b] *)
Definition and (a b : Z) : Z := Z.land (ToInt32 a) (ToInt32 b).
(** [a >>> k] *)
Definition ushr (a k : Z) : Z := Z.shiftr (ToUint32 a) (ToUint32 k mod 32).
(** [Math.imul(a, b)] *)
Definition imul (a b : Z) : Z := ToInt32 (ToInt32 a * ToInt32 b).

(** Rounding of an integer to the nearest double (53-bit significand,
    ties to even): the result of [a + b] on integer-valued doubles is
    [roundDouble (a + b)].  Below [2^53] it is the identity. *)
Definition roundDouble (n : Z) : Z :=
  let a := Z.abs n in
  let e := Z.log2 a - 52 in
  if e <=? 0 then n
  else
    let q := a / 2 ^ e in
    let r := a mod 2 ^ e in
    let half := 2 ^ (e - 1) in
    let q' := if r <? half then q
              else if half <? r then q + 1
              else if Z.even q then q else q + 1 in
    Z.sgn n * (q' * 2 ^ e).

(** Truthiness of a [string | null] value: [null] and the empty string
    are falsy. *)
Definition truthy (v : option string) : bool :=
  match v with
  | Some s => negb (String.eqb s EmptyString)
  | None => false
  end.

(** [`${n}`] for an integer-valued number. *)
Definition decimal (n : Z) : string :=
  DecimalString.NilZero.string_of_int (Z.to_int n).

(** [n.toString(16)] for an unsigned 32-bit number. *)
Definition hex (n : Z) : string :=
  HexadecimalString.NilZero.string_of_uint (N.to_hex_uint (Z.to_N n)).

(** [Math.max], [Math.min], [Math.abs], [Math.floor], [Math.ceil]. *)
Definition max (a b : Q) : Q := Qmax a b.
Definition min (a b : Q) : Q := Qmin a b.
Definition abs (a : Q) : Q := Qabs a.
Definition floor (a : Q) : Z := Qfloor a.
Definition ceil (a : Q) : Z := Qceiling a.

(** Comparisons of numbers, as booleans. *)
Definition lt (a b : Q) : bool := negb (Qle_bool b a).
Definition le (a b : Q) : bool := Qle_bool a b.
Definition gt (a b : Q) : bool := lt b a.
Definition ge (a b : Q) : bool := le b a.

(** [Math.sqrt(s) > limit] and [Math.sqrt(s) <= limit] for [s >= 0],
    decided over the rationals: the square root is at least zero, so a
    negative limit is always exceeded, and otherwise the squares are
    compared. *)
Definition sqrt_gt (s limit : Q) : bool :=
  if lt limit 0 then true else lt (limit * limit) s.
Definition sqrt_le (s limit : Q) : bool := negb (sqrt_gt s limit).
End Js.

(** [Math.sin], [Math.cos], [Math.sqrt] and [Math.PI]. *)
Class JsMath : Type := {
  Math_sin : Q -> Q;
  Math_cos : Q -> Q;
  Math_sqrt : Q -> Q;
  Math_PI : Q
}.

(** [Math.random()]: the stream of draws and the number already taken. *)
Record RandomSource : Type := {
  draws : nat -> Q;
  cursor : nat
}.

Definition Math_random (r : RandomSource) : Q * RandomSource :=
  (draws r (cursor r), {| draws := draws r; cursor := S (cursor r) |}).

(* ===================================================================== *)
(** ** utils/random.ts *)
(* ===================================================================== *)

(** [class SeededRng]: the private [state] field. *)
Record SeededRng : Type := { state : Z }.

Module Rng.
Local Open Scope Z_scope.

(** [constructor(seed)] *)
Definition new (seed : Z) : SeededRng :=
  let s := Js.ToUint32 seed in
  if s =? 0 then {| state := 0x9e3779b9 |} else {| state := s |}.

(** The unsigned 32-bit numerator computed by [next()] from the
    incremented state [t]. *)
Definition mix (t0 : Z) : Z :=
  let t := Js.imul (Js.xor t0 (Js.ushr t0 15)) (Js.or t0 1) in
  let t := Js.xor t (t + Js.imul (Js.xor t (Js.ushr t 7)) (Js.or t 61)) in
  Js.ToUint32 (Js.xor t (Js.ushr t 14)).

(** [next()]: the value and the generator after the call. *)
Definition next (r : SeededRng) : Q * SeededRng :=
  let s := Js.roundDouble (state r + 0x6d2b79f5) in
  ((inject_Z (mix s) / 4294967296)%Q, {| state := s |}).

(** [range(min, max)] *)
Definition range (lo hi : Q) (r : SeededRng) : Q * SeededRng :=
  let '(v, r') := next r in ((lo + (hi - lo) * v)%Q, r').

(** [int(min, max)] *)
Definition int (lo hi : Z) (r : SeededRng) : Z * SeededRng :=
  let '(v, r') := range (inject_Z lo) (inject_Z (hi + 1)) r in
  (Js.floor v, r').

(** [chance(probability)] *)
Definition chance (p : Q) (r : SeededRng) : bool * SeededRng :=
  let '(v, r') := next r in (Js.lt v p, r').

(** The [n]-th value (counting from zero) of the stream of [next()]
    results. *)
Fixpoint output (r : SeededRng) (n : nat) : Q :=
  match n with
  | O => fst (next r)
  | S k => output (snd (next r)) k
  end.
End Rng.

(** [hashSeed(...inputs)] *)
Definition hashSeed (inputs : list Z) : Z :=
  Js.ToUint32
    (fold_left (fun hash value => Js.imul (Js.xor hash (Js.or value 0)) 16777619)
               inputs 2166136261%Z).

(* ===================================================================== *)
(** ** Insertion-ordered containers ([Map], [Set]) *)
(* ===================================================================== *)

(** A JavaScript [Map] iterates in insertion order; [set] on a key already
    present keeps the position of the entry and replaces its value. *)
Module JsMap.
Section Ops.
Context {K V : Type} `{EqDecision K}.

Fixpoint get (m : list (K * V)) (k : K) : option V :=
  match m with
  | [] => None
  | (k', v) :: rest => if decide (k' = k) then Some v else get rest k
  end.

Definition has (m : list (K * V)) (k : K) : bool :=
  match get m k with Some _ => true | None => false end.

Fixpoint set (m : list (K * V)) (k : K) (v : V) : list (K * V) :=
  match m with
  | [] => [(k, v)]
  | (k', v') :: rest =>
      if decide (k' = k) then (k', v) :: rest else (k', v') :: set rest k v
  end.

Fixpoint delete (m : list (K * V)) (k : K) : list (K * V) :=
  match m with
  | [] => []
  | (k', v') :: rest =>
      if decide (k' = k) then delete rest k else (k', v') :: delete rest k
  end.

Definition values (m : list (K * V)) : list V := map snd m.
Definition keys (m : list (K * V)) : list K := map fst m.
Definition size (m : list (K * V)) : nat := length m.
End Ops.
End JsMap.

(** A JavaScript [Set], in insertion order. *)
Module JsSet.
Section Ops.
Context {K : Type} `{EqDecision K}.

Definition has (s : list K) (k : K) : bool := bool_decide (k ∈ s).
Definition add (s : list K) (k : K) : list K :=
  if has s k then s else s ++ [k].
End Ops.
End JsSet.

(* ===================================================================== *)
(** ** world/types.ts *)
(* ===================================================================== *)

Inductive TileType : Type := grass | road | foundation | water.

#[global] Instance TileType_eq_dec : EqDecision TileType.
Proof. solve_decision. Defined.

Record Tile : Type := {
  type : TileType;
  height : Q;
  occupantId : option string;
  treeId : option string
}.

Record TreeRecord : Type := {
  t_id : string;
  t_x : Z;
  t_z : Z;
  trunkHeight : Q;
  crownHeight : Q;
  crownRadius : Q;
  hueOffset : Q
}.

Inductive RoofStyle : Type := gabled | hip.

Record BuildingRecord : Type := {
  b_id : string;
  b_seed : Z;
  originX : Z;
  originZ : Z;
  b_width : Z;
  b_depth : Z;
  baseHeight : Q;
  roofHeight : Q;
  roofStyle : RoofStyle;
  wallColor : string;
  roofColor : string;
  hasChimney : bool
}.

(** [trees?] is optional in the interface. *)
Record WorldSnapshot : Type := {
  s_width : Z;
  s_depth : Z;
  s_seed : Z;
  tileTypes : list TileType;
  s_trees : option (list TreeRecord);
  s_buildings : list BuildingRecord
}.

(* ===================================================================== *)
(** ** world/grid.ts *)
(* ===================================================================== *)

Record GridConfig : Type := {
  c_width : Z;
  c_depth : Z;
  c_tileSize : Q;
  c_seed : Z
}.

Record HillFeature : Type := {
  h_x : Q;
  h_z : Q;
  h_radius : Q;
  h_height : Q
}.

(** [class GridWorld].  [tiles] is the flat array indexed by
    [index(x, z)]; [heightField] the vertex array indexed by
    [vertexIndex(x, z)]. *)
Record GridWorld : Type := {
  width : Z;
  depth : Z;
  tileSize : Q;
  seed : Z;
  tiles : list Tile;
  heightField : list Q;
  buildings : list (string * BuildingRecord);
  trees : list (string * TreeRecord);
  treeByTile : list (Z * string);
  baseTileTypes : list TileType;
  baseTrees : list TreeRecord;
  streamBaseZ : Q;
  streamAmplitude : Q;
  streamFrequency : Q;
  streamPhase : Q;
  streamHalfWidth : Q;
  hills : list HillFeature
}.

(** Field assignments. *)
Definition set_type (ty : TileType) (t : Tile) : Tile :=
  {| type := ty; height := height t; occupantId := occupantId t; treeId := treeId t |}.
Definition set_occupantId (o : option string) (t : Tile) : Tile :=
  {| type := type t; height := height t; occupantId := o; treeId := treeId t |}.
Definition set_treeId (o : option string) (t : Tile) : Tile :=
  {| type := type t; height := height t; occupantId := occupantId t; treeId := o |}.

Definition set_tiles (v : list Tile) (g : GridWorld) : GridWorld :=
  {| width := width g; depth := depth g; tileSize := tileSize g; seed := seed g;
     tiles := v; heightField := heightField g; buildings := buildings g;
     trees := trees g; treeByTile := treeByTile g;
     baseTileTypes := baseTileTypes g; baseTrees := baseTrees g;
     streamBaseZ := streamBaseZ g; streamAmplitude := streamAmplitude g;
     streamFrequency := streamFrequency g; streamPhase := streamPhase g;
     streamHalfWidth := streamHalfWidth g; hills := hills g |}.
Definition set_heightField (v : list Q) (g : GridWorld) : GridWorld :=
  {| width := width g; depth := depth g; tileSize := tileSize g; seed := seed g;
     tiles := tiles g; heightField := v; buildings := buildings g;
     trees := trees g; treeByTile := treeByTile g;
     baseTileTypes := baseTileTypes g; baseTrees := baseTrees g;
     streamBaseZ := streamBaseZ g; streamAmplitude := streamAmplitude g;
     streamFrequency := streamFrequency g; streamPhase := streamPhase g;
     streamHalfWidth := streamHalfWidth g; hills := hills g |}.
Definition set_buildings (v : list (string * BuildingRecord)) (g : GridWorld) : GridWorld :=
  {| width := width g; depth := depth g; tileSize := tileSize g; seed := seed g;
     tiles := tiles g; heightField := heightField g; buildings := v;
     trees := trees g; treeByTile := treeByTile g;
     baseTileTypes := baseTileTypes g; baseTrees := baseTrees g;
     streamBaseZ := streamBaseZ g; streamAmplitude := streamAmplitude g;
     streamFrequency := streamFrequency g; streamPhase := streamPhase g;
     streamHalfWidth := streamHalfWidth g; hills := hills g |}.
Definition set_trees (v : list (string * TreeRecord)) (g : GridWorld) : GridWorld :=
  {| width := width g; depth := depth g; tileSize := tileSize g; seed := seed g;
     tiles := tiles g; heightField := heightField g; buildings := buildings g;
     trees := v; treeByTile := treeByTile g;
     baseTileTypes := baseTileTypes g; baseTrees := baseTrees g;
     streamBaseZ := streamBaseZ g; streamAmplitude := streamAmplitude g;
     streamFrequency := streamFrequency g; streamPhase := streamPhase g;
     streamHalfWidth := streamHalfWidth g; hills := hills g |}.
Definition set_treeByTile (v : list (Z * string)) (g : GridWorld) : GridWorld :=
  {| width := width g; depth := depth g; tileSize := tileSize g; seed := seed g;
     tiles := tiles g; heightField := heightField g; buildings := buildings g;
     trees := trees g; treeByTile := v;
     baseTileTypes := baseTileTypes g; baseTrees := baseTrees g;
     streamBaseZ := streamBaseZ g; streamAmplitude := streamAmplitude g;
     streamFrequency := streamFrequency g; streamPhase := streamPhase g;
     streamHalfWidth := streamHalfWidth g; hills := hills g |}.
Definition set_base (tys : list TileType) (ts : list TreeRecord) (g : GridWorld) : GridWorld :=
  {| width := width g; depth := depth g; tileSize := tileSize g; seed := seed g;
     tiles := tiles g; heightField := heightField g; buildings := buildings g;
     trees := trees g; treeByTile := treeByTile g;
     baseTileTypes := tys; baseTrees := ts;
     streamBaseZ := streamBaseZ g; streamAmplitude := streamAmplitude g;
     streamFrequency := streamFrequency g; streamPhase := streamPhase g;
     streamHalfWidth := streamHalfWidth g; hills := hills g |}.
Definition set_hills (v : list HillFeature) (g : GridWorld) : GridWorld :=
  {| width := width g; depth := depth g; tileSize := tileSize g; seed := seed g;
     tiles := tiles g; heightField := heightField g; buildings := buildings g;
     trees := trees g; treeByTile := treeByTile g;
     baseTileTypes := baseTileTypes g; baseTrees := baseTrees g;
     streamBaseZ := streamBaseZ g; streamAmplitude := streamAmplitude g;
     streamFrequency := streamFrequency g; streamPhase := streamPhase g;
     streamHalfWidth := streamHalfWidth g; hills := v |}.

(** The pairs [(x, z)] visited by
    [for (z = 0; z < d; z += 1) for (x = 0; x < w; x += 1)], in order. *)
Definition grid_coords (w d : Z) : list (Z * Z) :=
  flat_map (fun z => map (fun x => (x, z)) (seqZ 0 w)) (seqZ 0 d).

Local Open Scope Q_scope.

Definition HEIGHT_AMPLITUDE : Q := 0.32.
Definition HEIGHT_MIN : Q := -0.62.
Definition HEIGHT_MAX : Q := 1.2.
Definition WATER_LEVEL : Q := -0.18.

Definition smoothstep (t : Q) : Q := t * t * (3 - 2 * t).

Definition clamp (value lo hi : Q) : Q := Js.max lo (Js.min hi value).

Definition hashNoise2d (seed x z : Z) : Q :=
  let value := hashSeed [seed; x; z] in
  inject_Z (Js.and value 0xfffffff%Z) / inject_Z 0xfffffff%Z.

Definition valueNoise (seed : Z) (x z : Q) : Q :=
  let x0 := Js.floor x in
  let z0 := Js.floor z in
  let xf := x - inject_Z x0 in
  let zf := z - inject_Z z0 in
  let n00 := hashNoise2d seed x0 z0 in
  let n10 := hashNoise2d seed (x0 + 1)%Z z0 in
  let n01 := hashNoise2d seed x0 (z0 + 1)%Z in
  let n11 := hashNoise2d seed (x0 + 1)%Z (z0 + 1)%Z in
  let sx := smoothstep xf in
  let sz := smoothstep zf in
  let ix0 := n00 + (n10 - n00) * sx in
  let ix1 := n01 + (n11 - n01) * sx in
  ix0 + (ix1 - ix0) * sz.

Definition layeredNoise (seed : Z) (x z : Q) : Q :=
  let frequencyA := 0.21 in
  let frequencyB := 0.53 in
  let frequencyC := 1.19 in
  let a := valueNoise seed (x * frequencyA) (z * frequencyA) * 0.62 in
  let b := valueNoise (Js.xor seed 0x9e3779b9%Z) (x * frequencyB) (z * frequencyB) * 0.28 in
  let c := valueNoise (Js.xor seed 0x7f4a7c15%Z) (x * frequencyC) (z * frequencyC) * 0.1 in
  let normalized := a + b + c in
  let shifted := normalized - 0.5 in
  shifted * HEIGHT_AMPLITUDE * 2.

(** [index(x, z)], [vertexIndex(x, z)], [inBounds(x, z)] *)
Definition index (g : GridWorld) (x z : Z) : Z := (z * width g + x)%Z.

Definition vertexIndex (g : GridWorld) (x z : Z) : Z := (z * (width g + 1) + x)%Z.

Definition inBounds (g : GridWorld) (x z : Z) : bool :=
  (0 <=? x)%Z && (0 <=? z)%Z && (x <? width g)%Z && (z <? depth g)%Z.

(** [this.tiles[i]]: [None] stands for [undefined]. *)
Definition tileAt (g : GridWorld) (i : Z) : option Tile :=
  if (i <? 0)%Z then None else tiles g !! Z.to_nat i.

(** An assignment to fields of the object [this.tiles[i]]. *)
Definition update_tile (g : GridWorld) (i : Z) (f : Tile -> Tile) : GridWorld :=
  if (i <? 0)%Z then g else set_tiles (alter f (Z.to_nat i) (tiles g)) g.

(** [getTile(x, z)] *)
Definition getTile (g : GridWorld) (x z : Z) : option Tile :=
  if negb (inBounds g x z) then None else tileAt g (index g x z).

(** [setTileType(x, z, type)] *)
Definition setTileType (g : GridWorld) (x z : Z) (ty : TileType) : GridWorld :=
  match getTile g x z with
  | None => g
  | Some _ => update_tile g (index g x z) (set_type ty)
  end.

(** [removeTreeAt(x, z)]: the result and the grid after the call. *)
Definition removeTreeAt (g : GridWorld) (x z : Z) : bool * GridWorld :=
  if negb (inBounds g x z) then (false, g)
  else
    let idx := index g x z in
    match JsMap.get (treeByTile g) idx with
    | Some treeId =>
        if negb (Js.truthy (Some treeId)) then (false, g)
        else
          let g := set_treeByTile (JsMap.delete (treeByTile g) idx) g in
          let g := set_trees (JsMap.delete (trees g) treeId) g in
          (true, update_tile g idx (set_treeId None))
    | None => (false, g)
    end.

(** [cloneTree(tree)]: a copy of the record, field by field. *)
Definition cloneTree (tree : TreeRecord) : TreeRecord :=
  {| t_id := t_id tree; t_x := t_x tree; t_z := t_z tree;
     trunkHeight := trunkHeight tree; crownHeight := crownHeight tree;
     crownRadius := crownRadius tree; hueOffset := hueOffset tree |}.

(** [addTree(tree)] *)
Definition addTree (g : GridWorld) (tree : TreeRecord) : GridWorld :=
  if negb (inBounds g (t_x tree) (t_z tree)) then g
  else
    match getTile g (t_x tree) (t_z tree) with
    | None => g
    | Some tile =>
        if negb (bool_decide (type tile = grass)) || Js.truthy (occupantId tile)
        then g
        else
          let idx := index g (t_x tree) (t_z tree) in
          let g :=
            match JsMap.get (treeByTile g) idx with
            | Some existingId =>
                if Js.truthy (Some existingId) then
                  let g := set_trees (JsMap.delete (trees g) existingId) g in
                  set_treeByTile (JsMap.delete (treeByTile g) idx) g
                else g
            | None => g
            end in
          let g := update_tile g idx (set_treeId (Some (t_id tree))) in
          let g := set_treeByTile (JsMap.set (treeByTile g) idx (t_id tree)) g in
          set_trees (JsMap.set (trees g) (t_id tree) tree) g
    end.

(** [clearTrees()] *)
Definition clearTrees (g : GridWorld) : GridWorld :=
  let g := set_tiles (map (set_treeId None) (tiles g)) g in
  let g := set_trees [] g in
  set_treeByTile [] g.

(** [clearOccupant(buildingId)] *)
Definition clearOccupant (g : GridWorld) (buildingId : string) : GridWorld :=
  set_tiles
    (map (fun tile =>
            if bool_decide (occupantId tile = Some buildingId) then
              let tile := set_occupantId None tile in
              if bool_decide (type tile = foundation) then set_type grass tile
              else tile
            else tile)
         (tiles g)) g.

(** [vertexHeight(x, z)] *)
Definition vertexHeight (g : GridWorld) (x z : Z) : Q :=
  let clampedX := Z.max 0 (Z.min (width g) x) in
  let clampedZ := Z.max 0 (Z.min (depth g) z) in
  nth (Z.to_nat (vertexIndex g clampedX clampedZ)) (heightField g) 0.

Record WorldPos : Type := { wx : Q; wy : Q; wz : Q }.

(** [tileToWorld(x, z)].  The coordinates are numbers that need not be
    whole (the siren test passes the centre of a footprint): [getTile]
    compares them with the bounds as they are and reads
    [tiles[z * width + x]], which is a tile when that index is whole and
    [undefined] otherwise; the height then defaults to [0]. *)
Definition tileToWorld (g : GridWorld) (x z : Q) : WorldPos :=
  let worldX := (x - inject_Z (width g) / 2 + 0.5) * tileSize g in
  let worldZ := (z - inject_Z (depth g) / 2 + 0.5) * tileSize g in
  let tile :=
    if Js.ge x 0 && Js.ge z 0 && Js.lt x (inject_Z (width g)) && Js.lt z (inject_Z (depth g))
    then
      let idx := z * inject_Z (width g) + x in
      if Qeq_bool (inject_Z (Js.floor idx)) idx then tileAt g (Js.floor idx) else None
    else None in
  {| wx := worldX;
     wy := match tile with Some t => height t | None => 0 end;
     wz := worldZ |}.

(** [worldToTile(worldX, worldZ)].  With a tile size of zero the
    divisions of the source give [NaN] or an infinity, which are never
    in bounds. *)
Definition worldToTile (g : GridWorld) (worldX worldZ : Q) : option (Z * Z) :=
  if Qeq_bool (tileSize g) 0 then None
  else
    let x := Js.floor (worldX / tileSize g + inject_Z (width g) / 2) in
    let z := Js.floor (worldZ / tileSize g + inject_Z (depth g) / 2) in
    if negb (inBounds g x z) then None else Some (x, z).

(** [toSnapshot()] *)
Definition toSnapshot (g : GridWorld) : WorldSnapshot :=
  {| s_width := width g;
     s_depth := depth g;
     s_seed := seed g;
     tileTypes := map type (tiles g);
     s_trees := Some (map cloneTree (JsMap.values (trees g)));
     s_buildings := JsMap.values (buildings g) |}.

Section Terrain.
Context `{JsMath}.

(** [streamCenterAt(gridX)] *)
Definition streamCenterAt (g : GridWorld) (gridX : Q) : Q :=
  let normalizedX := gridX / inject_Z (width g) in
  let majorWave :=
    Math_sin (normalizedX * Math_PI * streamFrequency g + streamPhase g)
    * streamAmplitude g in
  let minorWave :=
    Math_sin (normalizedX * Math_PI * streamFrequency g * 2.8 + streamPhase g * 0.68)
    * inject_Z (depth g) * 0.035 in
  streamBaseZ g + majorWave + minorWave.

(** The body of [while (attempts < 8)] in [createHillFeatures]:
    [fuel] is the number of attempts still allowed. *)
Fixpoint hillAttempts (g : GridWorld) (fuel : nat) (rng : SeededRng)
  : option HillFeature * SeededRng :=
  match fuel with
  | O => (None, rng)
  | S fuel' =>
      let '(x, rng) := Rng.range (inject_Z (width g) * 0.1) (inject_Z (width g) * 0.9) rng in
      let '(z, rng) := Rng.range (inject_Z (depth g) * 0.1) (inject_Z (depth g) * 0.9) rng in
      if Js.lt (Js.abs (z - streamCenterAt g x)) (inject_Z (depth g) * 0.12)
      then hillAttempts g fuel' rng
      else
        let '(radius, rng) := Rng.range 4.5 9.8 rng in
        let '(hheight, rng) := Rng.range 0.22 0.55 rng in
        (Some {| h_x := x; h_z := z; h_radius := radius; h_height := hheight |}, rng)
  end.

(** [createHillFeatures(rng)] *)
Definition createHillFeatures (g : GridWorld) (rng : SeededRng)
  : list HillFeature * SeededRng :=
  let '(hillCount, rng) := Rng.int 3 5 rng in
  fold_left
    (fun '(hs, rng) (_ : nat) =>
       match hillAttempts g 8 rng with
       | (Some h, rng) => (hs ++ [h], rng)
       | (None, rng) => (hs, rng)
       end)
    (seq 0 (Z.to_nat hillCount)) ([], rng).

(** The value stored at vertex [(x, z)] by [fillHeightField]. *)
Definition vertexValue (g : GridWorld) (x z : Z) : Q :=
  let streamInfluenceWidth := streamHalfWidth g * 3.4 in
  let h := layeredNoise (seed g) (inject_Z x) (inject_Z z) in
  let h :=
    fold_left
      (fun h hill =>
         let dx := inject_Z x - h_x hill in
         let dz := inject_Z z - h_z hill in
         let distance := Math_sqrt (dx * dx + dz * dz) in
         if Js.ge distance (h_radius hill) then h
         else
           let influence := 1 - distance / h_radius hill in
           h + h_height hill * influence * influence)
      (hills g) h in
  let streamDistance := Js.abs (inject_Z z - streamCenterAt g (inject_Z x)) in
  let h :=
    if Js.lt streamDistance streamInfluenceWidth then
      let influence := 1 - streamDistance / streamInfluenceWidth in
      h - 0.56 * influence * influence
    else h in
  clamp h HEIGHT_MIN HEIGHT_MAX.

(** [fillHeightField()]: the loops visit the vertices in the order of
    their [vertexIndex].  The number stored is kept in lowest terms
    ([Qred] does not change its value); the rounding to single
    precision of the [Float32Array] of the source is left out, as is
    every other rounding. *)
Definition fillHeightField (g : GridWorld) : GridWorld :=
  set_heightField
    (map (fun '(x, z) => Qred (vertexValue g x z))
         (grid_coords (width g + 1) (depth g + 1))) g.

(** [fillTiles()]: the loops visit the tiles in the order of their
    [index].  The height stored is kept in lowest terms. *)
Definition fillTiles (g : GridWorld) : GridWorld :=
  set_tiles
    (map (fun '(x, z) =>
            let h := (vertexHeight g x z + vertexHeight g (x + 1) z
                      + vertexHeight g x (z + 1) + vertexHeight g (x + 1) (z + 1)) / 4 in
            {| type := grass; height := Qred h; occupantId := None; treeId := None |})
         (grid_coords (width g) (depth g))) g.

(** [applyStreamWater()] *)
Definition applyStreamWater (g : GridWorld) : GridWorld :=
  fold_left
    (fun g '(x, z) =>
       match getTile g x z with
       | None => g
       | Some tile =>
           let centerX := inject_Z x + 0.5 in
           let centerZ := inject_Z z + 0.5 in
           let streamDistance := Js.abs (centerZ - streamCenterAt g centerX) in
           let bankJitter := hashNoise2d (hashSeed [seed g; 0x734a5f1%Z]) x z * 0.34 in
           let localWidth := streamHalfWidth g + bankJitter in
           if Js.le streamDistance localWidth && Js.lt (height tile) (WATER_LEVEL + 0.22)
           then update_tile g (index g x z) (set_type water)
           else g
       end)
    (grid_coords (width g) (depth g)) g.

(** [estimateTileSlope(x, z)] *)
Definition estimateTileSlope (g : GridWorld) (x z : Z) : Q :=
  let center := match getTile g x z with Some t => height t | None => 0 end in
  fold_left
    (fun maxDiff '(nx, nz) =>
       match getTile g nx nz with
       | None => maxDiff
       | Some neighbor => Js.max maxDiff (Js.abs (center - height neighbor))
       end)
    [((x + 1)%Z, z); ((x - 1)%Z, z); (x, (z + 1)%Z); (x, (z - 1)%Z)] 0.

(** The body of the loops of [generateTrees] at tile [(x, z)]. *)
Definition generateTreeAt (st : GridWorld * SeededRng) (xz : Z * Z)
  : GridWorld * SeededRng :=
  let '(g, rng) := st in
  let '(x, z) := xz in
  match getTile g x z with
  | None => (g, rng)
  | Some tile =>
      if negb (bool_decide (type tile = grass)) then (g, rng)
      else
        let streamDistance :=
          Js.abs (inject_Z z + 0.5 - streamCenterAt g (inject_Z x + 0.5)) in
        if Js.lt streamDistance (streamHalfWidth g + 1.4) then (g, rng)
        else
          let slope := estimateTileSlope g x z in
          if Js.gt slope 0.34 then (g, rng)
          else
            let elevationBias := Js.max 0 (height tile + 0.08) * 0.12 in
            let chance := 0.075 + elevationBias - slope * 0.11 in
            let '(v, rng) := Rng.next rng in
            if Js.gt v chance then (g, rng)
            else
              let '(trunk, rng) := Rng.range 0.3 0.56 rng in
              let '(crownH, rng) := Rng.range 0.52 0.96 rng in
              let '(crownR, rng) := Rng.range 0.34 0.58 rng in
              let '(hue, rng) := Rng.range (-0.09) 0.09 rng in
              let tree :=
                {| t_id := "t-" ++ Js.decimal x ++ "-" ++ Js.decimal z;
                   t_x := x; t_z := z;
                   trunkHeight := trunk; crownHeight := crownH;
                   crownRadius := crownR; hueOffset := hue |} in
              (addTree g tree, rng)
  end.

(** [generateTrees()] *)
Definition generateTrees (g : GridWorld) : GridWorld :=
  let g := clearTrees g in
  let rng := Rng.new (hashSeed [seed g; 0x51d3ac9%Z]) in
  fst (fold_left generateTreeAt (grid_coords (width g) (depth g)) (g, rng)).

(** [captureBaseState()] *)
Definition captureBaseState (g : GridWorld) : GridWorld :=
  set_base (map type (tiles g)) (map cloneTree (JsMap.values (trees g))) g.

(** [constructor(config)] *)
Definition GridWorld_new (config : GridConfig) : GridWorld :=
  let featureRng := Rng.new (hashSeed [c_seed config; 0x29f3a6d1%Z]) in
  let '(r1, featureRng) := Rng.range 0.35 0.62 featureRng in
  let '(r2, featureRng) := Rng.range 0.09 0.16 featureRng in
  let '(r3, featureRng) := Rng.range 0.95 1.55 featureRng in
  let '(r4, featureRng) := Rng.range 0 (Math_PI * 2) featureRng in
  let '(r5, featureRng) := Rng.range 0.85 1.45 featureRng in
  let g :=
    {| width := c_width config; depth := c_depth config;
       tileSize := c_tileSize config; seed := c_seed config;
       tiles := []; heightField := []; buildings := []; trees := [];
       treeByTile := []; baseTileTypes := []; baseTrees := [];
       streamBaseZ := inject_Z (c_depth config) * r1;
       streamAmplitude := inject_Z (c_depth config) * r2;
       streamFrequency := r3;
       streamPhase := r4;
       streamHalfWidth := r5;
       hills := [] |} in
  let g := set_hills (fst (createHillFeatures g featureRng)) g in
  let g := fillHeightField g in
  let g := fillTiles g in
  let g := applyStreamWater g in
  let g := generateTrees g in
  captureBaseState g.

(** The type stored at index [i] by the first loop of [applySnapshot]:
    [snapshot.tileTypes[i] ?? this.baseTileTypes[i] ?? 'grass']. *)
Definition snapshotType (g : GridWorld) (snapshot : WorldSnapshot) (i : nat) : TileType :=
  match tileTypes snapshot !! i with
  | Some ty => ty
  | None => match baseTileTypes g !! i with Some ty => ty | None => grass end
  end.

(** The second loop of [applySnapshot]: the repair of the water tiles. *)
Definition repairWater (g : GridWorld) : GridWorld :=
  set_tiles
    (imap (fun i tile =>
             if bool_decide (type tile = grass)
                && bool_decide (baseTileTypes g !! i = Some water)
             then set_type water tile else tile)
          (tiles g)) g.

(** The body of the footprint loops of [applySnapshot] at the offset
    [(dx, dz)] of a building. *)
Definition restoreTile (building : BuildingRecord) (g : GridWorld) (dxz : Z * Z)
  : GridWorld :=
  let '(dx, dz) := dxz in
  let tx := (originX building + dx)%Z in
  let tz := (originZ building + dz)%Z in
  if negb (inBounds g tx tz) then g
  else
    let g := snd (removeTreeAt g tx tz) in
    update_tile g (index g tx tz)
      (fun tile => set_occupantId (Some (b_id building)) (set_type foundation tile)).

(** The loop over [snapshot.buildings] of [applySnapshot], for one
    building. *)
Definition restoreBuilding (g : GridWorld) (building : BuildingRecord) : GridWorld :=
  let g := set_buildings (JsMap.set (buildings g) (b_id building) building) g in
  fold_left (restoreTile building)
            (grid_coords (b_width building) (b_depth building)) g.

(** [applySnapshot(snapshot)] *)
Definition applySnapshot (g : GridWorld) (snapshot : WorldSnapshot) : GridWorld :=
  if negb (bool_decide (s_width snapshot = width g))
     || negb (bool_decide (s_depth snapshot = depth g))
  then g
  else
    let g := set_buildings [] g in
    let g := clearTrees g in
    let g :=
      set_tiles
        (imap (fun i tile =>
                 set_treeId None
                   (set_occupantId None (set_type (snapshotType g snapshot i) tile)))
              (tiles g)) g in
    let hasWaterInSnapshot :=
      existsb (fun ty => bool_decide (ty = water)) (tileTypes snapshot) in
    let g := if negb hasWaterInSnapshot then repairWater g else g in
    let g :=
      match s_trees snapshot with
      | Some (tree :: rest) =>
          fold_left (fun g tree => addTree g (cloneTree tree)) (tree :: rest) g
      | _ => generateTrees g
      end in
    fold_left restoreBuilding (s_buildings snapshot) g.

(** [resetTiles()] *)
Definition resetTiles (g : GridWorld) : GridWorld :=
  let g :=
    set_tiles
      (imap (fun i tile =>
               let ty := match baseTileTypes g !! i with Some ty => ty | None => grass end in
               set_treeId None (set_occupantId None (set_type ty tile)))
            (tiles g)) g in
  let g := clearTrees g in
  let g := fold_left (fun g tree => addTree g (cloneTree tree)) (baseTrees g) g in
  set_buildings [] g.
End Terrain.

(* ===================================================================== *)
(** ** world/placement.ts *)
(* ===================================================================== *)

Module Tool.
Inductive BuildTool : Type := house | road | erase.
End Tool.

Record PlacementResult : Type := {
  changed : bool;
  addedBuilding : option BuildingRecord;
  removedBuildingId : option string;
  message : option string
}.

(** [class PlacementController]: the counter; the [world] it refers to is
    passed to each operation and returned by it. *)
Record PlacementController : Type := { placementCounter : Z }.

Definition unchanged (msg : option string) : PlacementResult :=
  {| changed := false; addedBuilding := None; removedBuildingId := None; message := msg |}.

(** [isFootprintFree(originX, originZ, width, depth)] *)
Definition isFootprintFree (g : GridWorld) (oX oZ w d : Z) : bool :=
  forallb
    (fun '(dx, dz) =>
       match getTile g (oX + dx)%Z (oZ + dz)%Z with
       | None => false
       | Some tile =>
           negb (negb (bool_decide (type tile = grass)) || Js.truthy (occupantId tile))
       end)
    (grid_coords w d).

(** [placeRoad(x, z)] *)
Definition placeRoad (g : GridWorld) (x z : Z) : PlacementResult * GridWorld :=
  match getTile g x z with
  | None => (unchanged None, g)
  | Some tile =>
      if Js.truthy (occupantId tile) then
        (unchanged (Some "Cannot place road on building."), g)
      else if bool_decide (type tile = road) then (unchanged None, g)
      else if negb (bool_decide (type tile = grass)) then
        (unchanged (Some "Road requires an empty grass tile."), g)
      else
        let g := snd (removeTreeAt g x z) in
        let g := update_tile g (index g x z) (set_type road) in
        ({| changed := true; addedBuilding := None; removedBuildingId := None;
            message := None |}, g)
  end.

(** The [for (i = 0; i < 8; i += 1)] search of [placeHouse]: the footprint
    found, if any, and the generator after the draws. *)
Fixpoint searchFootprint (g : GridWorld) (x z : Z) (fuel : nat) (rng : SeededRng)
  : option (Z * Z * Z * Z) * SeededRng :=
  match fuel with
  | O => (None, rng)
  | S fuel' =>
      let '(w, rng) := Rng.int 1 3 rng in
      let '(d, rng) := Rng.int 1 3 rng in
      let '(offsetX, rng) := Rng.int 0 (w - 1) rng in
      let '(offsetZ, rng) := Rng.int 0 (d - 1) rng in
      let oX := (x - offsetX)%Z in
      let oZ := (z - offsetZ)%Z in
      if isFootprintFree g oX oZ w d then (Some (w, d, oX, oZ), rng)
      else searchFootprint g x z fuel' rng
  end.

Definition wallColors : list string :=
  ["#c8cfb2"; "#d8cab4"; "#c0d2d8"; "#e4d4b9"; "#d6d0be"]%string.
Definition roofColors : list string :=
  ["#b64d3f"; "#7b8c99"; "#5f697f"; "#9a5c4f"; "#5d4e46"]%string.

(** The body of the footprint loops of [placeHouse] at the offset
    [(dx, dz)]. *)
Definition claimTile (building : BuildingRecord) (g : GridWorld) (dxz : Z * Z) : GridWorld :=
  let '(dx, dz) := dxz in
  let tx := (originX building + dx)%Z in
  let tz := (originZ building + dz)%Z in
  match getTile g tx tz with
  | None => g
  | Some _ =>
      let g := snd (removeTreeAt g tx tz) in
      update_tile g (index g tx tz)
        (fun tile => set_occupantId (Some (b_id building)) (set_type foundation tile))
  end.

(** The loops of [placeHouse] that claim the footprint. *)
Definition claimFootprint (g : GridWorld) (building : BuildingRecord) : GridWorld :=
  fold_left (claimTile building)
            (grid_coords (b_width building) (b_depth building)) g.

(** [placeHouse(x, z)] *)
Definition placeHouse (pc : PlacementController) (g : GridWorld) (x z : Z)
  : PlacementResult * PlacementController * GridWorld :=
  match getTile g x z with
  | None => (unchanged None, pc, g)
  | Some tile =>
      if negb (bool_decide (type tile = grass)) || Js.truthy (occupantId tile) then
        (unchanged (Some "House requires empty grass tile."), pc, g)
      else
        let pc := {| placementCounter := (placementCounter pc + 1)%Z |} in
        let seed := hashSeed [seed g; x; z; placementCounter pc] in
        let rng := Rng.new seed in
        let '(found, rng) := searchFootprint g x z 8 rng in
        if negb (bool_decide (is_Some found)) && negb (isFootprintFree g x z 1 1) then
          (unchanged (Some "No room for house footprint."), pc, g)
        else
          let '(w, d, oX, oZ) :=
            match found with
            | Some f => f
            | None => (1%Z, 1%Z, x, z)
            end in
          let '(baseH, rng) := Rng.range 0.6 1.4 rng in
          let '(roofH, rng) := Rng.range 0.35 0.95 rng in
          let '(isGabled, rng) := Rng.chance 0.5 rng in
          let '(wallIdx, rng) := Rng.int 0 (Z.of_nat (length wallColors) - 1) rng in
          let '(roofIdx, rng) := Rng.int 0 (Z.of_nat (length roofColors) - 1) rng in
          let '(chimney, rng) := Rng.chance 0.18 rng in
          let building :=
            {| b_id := "b-" ++ Js.hex seed;
               b_seed := seed;
               originX := oX; originZ := oZ;
               b_width := w; b_depth := d;
               baseHeight := baseH; roofHeight := roofH;
               roofStyle := if isGabled then gabled else hip;
               wallColor := nth (Z.to_nat wallIdx) wallColors ""%string;
               roofColor := nth (Z.to_nat roofIdx) roofColors ""%string;
               hasChimney := chimney |} in
          let g := set_buildings (JsMap.set (buildings g) (b_id building) building) g in
          let g := claimFootprint g building in
          ({| changed := true; addedBuilding := Some building;
              removedBuildingId := None; message := None |}, pc, g)
  end.

(** [erase(x, z)] *)
Definition erase (g : GridWorld) (x z : Z) : PlacementResult * GridWorld :=
  match getTile g x z with
  | None => (unchanged None, g)
  | Some tile =>
      match occupantId tile with
      | Some buildingId =>
          if Js.truthy (Some buildingId) then
            let g := clearOccupant g buildingId in
            let g := set_buildings (JsMap.delete (buildings g) buildingId) g in
            ({| changed := true; addedBuilding := None;
                removedBuildingId := Some buildingId; message := None |}, g)
          else if bool_decide (type tile = road) then
            ({| changed := true; addedBuilding := None; removedBuildingId := None;
                message := None |}, update_tile g (index g x z) (set_type grass))
          else (unchanged None, g)
      | None =>
          if bool_decide (type tile = road) then
            ({| changed := true; addedBuilding := None; removedBuildingId := None;
                message := None |}, update_tile g (index g x z) (set_type grass))
          else (unchanged None, g)
      end
  end.

(** [apply(tool, x, z)] *)
Definition apply (pc : PlacementController) (g : GridWorld) (tool : Tool.BuildTool) (x z : Z)
  : PlacementResult * PlacementController * GridWorld :=
  if negb (inBounds g x z) then (unchanged None, pc, g)
  else
    match tool with
    | Tool.house => placeHouse pc g x z
    | Tool.road => let '(r, g) := placeRoad g x z in (r, pc, g)
    | Tool.erase => let '(r, g) := erase g x z in (r, pc, g)
    end.

(* ===================================================================== *)
(** ** weather/tornadoSystem.ts *)
(* ===================================================================== *)

Record TornadoView : Type := { tv_x : Q; tv_z : Q; tv_radius : Q }.

Record Vector2 : Type := { v_x : Q; v_y : Q }.

(** [interface TornadoEntity], without the meshes ([group], [segments],
    [dust], [debris]) it carries for the renderer. *)
Record TornadoEntity : Type := {
  e_id : Z;
  position : Vector2;
  velocity : Vector2;
  radius : Q;
  lifetime : Q
}.

(** [class TornadoSystem]; the [world] is passed to the operations. *)
Record TornadoSystem : Type := {
  tornadoes : list TornadoEntity;
  idCounter : Z
}.

Definition viewOf (t : TornadoEntity) : TornadoView :=
  {| tv_x := v_x (position t); tv_z := v_y (position t); tv_radius := radius t |}.

Section Tornado.
Context `{JsMath}.

(** [Vector2.rotateAround(center, angle)] of three.js, at the centre
    [(0, 0)] the source passes. *)
Definition rotateAroundOrigin (v : Vector2) (angle : Q) : Vector2 :=
  let c := Math_cos angle in
  let s := Math_sin angle in
  let x := v_x v - 0 in
  let y := v_y v - 0 in
  {| v_x := x * c - y * s + 0; v_y := x * s + y * c + 0 |}.

(** [createEntity(worldX, worldZ, radius)].  Each of the 18 debris
    particles takes seven draws (three for its box, four for its
    orbit) before the speed, heading and lifetime are drawn.  The
    draws that three.js makes for the identifiers of the objects
    created here are not counted: no statement below depends on the
    position of a draw in the stream. *)
Definition createEntity (ts : TornadoSystem) (worldX worldZ rad : Q) (rnd : RandomSource)
  : TornadoEntity * TornadoSystem * RandomSource :=
  let ts := {| tornadoes := tornadoes ts; idCounter := (idCounter ts + 1)%Z |} in
  let rnd := Nat.iter (18 * 7) (fun r => snd (Math_random r)) rnd in
  let '(r1, rnd) := Math_random rnd in
  let speed := 0.4 + r1 * 0.7 in
  let '(r2, rnd) := Math_random rnd in
  let heading := r2 * Math_PI * 2 in
  let '(r3, rnd) := Math_random rnd in
  ({| e_id := idCounter ts;
      position := {| v_x := worldX; v_y := worldZ |};
      velocity := {| v_x := Math_cos heading * speed; v_y := Math_sin heading * speed |};
      radius := rad;
      lifetime := 20 + r3 * 70 |}, ts, rnd).

(** [spawnManual(worldX?, worldZ?)] *)
Definition spawnManual (ts : TornadoSystem) (g : GridWorld) (worldX worldZ : option Q)
    (rnd : RandomSource) : TornadoView * TornadoSystem * RandomSource :=
  let '(spawnX, rnd) :=
    match worldX with
    | Some x => (x, rnd)
    | None =>
        let '(r, rnd) := Math_random rnd in
        ((r * 2 - 1) * (inject_Z (width g) * tileSize g * 0.45), rnd)
    end in
  let '(spawnZ, rnd) :=
    match worldZ with
    | Some z => (z, rnd)
    | None =>
        let '(r, rnd) := Math_random rnd in
        ((r * 2 - 1) * (inject_Z (depth g) * tileSize g * 0.45), rnd)
    end in
  let '(r, rnd) := Math_random rnd in
  let '(tornado, ts, rnd) := createEntity ts spawnX spawnZ (3 + r * 1.8) rnd in
  let ts := {| tornadoes := tornadoes ts ++ [tornado]; idCounter := idCounter ts |} in
  (viewOf tornado, ts, rnd).

(** One axis of the boundary handling of [update]: the position and
    velocity components after the test against [half]. *)
Definition bounce (half p v : Q) : Q * Q :=
  if Js.lt p (- half) || Js.gt p half
  then (Js.max (- half) (Js.min half p), v * -1)
  else (p, v).

(** The body of the loop of [update] for one tornado: [None] when the
    tornado is destroyed ([destroyByIndex]), the stepped entity
    otherwise. *)
Definition stepTornado (halfW halfD dt : Q) (tornado : TornadoEntity) (rnd : RandomSource)
  : option TornadoEntity * RandomSource :=
  let life := lifetime tornado - dt in
  if Js.le life 0 then (None, rnd)
  else
    let '(r, rnd) := Math_random rnd in
    let steering := (r * 2 - 1) * 0.6 in
    let vel := rotateAroundOrigin (velocity tornado) (steering * dt * 0.2) in
    let px := v_x (position tornado) + v_x vel * dt in
    let py := v_y (position tornado) + v_y vel * dt in
    let '(px, vx) := bounce halfW px (v_x vel) in
    let '(py, vy) := bounce halfD py (v_y vel) in
    (Some {| e_id := e_id tornado;
             position := {| v_x := px; v_y := py |};
             velocity := {| v_x := vx; v_y := vy |};
             radius := radius tornado;
             lifetime := life |}, rnd).

(** The loop [for (i = length - 1; i >= 0; i -= 1)] of [update], over
    the tornadoes from the last to the first: the tornadoes kept (in
    their order in the array), the views pushed, the stream. *)
Definition stepAll (halfW halfD dt : Q) (ts : list TornadoEntity) (rnd : RandomSource)
  : list TornadoEntity * list TornadoView * RandomSource :=
  fold_left
    (fun '(kept, results, rnd) tornado =>
       match stepTornado halfW halfD dt tornado rnd with
       | (None, rnd) => (kept, results, rnd)
       | (Some t', rnd) => (t' :: kept, results ++ [viewOf t'], rnd)
       end)
    (rev ts) ([], [], rnd).

(** [update(dt, intensity, allowAutoSpawns, onSpawn)] *)
Definition TornadoSystem_update (ts : TornadoSystem) (g : GridWorld)
    (dt intensity : Q) (allowAutoSpawns : bool) (rnd : RandomSource)
  : list TornadoView * TornadoSystem * RandomSource :=
  let intensityClamped := Js.max 0 (Js.min 1 intensity) in
  let '(ts, rnd) :=
    if allowAutoSpawns then
      let '(r, rnd) := Math_random rnd in
      if Js.lt r (intensityClamped * dt * 0.006) then
        let '(_, ts, rnd) := spawnManual ts g None None rnd in (ts, rnd)
      else (ts, rnd)
    else (ts, rnd) in
  let halfW := inject_Z (width g) * tileSize g / 2 in
  let halfD := inject_Z (depth g) * tileSize g / 2 in
  let '(kept, results, rnd) := stepAll halfW halfD dt (tornadoes ts) rnd in
  (results, {| tornadoes := kept; idCounter := idCounter ts |}, rnd).

(** [clear()] *)
Definition TornadoSystem_clear (ts : TornadoSystem) : TornadoSystem :=
  {| tornadoes := []; idCounter := idCounter ts |}.
End Tornado.

(* ===================================================================== *)
(** ** weather/system.ts *)
(* ===================================================================== *)

Definition SIREN_RADIUS_TILES : Q := 8.
Definition GAME_HOURS_PER_SECOND : Q := 0.35.

(** [timeScale: 1 | 2 | 4] of [AppState]. *)
Inductive TimeScale : Type := x1 | x2 | x4.

Definition scaleOf (s : TimeScale) : Q :=
  match s with x1 => 1 | x2 => 2 | x4 => 4 end.

(** The fields of [AppState] read by [WeatherSystem.update]. *)
Record AppState : Type := {
  intensity : Q;
  playing : bool;
  timeScale : TimeScale
}.

Record DestructionTile : Type := { d_x : Z; d_z : Z }.

Record WeatherUpdateResult : Type := {
  r_tornadoes : list TornadoView;
  sirenActive : bool;
  r_dayTimeHours : Q;
  destructionPath : list DestructionTile;
  destructionChanged : bool;
  treesChanged : bool;
  buildingsChanged : bool
}.

(** [class WeatherSystem], without the rain, cloud, lightning and audio
    collaborators: they read the grid and draw from [Math.random] but
    write none of the fields below. *)
Record WeatherSystem : Type := {
  tornadoSystem : TornadoSystem;
  sirenHold : Q;
  dayTimeHours : Q;
  destroyedTileSet : list Z;
  destroyedTiles : list DestructionTile
}.

(** The state of a fresh [WeatherSystem]. *)
Definition WeatherSystem_new : WeatherSystem :=
  {| tornadoSystem := {| tornadoes := []; idCounter := 0 |};
     sirenHold := 0;
     dayTimeHours := 9;
     destroyedTileSet := [];
     destroyedTiles := [] |}.

(** [a % b] on numbers: the remainder has the sign of the dividend. *)
Definition Js_rem (a b : Q) : Q :=
  a - b * inject_Z (Z.quot (Qnum (a / b)) (Zpos (Qden (a / b)))).

(** The state of the loops of [markDestructionPath]. *)
Record DestructionScan : Type := {
  sc_changed : bool;
  sc_treesChanged : bool;
  sc_ids : list string;
  sc_set : list Z;
  sc_tiles : list DestructionTile;
  sc_world : GridWorld
}.

(** The body of the two inner loops of [markDestructionPath] at the tile
    [(tx, tz)]. *)
Definition scanTile (tornado : TornadoView) (sc : DestructionScan) (tx tz : Z)
  : DestructionScan :=
  let g := sc_world sc in
  if negb (inBounds g tx tz) then sc
  else
    let tileWorld := tileToWorld g (inject_Z tx) (inject_Z tz) in
    let ddx := wx tileWorld - tv_x tornado in
    let ddz := wz tileWorld - tv_z tornado in
    if Js.sqrt_gt (ddx * ddx + ddz * ddz) (tv_radius tornado * 0.78) then sc
    else
      let idx := index g tx tz in
      let fresh := negb (JsSet.has (sc_set sc) idx) in
      let set' := if fresh then JsSet.add (sc_set sc) idx else sc_set sc in
      let tiles' :=
        if fresh then sc_tiles sc ++ [{| d_x := tx; d_z := tz |}] else sc_tiles sc in
      let changed' := if fresh then true else sc_changed sc in
      let '(removed, g) := removeTreeAt g tx tz in
      let treesChanged' := if removed then true else sc_treesChanged sc in
      let occupant :=
        match getTile g tx tz with Some t => occupantId t | None => None end in
      let ids' :=
        match occupant with
        | Some o => if Js.truthy (Some o) then JsSet.add (sc_ids sc) o else sc_ids sc
        | None => sc_ids sc
        end in
      {| sc_changed := changed'; sc_treesChanged := treesChanged'; sc_ids := ids';
         sc_set := set'; sc_tiles := tiles'; sc_world := g |}.

(** The offsets [(dx, dz)] visited by
    [for (dz = -r; dz <= r; dz += 1) for (dx = -r; dx <= r; dx += 1)]. *)
Definition window (r : Z) : list (Z * Z) :=
  flat_map (fun dz => map (fun dx => (dx, dz)) (seqZ (- r) (2 * r + 1)))
           (seqZ (- r) (2 * r + 1)).

(** The body of [for (const tornado of tornadoViews)]. *)
Definition scanTornado (sc : DestructionScan) (tornado : TornadoView) : DestructionScan :=
  let g := sc_world sc in
  match worldToTile g (tv_x tornado) (tv_z tornado) with
  | None => sc
  | Some (cx, cz) =>
      let radiusTiles := Z.max 1 (Js.ceil (tv_radius tornado * 0.72 / tileSize g)) in
      fold_left (fun sc '(dx, dz) => scanTile tornado sc (cx + dx)%Z (cz + dz)%Z)
                (window radiusTiles) sc
  end.

(** The body of [for (const buildingId of destroyedBuildingIds)]. *)
Definition destroyBuilding (st : bool * GridWorld) (buildingId : string) : bool * GridWorld :=
  let '(buildingsChanged, g) := st in
  if negb (JsMap.has (buildings g) buildingId) then (buildingsChanged, g)
  else
    let g := clearOccupant g buildingId in
    let g := set_buildings (JsMap.delete (buildings g) buildingId) g in
    (true, g).

Record DestructionResult : Type := {
  dr_changed : bool;
  dr_treesChanged : bool;
  dr_buildingsChanged : bool
}.

(** [markDestructionPath(tornadoViews)] *)
Definition markDestructionPath (ws : WeatherSystem) (g : GridWorld)
    (tornadoViews : list TornadoView) : DestructionResult * WeatherSystem * GridWorld :=
  let sc :=
    fold_left scanTornado tornadoViews
      {| sc_changed := false; sc_treesChanged := false; sc_ids := [];
         sc_set := destroyedTileSet ws; sc_tiles := destroyedTiles ws;
         sc_world := g |} in
  let '(buildingsChanged, g) := fold_left destroyBuilding (sc_ids sc) (false, sc_world sc) in
  ({| dr_changed := sc_changed sc; dr_treesChanged := sc_treesChanged sc;
      dr_buildingsChanged := buildingsChanged |},
   {| tornadoSystem := tornadoSystem ws; sirenHold := sirenHold ws;
      dayTimeHours := dayTimeHours ws;
      destroyedTileSet := sc_set sc; destroyedTiles := sc_tiles sc |},
   g).

(** The test of [isAnyTornadoNearTown] for one tornado and one building. *)
Definition nearBuilding (g : GridWorld) (tornado : TornadoView) (building : BuildingRecord)
  : bool :=
  let radiusWorld := SIREN_RADIUS_TILES * tileSize g in
  let center :=
    tileToWorld g
      (inject_Z (originX building) + inject_Z (b_width building) * 0.5 - 0.5)
      (inject_Z (originZ building) + inject_Z (b_depth building) * 0.5 - 0.5) in
  let dx := wx center - tv_x tornado in
  let dz := wz center - tv_z tornado in
  Js.sqrt_le (dx * dx + dz * dz) (radiusWorld + tv_radius tornado).

(** [isAnyTornadoNearTown(tornadoViews)] *)
Definition isAnyTornadoNearTown (g : GridWorld) (tornadoViews : list TornadoView) : bool :=
  if bool_decide (length tornadoViews = 0%nat)
     || bool_decide (JsMap.size (buildings g) = 0%nat)
  then false
  else
    existsb (fun tornado => existsb (nearBuilding g tornado) (JsMap.values (buildings g)))
            tornadoViews.

Section Weather.
Context `{JsMath}.

(** [update(dt, state, centerX, centerZ)].  [rnd] is the stream of
    [Math.random] as the tornado step of this tick finds it, after the
    draws of the rain and lightning steps. *)
Definition WeatherSystem_update (ws : WeatherSystem) (g : GridWorld)
    (dt : Q) (st : AppState) (rnd : RandomSource)
  : WeatherUpdateResult * WeatherSystem * GridWorld * RandomSource :=
  let scaledDt := dt * scaleOf (timeScale st) in
  if negb (playing st) then
    ({| r_tornadoes := []; sirenActive := false;
        r_dayTimeHours := dayTimeHours ws;
        destructionPath := destroyedTiles ws;
        destructionChanged := false; treesChanged := false;
        buildingsChanged := false |}, ws, g, rnd)
  else
    let hours := Js_rem (dayTimeHours ws + scaledDt * GAME_HOURS_PER_SECOND) 24 in
    let '(tornadoViews, tsys, rnd) :=
      TornadoSystem_update (tornadoSystem ws) g scaledDt (intensity st) true rnd in
    let ws :=
      {| tornadoSystem := tsys; sirenHold := sirenHold ws; dayTimeHours := hours;
         destroyedTileSet := destroyedTileSet ws;
         destroyedTiles := destroyedTiles ws |} in
    let '(destruction, ws, g) := markDestructionPath ws g tornadoViews in
    let nearTown := isAnyTornadoNearTown g tornadoViews in
    let hold := if nearTown then 3 else Js.max 0 (sirenHold ws - scaledDt) in
    let ws :=
      {| tornadoSystem := tornadoSystem ws; sirenHold := hold;
         dayTimeHours := dayTimeHours ws;
         destroyedTileSet := destroyedTileSet ws;
         destroyedTiles := destroyedTiles ws |} in
    let active := Js.gt (sirenHold ws) 0 in
    ({| r_tornadoes := tornadoViews; sirenActive := active;
        r_dayTimeHours := dayTimeHours ws;
        destructionPath := destroyedTiles ws;
        destructionChanged := dr_changed destruction;
        treesChanged := dr_treesChanged destruction;
        buildingsChanged := dr_buildingsChanged destruction |}, ws, g, rnd).

(** [reset()] *)
Definition WeatherSystem_reset (ws : WeatherSystem) : WeatherSystem :=
  {| tornadoSystem := TornadoSystem_clear (tornadoSystem ws);
     sirenHold := 0;
     dayTimeHours := dayTimeHours ws;
     destroyedTileSet := [];
     destroyedTiles := [] |}.

(** [spawnManualTornado(x?, z?)] *)
Definition spawnManualTornado (ws : WeatherSystem) (g : GridWorld) (x z : option Q)
    (rnd : RandomSource) : WeatherSystem * RandomSource :=
  let '(_, tsys, rnd) := spawnManual (tornadoSystem ws) g x z rnd in
  ({| tornadoSystem := tsys; sirenHold := sirenHold ws;
      dayTimeHours := dayTimeHours ws;
      destroyedTileSet := destroyedTileSet ws;
      destroyedTiles := destroyedTiles ws |}, rnd).
End Weather.

(* ===================================================================== *)
(** ** A rational instance of the mathematical library *)
(* ===================================================================== *)

(** Closed examples evaluate the model with the following stand-ins,
    each rounded to nine decimals: [PI] to nine decimals, the Taylor
    polynomial of degree eleven of the sine after reduction of the
    argument to a quarter turn, the cosine as the shifted sine, and
    Newton steps for the square root. *)
Definition round9 (x : Q) : Q := Qred (inject_Z (Qfloor (x * 1000000000 + 0.5)) / 1000000000).

Definition approx_PI : Q := 3.141592654.

Definition approx_sin (x : Q) : Q :=
  let turns := Qfloor (x / (2 * approx_PI) + 0.5) in
  let y := round9 (x - inject_Z turns * (2 * approx_PI)) in
  let y := if Qle_bool (approx_PI / 2) y then approx_PI - y
           else if Qle_bool y (- (approx_PI / 2)) then - approx_PI - y
           else y in
  let y := Qred y in
  let y2 := y * y in
  round9 (y * (1 - y2 / 6 * (1 - y2 / 20 * (1 - y2 / 42 * (1 - y2 / 72 * (1 - y2 / 110)))))).

Definition approx_cos (x : Q) : Q := approx_sin (x + approx_PI / 2).

Definition approx_sqrt (x : Q) : Q :=
  if Qle_bool x 0 then 0
  else Nat.iter 14 (fun y => round9 ((y + x / y) / 2)) (round9 ((x + 1) / 2)).

Definition RationalMath : JsMath :=
  {| Math_sin := approx_sin; Math_cos := approx_cos; Math_sqrt := approx_sqrt;
     Math_PI := approx_PI |}.

(* ===================================================================== *)
(** ** weather/lightningSystem.ts *)
(* ===================================================================== *)

(** [interface PendingThunder] *)
Record PendingThunder : Type := { delay : Q; strength : Q }.

(** [class LightningSystem]: the cooldown until the next flash and the
    thunders waiting for their delay. *)
Record LightningSystem : Type := {
  flashCooldown : Q;
  pending : list PendingThunder
}.

(** The calls made on [LightningCallbacks], in the order they are made. *)
Inductive LightningEvent : Type :=
| onFlash (durationSeconds : Q)
| onThunder (thunderStrength : Q).

Definition LightningSystem_new : LightningSystem :=
  {| flashCooldown := 3; pending := [] |}.

(** The loop [for (i = pending.length - 1; i >= 0; i -= 1)] of [update]:
    every delay is lowered by [dt]; the entries that are due are removed
    and reported, from the last index to the first. *)
Definition age (dt : Q) (entry : PendingThunder) : PendingThunder :=
  {| delay := delay entry - dt; strength := strength entry |}.

Definition due (entry : PendingThunder) : bool := Js.le (delay entry) 0.

Definition settle (dt : Q) (entries : list PendingThunder)
  : list PendingThunder * list LightningEvent :=
  let aged := map (age dt) entries in
  (List.filter (fun e => negb (due e)) aged,
   map (fun e => onThunder (strength e)) (List.filter due (rev aged))).

(** [update(dt, enabled, intensity, callbacks)]: the system after the
    call, the callbacks made and the stream of [Math.random] after it. *)
Definition LightningSystem_update (ls : LightningSystem) (dt : Q) (enabled : bool)
    (intensity : Q) (rnd : RandomSource)
  : LightningSystem * list LightningEvent * RandomSource :=
  if negb enabled || Js.le intensity 0.01 then
    ({| flashCooldown := Js.min (flashCooldown ls) 2.2; pending := [] |}, [], rnd)
  else
    let intensityClamped := Js.max 0 (Js.min 1 intensity) in
    let cooldown := flashCooldown ls - dt in
    let '(cooldown, entries, flashes, rnd) :=
      if Js.le cooldown 0 then
        let '(r1, rnd) := Math_random rnd in
        let cooldown := 1.5 + r1 * (8 - intensityClamped * 5.5) in
        let '(r2, rnd) := Math_random rnd in
        let flashDuration := 0.1 + r2 * 0.15 in
        let '(r3, rnd) := Math_random rnd in
        let thunderDelay := 0.2 + r3 * 1.8 in
        let '(r4, rnd) := Math_random rnd in
        let thunderStrength := 0.5 + r4 * 0.5 * intensityClamped in
        (cooldown,
         pending ls ++ [{| delay := thunderDelay; strength := thunderStrength |}],
         [onFlash flashDuration], rnd)
      else (cooldown, pending ls, [], rnd) in
    let '(kept, thunders) := settle dt entries in
    ({| flashCooldown := cooldown; pending := kept |}, flashes ++ thunders, rnd).

(** [triggerNow(callbacks)] *)
Definition LightningSystem_triggerNow (ls : LightningSystem) (rnd : RandomSource)
  : LightningSystem * list LightningEvent * RandomSource :=
  let '(r1, rnd) := Math_random rnd in
  let flashDuration := 0.1 + r1 * 0.15 in
  let '(r2, rnd) := Math_random rnd in
  let '(r3, rnd) := Math_random rnd in
  ({| flashCooldown := flashCooldown ls;
      pending := pending ls ++ [{| delay := 0.2 + r2 * 0.8; strength := 0.72 + r3 * 0.28 |}] |},
   [onFlash flashDuration], rnd).

(** A stream of [Math.random] whose draws lie in the interval from 0
    (included) to 1 (excluded). *)
Definition unitDraws (rnd : RandomSource) : Prop :=
  forall n, 0 <= draws rnd n /\ draws rnd n < 1.

(* ===================================================================== *)
(** ** Properties and runs used in the statements *)
(* ===================================================================== *)

(** The invariant of a tile: an occupied tile is a foundation, a tile
    with a tree is unoccupied grass. *)
Definition tileOk (t : Tile) : Prop :=
  (occupantId t <> None -> type t = foundation) /\
  (treeId t <> None -> type t = grass /\ occupantId t = None).

(** The reverse index [treeByTile] agrees with the [treeId] fields. *)
Definition treeSync (g : GridWorld) : Prop :=
  forall (i : nat) (t : Tile),
    tiles g !! i = Some t -> treeId t = JsMap.get (treeByTile g) (Z.of_nat i).

(** No tree id of the reverse index is the empty string. *)
Definition treeIdsTruthy (g : GridWorld) : Prop :=
  forall (i : Z) (tid : string),
    JsMap.get (treeByTile g) i = Some tid -> tid <> EmptyString.

(** The invariant kept by every operation of the grid. *)
Definition gridInv (g : GridWorld) : Prop :=
  Forall tileOk (tiles g) /\ treeSync g /\ treeIdsTruthy g.

(** The fields written by the constructor only: dimensions, seed,
    terrain, stream, hills and the captured base state. *)
Definition sameTerrain (g g' : GridWorld) : Prop :=
  width g' = width g /\ depth g' = depth g /\ tileSize g' = tileSize g /\
  seed g' = seed g /\ heightField g' = heightField g /\
  baseTileTypes g' = baseTileTypes g /\ baseTrees g' = baseTrees g /\
  streamBaseZ g' = streamBaseZ g /\ streamAmplitude g' = streamAmplitude g /\
  streamFrequency g' = streamFrequency g /\ streamPhase g' = streamPhase g /\
  streamHalfWidth g' = streamHalfWidth g /\ hills g' = hills g.

(** The invariant of the grid together with the base trees it restores
    on a reset. *)
Definition worldInv (g : GridWorld) : Prop :=
  gridInv g /\ Forall (fun t => t_id t <> EmptyString) (baseTrees g).

(** A grid without trees and occupants. *)
Definition blankGrid (g : GridWorld) : Prop :=
  treeByTile g = [] /\
  Forall (fun t => occupantId t = None /\ treeId t = None) (tiles g).

(** The tile indices of the in-bounds part of the footprint of a
    building, and of a list of buildings. *)
Definition footprintIndices (g : GridWorld) (b : BuildingRecord) : list nat :=
  map (fun '(dx, dz) => Z.to_nat (index g (originX b + dx) (originZ b + dz)))
      (List.filter (fun '(dx, dz) => inBounds g (originX b + dx) (originZ b + dz))
                   (grid_coords (b_width b) (b_depth b))).

Definition coveredIndices (g : GridWorld) (bs : list BuildingRecord) : list nat :=
  flat_map (footprintIndices g) bs.

(** A tile as the footprint loops leave it. *)
Definition paint (b : BuildingRecord) (t : Tile) : Tile :=
  {| type := foundation; height := height t;
     occupantId := Some (b_id b); treeId := None |}.

(** What a scan never undoes: the ledger and the ids collected grow, the
    buildings, the dimensions and the occupants stay. *)
Definition scanGrows (sc sc' : DestructionScan) : Prop :=
  (forall i, i ∈ sc_set sc -> i ∈ sc_set sc') /\
  (forall b, b ∈ sc_ids sc -> b ∈ sc_ids sc') /\
  buildings (sc_world sc') = buildings (sc_world sc) /\
  width (sc_world sc') = width (sc_world sc) /\
  depth (sc_world sc') = depth (sc_world sc) /\
  tileSize (sc_world sc') = tileSize (sc_world sc) /\
  map occupantId (tiles (sc_world sc')) = map occupantId (tiles (sc_world sc)).

(** The world-space centre of the footprint of a building, as
    [isAnyTornadoNearTown] computes it. *)
Definition buildingCenter (g : GridWorld) (b : BuildingRecord) : WorldPos :=
  tileToWorld g
    (inject_Z (originX b) + inject_Z (b_width b) * 0.5 - 0.5)
    (inject_Z (originZ b) + inject_Z (b_depth b) * 0.5 - 0.5).

(** The offsets of the tiles of a footprint. *)
Definition inFootprint (b : BuildingRecord) (dx dz : Z) : Prop :=
  (0 <= dx < b_width b)%Z /\ (0 <= dz < b_depth b)%Z.

(** Every tree record is stored under its id, lies in bounds and stands
    on a tile that carries its id. *)
Definition treesOk (g : GridWorld) : Prop :=
  NoDup (JsMap.keys (trees g)) /\
  forall k v, (k, v) ∈ trees g ->
    t_id v = k /\ inBounds g (t_x v) (t_z v) = true /\
    exists t, tiles g !! Z.to_nat (index g (t_x v) (t_z v)) = Some t /\ treeId t = Some k.

(** Every building record is stored under its id and owns the tiles of
    its in-bounds footprint, which are foundations. *)
Definition buildingsOk (g : GridWorld) : Prop :=
  NoDup (JsMap.keys (buildings g)) /\
  forall k b, (k, b) ∈ buildings g ->
    b_id b = k /\
    forall j t, j ∈ footprintIndices g b -> tiles g !! j = Some t ->
                type t = foundation /\ occupantId t = Some k.

(** The water tiles are those of the base state. *)
Definition waterOk (g : GridWorld) : Prop :=
  forall j t, tiles g !! j = Some t ->
    (type t = water <-> baseTileTypes g !! j = Some water).

(** The three registry properties together. *)
Definition registryOk (g : GridWorld) : Prop := treesOk g /\ buildingsOk g /\ waterOk g.

(** The registries agree with the tiles. *)
Definition consistent (g : GridWorld) : Prop := worldInv g /\ registryOk g.

(** Every entry of the reverse index points at a tile. *)
Definition treeIndexOk (g : GridWorld) : Prop :=
  forall idx k, JsMap.get (treeByTile g) idx = Some k ->
                (0 <= idx)%Z /\ is_Some (tiles g !! Z.to_nat idx).

(** The state of [applySnapshot] on the snapshot of [g] while the trees
    are added back: the records [m1] are stored, the tiles have the
    types of [g], no occupant, and only tree ids of [g] among [m1]. *)
Definition treesRestored (g : GridWorld) (m1 : list (string * TreeRecord))
    (g' : GridWorld) : Prop :=
  gridInv g' /\ width g' = width g /\ depth g' = depth g /\ trees g' = m1 /\
  (forall j t', tiles g' !! j = Some t' ->
     exists t, tiles g !! j = Some t /\ type t' = type t /\ occupantId t' = None /\
               forall k, treeId t' = Some k -> treeId t = Some k /\ k ∈ JsMap.keys m1) /\
  (forall j t, tiles g !! j = Some t -> is_Some (tiles g' !! j)) /\
  treeIndexOk g'.

(** The state of [applySnapshot] on the snapshot of [g] while the
    buildings are put back: the trees of [g] are stored, and the tiles
    carry tree ids of [g] only. *)
Definition buildingsRestored (g g' : GridWorld) : Prop :=
  gridInv g' /\ width g' = width g /\ depth g' = depth g /\ trees g' = trees g /\
  (forall j t' k, tiles g' !! j = Some t' -> treeId t' = Some k ->
     exists t, tiles g !! j = Some t /\ treeId t = Some k) /\
  treeIndexOk g'.

(** No snapshot: the runs that restore none. *)
Definition noSnapshot (s : WorldSnapshot) : Prop := False.

(** No tree record of the snapshot has an empty id. *)
Definition snapshotTreeIdsTruthy (s : WorldSnapshot) : Prop :=
  match s_trees s with
  | Some ts => Forall (fun t => t_id t <> EmptyString) ts
  | None => True
  end.

(** A tornado whose lifetime reaches zero or less after [dt]. *)
Definition expires (dt : Q) (t : TornadoEntity) : bool := Js.le (lifetime t - dt) 0.

(** The ids of the tornadoes are distinct and none exceeds the counter. *)
Definition idsOk (ts : TornadoSystem) : Prop :=
  NoDup (map e_id (tornadoes ts)) /\
  Forall (fun t => (e_id t <= idCounter ts)%Z) (tornadoes ts).

(** One call of [TornadoSystem.update]: its arguments and the stream of
    [Math.random] it draws from. *)
Record TornadoTick : Type := {
  tt_dt : Q; tt_intensity : Q; tt_allow : bool; tt_random : RandomSource
}.

(** The time that passes over a list of calls. *)
Definition dtOver (ticks : list TornadoTick) : Q :=
  fold_right Qplus 0 (map tt_dt ticks).

(** What the boundary handling of [update] makes of one axis: [p] and
    [v] are the position and velocity components after the translation,
    [p'] and [v'] the components the call leaves. *)
Definition reflected (half p v p' v' : Q) : Prop :=
  (p < - half -> p' == - half /\ v' == - v) /\
  (half < p -> p' == half /\ v' == - v) /\
  (- half <= p <= half -> p' = p /\ v' = v).

(** A world position within the half-extents of the grid. *)
Definition inWorld (g : GridWorld) (x z : Q) : Prop :=
  - (inject_Z (width g) * tileSize g / 2) <= x <= inject_Z (width g) * tileSize g / 2 /\
  - (inject_Z (depth g) * tileSize g / 2) <= z <= inject_Z (depth g) * tileSize g / 2.

(** One call of [WeatherSystem.update]: its arguments and the stream of
    [Math.random] at its tornado step. *)
Record Tick : Type := { tk_dt : Q; tk_state : AppState; tk_random : RandomSource }.







Section Runs.
Context `{JsMath}.

(** The entity [t'] is the result of the loop body of
    [TornadoSystem.update] on [t]. *)
Definition stepped (hW hD dt : Q) (t t' : TornadoEntity) : Prop :=
  exists rnd, stepTornado hW hD dt t rnd = (Some t', snd (Math_random rnd)).

(** A run of [TornadoSystem.update] calls on the same system. *)
Definition runUpdates (g : GridWorld) (ts : TornadoSystem) (ticks : list TornadoTick)
  : TornadoSystem :=
  fold_left
    (fun ts tk =>
       (TornadoSystem_update ts g (tt_dt tk) (tt_intensity tk) (tt_allow tk)
          (tt_random tk)).1.2)
    ticks ts.

(** The tornado [t'] is [t] after one call with time step [dt]: for
    some draw [r] of the steering, the velocity is turned by
    [steering * dt * 0.2], the position is translated by the turned
    velocity, and each axis is reflected at its half-extent. *)
Definition bounced (hW hD dt : Q) (t t' : TornadoEntity) : Prop :=
  e_id t' = e_id t /\
  exists r : Q,
    let vel := rotateAroundOrigin (velocity t) ((r * 2 - 1) * 0.6 * dt * 0.2) in
    reflected hW (v_x (position t) + v_x vel * dt) (v_x vel)
              (v_x (position t')) (v_x (velocity t')) /\
    reflected hD (v_y (position t) + v_y vel * dt) (v_y vel)
              (v_y (position t')) (v_y (velocity t')).



(** The grids reached from a fresh one by the build tools, destruction
    passes, resets and the restoring of snapshots that satisfy [P]. *)
Inductive reachable (P : WorldSnapshot -> Prop) : GridWorld -> Prop :=
| reach_new config : reachable P (GridWorld_new config)
| reach_apply g pc tool x z :
    reachable P g -> reachable P (apply pc g tool x z).2
| reach_destroy g ws views :
    reachable P g -> reachable P (markDestructionPath ws g views).2
| reach_reset g : reachable P g -> reachable P (resetTiles g)
| reach_snapshot g s :
    reachable P g -> P s -> reachable P (applySnapshot g s).
End Runs.

(** Concrete worlds, snapshots and runs, for the closed instances of the
    theorems.  The constructed ones use [RationalMath]. *)
Module Examples.
Definition config (w d s : Z) : GridConfig :=
  {| c_width := w; c_depth := d; c_tileSize := 1; c_seed := s |}.

(** A world of two tiles in a column. *)
Abbreviation lawn := (@GridWorld_new RationalMath (config 1 2 1)) (only parsing).

(** Twelve tiles in a column: the stream crosses the tile [(0, 4)],
    trees stand on [(0, 9)] and [(0, 11)]. *)
Abbreviation brook := (@GridWorld_new RationalMath (config 1 12 2)) (only parsing).

Definition pc0 : PlacementController := {| placementCounter := 0 |}.

(** A road is laid on the tile [(0, z)] and erased again. *)
Definition pave (g : GridWorld) (z : Z) : GridWorld :=
  (apply pc0 (apply pc0 g Tool.road 0 z).2 Tool.erase 0 z).2.

(** The brook after both trees were paved over. *)
Abbreviation clearing := (pave (pave brook 9) 11) (only parsing).

(** What is read off a world: its trees and base types, the trees left
    when the tiles 9 and 11 were paved over, and the trees after the
    snapshot of that grid was restored on it. *)
Definition survey (g : GridWorld)
  : list string * list TileType * list string * list string :=
  let c := pave (pave g 9) 11 in
  (JsMap.keys (trees g), baseTileTypes g, JsMap.keys (trees c),
   JsMap.keys (trees (@applySnapshot RationalMath c (toSnapshot c)))).

Definition hut (id : string) (x z w d : Z) : BuildingRecord :=
  {| b_id := id; b_seed := 7; originX := x; originZ := z; b_width := w; b_depth := d;
     baseHeight := 1; roofHeight := 0.5; roofStyle := gabled;
     wallColor := "#c8cfb2"; roofColor := "#b64d3f"; hasChimney := false |}.

Definition sapling (id : string) (x z : Z) : TreeRecord :=
  {| t_id := id; t_x := x; t_z := z; trunkHeight := 0.4; crownHeight := 0.6;
     crownRadius := 0.4; hueOffset := 0 |}.

(** A snapshot of the lawn whose tree has the empty id and stands under
    a building. *)
Definition namelessTree : WorldSnapshot :=
  {| s_width := 1; s_depth := 2; s_seed := 1; tileTypes := [grass; water];
     s_trees := Some [sapling "" 0 0]; s_buildings := [hut "b" 0 0 1 1] |}.

(** The lawn after that snapshot was restored. *)
Abbreviation overbuilt := (@applySnapshot RationalMath lawn namelessTree) (only parsing).

(** A snapshot of the brook without water and trees, with a building on
    the tile of the stream. *)
Definition dammed : WorldSnapshot :=
  {| s_width := 1; s_depth := 12; s_seed := 2; tileTypes := replicate 12 grass;
     s_trees := None; s_buildings := [hut "b" 0 4 1 1] |}.

Definition plainTile (ty : TileType) (o : option string) : Tile :=
  {| type := ty; height := 0; occupantId := o; treeId := None |}.

(** A grid written out: [w] by [d] tiles of size 1 over flat terrain. *)
Definition flat (w d : Z) (ts : list Tile) (bs : list (string * BuildingRecord))
    (base : list TileType) : GridWorld :=
  {| width := w; depth := d; tileSize := 1; seed := 1; tiles := ts;
     heightField := replicate (Z.to_nat ((w + 1) * (d + 1))) 0;
     buildings := bs; trees := []; treeByTile := [];
     baseTileTypes := base; baseTrees := [];
     streamBaseZ := 0; streamAmplitude := 0; streamFrequency := 1;
     streamPhase := 0; streamHalfWidth := 1; hills := [] |}.

(** Three by three tiles under one building. *)
Definition block : GridWorld :=
  flat 3 3 (replicate 9 (plainTile foundation (Some "b"%string)))
       [("b"%string, hut "b" 0 0 3 3)] (replicate 9 grass).

(** The tornado on the centre of that building. *)
Definition twister : TornadoView :=
  {| tv_x := wx (buildingCenter block (hut "b" 0 0 3 3));
     tv_z := wz (buildingCenter block (hut "b" 0 0 3 3));
     tv_radius := 4 |}.

(** Two tiles, the first one water in the base state, both grass now,
    and their snapshot. *)
Definition drained : GridWorld :=
  flat 1 2 [plainTile grass None; plainTile grass None] [] [water; grass].

Definition drainedSnapshot : WorldSnapshot :=
  {| s_width := 1; s_depth := 2; s_seed := 1; tileTypes := [grass; grass];
     s_trees := Some [sapling "t-0-1" 0 1]; s_buildings := [] |}.

(** A snapshot of another width. *)
Definition wide : WorldSnapshot :=
  {| s_width := 2; s_depth := 2; s_seed := 1; tileTypes := [road; road; road; road];
     s_trees := None; s_buildings := [] |}.

(** A street of sixteen tiles with a house on the first one, and a
    tornado over its middle. *)
Definition street : GridWorld :=
  flat 16 1 (plainTile foundation (Some "b"%string) :: replicate 15 (plainTile grass None))
       [("b"%string, hut "b" 0 0 1 1)] (replicate 16 grass).

Definition funnel : TornadoEntity :=
  {| e_id := 1; position := {| v_x := 0; v_y := 0 |};
     velocity := {| v_x := 7.9; v_y := 0 |}; radius := 3; lifetime := 50 |}.

Definition stormy : WeatherSystem :=
  {| tornadoSystem := {| tornadoes := [funnel]; idCounter := 1 |};
     sirenHold := 0; dayTimeHours := 9; destroyedTileSet := []; destroyedTiles := [] |}.

Definition steady : RandomSource := {| draws := fun _ => 0.5; cursor := 0 |}.

(** A tornado close to the east edge of the street, heading east, and
    the system that holds it. *)
Definition edgeFunnel : TornadoEntity :=
  {| e_id := 1; position := {| v_x := 7.99; v_y := 0 |};
     velocity := {| v_x := 1; v_y := 0 |}; radius := 3; lifetime := 50 |}.

Definition edgeStorm : TornadoSystem := {| tornadoes := [edgeFunnel]; idCounter := 1 |}.

(** Two calls of thirty seconds each, without automatic spawns. *)
Definition longTick : TornadoTick :=
  {| tt_dt := 30; tt_intensity := 0.5; tt_allow := false; tt_random := steady |}.

Definition tick (dt : Q) : Tick :=
  {| tk_dt := dt;
     tk_state := {| intensity := 0.5; playing := true; timeScale := x1 |};
     tk_random := steady |}.

End Examples.

(** The terrain and the number of tiles of [g] are those of [g']. *)
Definition sameShape (g g' : GridWorld) : Prop :=
  sameTerrain g g' /\ length (tiles g') = length (tiles g).

(** The grid has one tile per pair of coordinates, one height per
    vertex and one base type per tile. *)
Definition wellShaped (g : GridWorld) : Prop :=
  length (tiles g) = (Z.to_nat (depth g) * Z.to_nat (width g))%nat /\
  length (heightField g) = (Z.to_nat (depth g + 1) * Z.to_nat (width g + 1))%nat /\
  length (baseTileTypes g) = length (tiles g).

(** The ledger of destroyed tiles lists every index of its set once, in
    the order of the set. *)
Definition ledgerOk (g : GridWorld) (ws : WeatherSystem) : Prop :=
  destroyedTileSet ws = map (fun d => index g (d_x d) (d_z d)) (destroyedTiles ws) /\
  NoDup (destroyedTileSet ws).


(** The invariant of the loops of [markDestructionPath] over the scan
    state, for the grid [g] and the weather [ws] the scan started from. *)
Definition scanOk (g : GridWorld) (ws : WeatherSystem) (sc : DestructionScan) : Prop :=
  width (sc_world sc) = width g /\
  sc_set sc = map (fun d => index g (d_x d) (d_z d)) (sc_tiles sc) /\
  NoDup (sc_set sc) /\
  exists more, sc_tiles sc = destroyedTiles ws ++ more.

(** The callbacks of one kind among the calls made. *)
Definition isFlash (e : LightningEvent) : bool :=
  match e with onFlash _ => true | onThunder _ => false end.

Definition flashCount (events : list LightningEvent) : nat :=
  length (List.filter isFlash events).

Definition thunderCount (events : list LightningEvent) : nat :=
  length (List.filter (fun e => negb (isFlash e)) events).

(** A lightning system that is about to flash, with one thunder due and
    one still far away. *)
Definition charged : LightningSystem :=
  {| flashCooldown := 0.5;
     pending := [{| delay := 0.25; strength := 0.75 |}; {| delay := 4; strength := 1 |}] |}.

(** Further concrete inputs. *)
Module Samples.
(** Three by three grass tiles, nothing built. *)
Definition meadow : GridWorld :=
  Examples.flat 3 3 (replicate 9 (Examples.plainTile grass None)) []
                (replicate 9 grass).

(** The building that [placeHouse] adds at the middle of the meadow. *)
Definition cottage : BuildingRecord :=
  match addedBuilding (placeHouse Examples.pc0 meadow 1 1).1.1 with
  | Some b => b
  | None => Examples.hut "" 0 0 1 1
  end.
End Samples.

(* ===================================================================== *)
(** * Theorems *)
(* ===================================================================== *)

(** C10.  The constructor replaces a zero seed by [0x9e3779b9], so the
    generators built from the two distinct seeds [0] and [0x9e3779b9]
    produce the same value at every index of their output streams. *)
Theorem seed_zero_collides_with_golden (n : nat) :
  (0 <> 0x9e3779b9)%Z /\
  Rng.output (Rng.new 0) n = Rng.output (Rng.new 0x9e3779b9) n.
Proof.
  split; [discriminate|].
  assert (E : Rng.new 0 = Rng.new 0x9e3779b9) by reflexivity.
  now rewrite E.
Qed.

(* ===================================================================== *)
(** ** Tornado steps *)
(* ===================================================================== *)

Lemma Js_le_true a b : Js.le a b = true <-> a <= b.
Proof. unfold Js.le. apply Qle_bool_iff. Qed.
Lemma Js_le_false a b : Js.le a b = false <-> b < a.
Proof.
  unfold Js.le. split; intros E.
  - apply Qnot_le_lt. intros L. apply Qle_bool_iff in L. congruence.
  - destruct (Qle_bool a b) eqn:E'; [|done]. apply Qle_bool_iff in E'. lra.
Qed.
Lemma Js_lt_true a b : Js.lt a b = true <-> a < b.
Proof. unfold Js.lt. rewrite negb_true_iff. apply Js_le_false. Qed.
Lemma Js_lt_false a b : Js.lt a b = false <-> b <= a.
Proof. unfold Js.lt. rewrite negb_false_iff. apply Js_le_true. Qed.
Lemma Js_gt_true a b : Js.gt a b = true <-> b < a.
Proof. apply Js_lt_true. Qed.
Lemma Js_gt_false a b : Js.gt a b = false <-> a <= b.
Proof. apply Js_lt_false. Qed.

Lemma Js_max_cases a b : (b <= a /\ Js.max a b == a) \/ (a <= b /\ Js.max a b == b).
Proof.
  unfold Js.max. destruct (Qlt_le_dec a b).
  - right. split; [lra|]. apply Q.max_r. lra.
  - left. split; [lra|]. apply Q.max_l. lra.
Qed.
Lemma Js_min_cases a b : (a <= b /\ Js.min a b == a) \/ (b <= a /\ Js.min a b == b).
Proof.
  unfold Js.min. destruct (Qlt_le_dec a b).
  - left. split; [lra|]. apply Q.min_l. lra.
  - right. split; [lra|]. apply Q.min_r. lra.
Qed.

Lemma bounce_in_range half p v :
  0 <= half -> - half <= fst (bounce half p v) <= half.
Proof.
  intros Hh. unfold bounce.
  destruct (Js.lt p (- half)) eqn:E1; simpl.
  - destruct (Js_max_cases (- half) (Js.min half p)) as [[? ->]|[? ->]];
    destruct (Js_min_cases half p) as [[? E]|[? E]]; try rewrite E in *; lra.
  - apply Js_lt_false in E1. destruct (Js.gt p half) eqn:E2; simpl.
    + destruct (Js_max_cases (- half) (Js.min half p)) as [[? ->]|[? ->]];
      destruct (Js_min_cases half p) as [[? E]|[? E]]; try rewrite E in *; lra.
    + apply Js_gt_false in E2. lra.
Qed.

Section TornadoFacts.
Context `{JsMath}.

Lemma stepAll_cons hW hD dt t ts rnd :
  stepAll hW hD dt (t :: ts) rnd =
  let '(kept, results, rnd1) := stepAll hW hD dt ts rnd in
  match stepTornado hW hD dt t rnd1 with
  | (None, r) => (kept, results, r)
  | (Some t', r) => (t' :: kept, results ++ [viewOf t'], r)
  end.
Proof.
  unfold stepAll. simpl rev. rewrite fold_left_app. simpl.
  destruct (fold_left _ (rev ts) _) as [[kept results] rnd1]. reflexivity.
Qed.

Lemma stepTornado_None hW hD dt t rnd :
  expires dt t = true -> stepTornado hW hD dt t rnd = (None, rnd).
Proof. unfold stepTornado, expires. now intros ->. Qed.

Lemma stepTornado_Some hW hD dt t rnd :
  expires dt t = false ->
  exists t', stepTornado hW hD dt t rnd = (Some t', snd (Math_random rnd)) /\
    e_id t' = e_id t /\ radius t' = radius t /\ lifetime t' = lifetime t - dt /\
    let vel := rotateAroundOrigin (velocity t)
                 ((fst (Math_random rnd) * 2 - 1) * 0.6 * dt * 0.2) in
    (v_x (position t'), v_x (velocity t'))
      = bounce hW (v_x (position t) + v_x vel * dt) (v_x vel) /\
    (v_y (position t'), v_y (velocity t'))
      = bounce hD (v_y (position t) + v_y vel * dt) (v_y vel).
Proof.
  unfold stepTornado, expires. intros ->. unfold Math_random.
  cbv beta iota zeta. cbn [fst snd].
  destruct (bounce hW _ _) as [px vx] eqn:Ex.
  destruct (bounce hD _ _) as [py vy] eqn:Ey.
  eexists. split; [reflexivity|]. cbn [e_id radius lifetime position velocity v_x v_y].
  auto.
Qed.

Lemma stepAll_spec hW hD dt ts rnd :
  Forall2 (stepped hW hD dt) (List.filter (fun t => negb (expires dt t)) ts)
          (stepAll hW hD dt ts rnd).1.1 /\
  (stepAll hW hD dt ts rnd).1.2 = rev (map viewOf (stepAll hW hD dt ts rnd).1.1).
Proof.
  induction ts as [|t ts IH]; [split; constructor|].
  rewrite stepAll_cons. destruct (stepAll hW hD dt ts rnd) as [[kept results] rnd1].
  simpl in IH. destruct IH as [IH1 IH2].
  simpl List.filter. destruct (expires dt t) eqn:E.
  - rewrite (stepTornado_None _ _ _ _ _ E). simpl. auto.
  - destruct (stepTornado_Some hW hD dt t rnd1 E) as (t' & Et & _). rewrite Et. simpl.
    split; [constructor; [exists rnd1; exact Et|exact IH1]|]. now rewrite IH2.
Qed.

Lemma update_tornadoes ts g dt intensity allow rnd :
  exists spawned rnd1,
    TornadoSystem_update ts g dt intensity allow rnd =
      let s := stepAll (inject_Z (width g) * tileSize g / 2)
                       (inject_Z (depth g) * tileSize g / 2) dt
                       (tornadoes ts ++ spawned) rnd1 in
      (s.1.2,
       {| tornadoes := s.1.1;
          idCounter := (idCounter ts + Z.of_nat (length spawned))%Z |},
       s.2).
Proof.
  unfold TornadoSystem_update. cbv zeta.
  destruct allow.
  - unfold Math_random at 1. cbv beta iota.
    match goal with |- context [Js.lt ?a ?b] => destruct (Js.lt a b) end.
    + unfold spawnManual, createEntity, Math_random. cbv beta iota zeta.
      cbn [tornadoes idCounter fst snd].
      match goal with |- context [stepAll ?a ?b ?c (tornadoes ts ++ [?t]) ?e] =>
        exists [t], e; destruct (stepAll a b c (tornadoes ts ++ [t]) e) as [[k r] q] end.
      reflexivity.
    + exists [], (snd (Math_random rnd)). rewrite app_nil_r, Z.add_0_r.
      unfold Math_random. cbn [snd].
      match goal with |- context [stepAll ?a ?b ?c ?d ?e] =>
        destruct (stepAll a b c d e) as [[k r] q] end.
      reflexivity.
  - exists [], rnd. rewrite app_nil_r, Z.add_0_r.
    match goal with |- context [stepAll ?a ?b ?c ?d ?e] =>
      destruct (stepAll a b c d e) as [[k r] q] end.
    reflexivity.
Qed.

Lemma filter_alive_app dt (l1 l2 : list TornadoEntity) :
  List.filter (fun t => negb (expires dt t)) (l1 ++ l2) =
  List.filter (fun t => negb (expires dt t)) l1 ++ List.filter (fun t => negb (expires dt t)) l2.
Proof. apply List.filter_app. Qed.
End TornadoFacts.

Section TornadoBounds.
Context `{JsMath}.

Lemma half_nonneg (a : Q) : 0 <= a -> 0 <= a / 2.
Proof. intros. apply Qle_shift_div_l; lra. Qed.

Lemma bounce_reflects half p v :
  p < - half \/ half < p ->
  bounce half p v = (Js.max (- half) (Js.min half p), v * -1).
Proof.
  unfold bounce. intros [L|L].
  - apply Js_lt_true in L. now rewrite L.
  - apply Js_gt_true in L. rewrite L. now rewrite orb_true_r.
Qed.

Lemma bounce_keeps half p v :
  - half <= p <= half -> bounce half p v = (p, v).
Proof.
  unfold bounce. intros [L1 L2].
  apply Js_lt_false in L1. apply Js_gt_false in L2. now rewrite L1, L2.
Qed.

Lemma stepped_in_range hW hD dt t t' :
  0 <= hW -> 0 <= hD -> stepped hW hD dt t t' ->
  - hW <= v_x (position t') <= hW /\ - hD <= v_y (position t') <= hD.
Proof.
  intros HW HD [r Hs].
  destruct (expires dt t) eqn:E.
  - rewrite (stepTornado_None _ _ _ _ _ E) in Hs. discriminate.
  - destruct (stepTornado_Some hW hD dt t r E) as (t2 & E2 & _ & _ & _ & Ex & Ey).
    rewrite E2 in Hs. injection Hs as <-.
    pose proof (bounce_in_range hW (v_x (position t) + v_x (rotateAroundOrigin (velocity t) ((fst (Math_random r) * 2 - 1) * 0.6 * dt * 0.2)) * dt) (v_x (rotateAroundOrigin (velocity t) ((fst (Math_random r) * 2 - 1) * 0.6 * dt * 0.2))) HW) as Bx.
    pose proof (bounce_in_range hD (v_y (position t) + v_y (rotateAroundOrigin (velocity t) ((fst (Math_random r) * 2 - 1) * 0.6 * dt * 0.2)) * dt) (v_y (rotateAroundOrigin (velocity t) ((fst (Math_random r) * 2 - 1) * 0.6 * dt * 0.2))) HD) as By.
    cbv zeta in Ex, Ey. rewrite <- Ex in Bx. rewrite <- Ey in By. simpl in Bx, By. auto.
Qed.
End TornadoBounds.

(* ===================================================================== *)
(** ** The siren *)
(* ===================================================================== *)

Section SirenFacts.
Context `{JsMath}.

End SirenFacts.






Section SirenRun.
Context `{JsMath}.

Lemma scaleOf_pos s : 0 < scaleOf s.
Proof. destruct s; simpl; lra. Qed.



End SirenRun.

(* ===================================================================== *)
(** ** Containers *)
(* ===================================================================== *)

Section JsMapFacts.
Context {K V : Type} `{EqDecision K}.
Implicit Types (m : list (K * V)) (k : K) (v : V).

Lemma JsMap_get_set_eq m k v : JsMap.get (JsMap.set m k v) k = Some v.
Proof.
  induction m as [|[k' v'] m IH]; simpl.
  - now rewrite decide_True.
  - destruct (decide (k' = k)) as [->|N]; simpl.
    + now rewrite decide_True.
    + now rewrite decide_False.
Qed.

Lemma JsMap_get_set_ne m k k' v : k' <> k -> JsMap.get (JsMap.set m k v) k' = JsMap.get m k'.
Proof.
  intros N. induction m as [|[k0 v0] m IH]; simpl.
  - rewrite decide_False; [done|]. congruence.
  - destruct (decide (k0 = k)) as [->|N0]; simpl.
    + rewrite !decide_False; [done| |]; congruence.
    + destruct (decide (k0 = k')); [done|]. exact IH.
Qed.

Lemma JsMap_get_delete_eq m k : JsMap.get (JsMap.delete m k) k = None.
Proof.
  induction m as [|[k' v'] m IH]; simpl; [done|].
  destruct (decide (k' = k)); simpl; [done|]. now rewrite decide_False.
Qed.

Lemma JsMap_get_delete_ne m k k' : k' <> k -> JsMap.get (JsMap.delete m k) k' = JsMap.get m k'.
Proof.
  intros N. induction m as [|[k0 v0] m IH]; simpl; [done|].
  destruct (decide (k0 = k)) as [->|N0]; simpl.
  - rewrite decide_False; [done|]. congruence.
  - destruct (decide (k0 = k')); [done|]. exact IH.
Qed.

Lemma JsMap_get_None m k : JsMap.get m k = None <-> k ∉ JsMap.keys m.
Proof.
  induction m as [|[k' v'] m IH]; simpl.
  - split; [intros _; apply not_elem_of_nil|done].
  - rewrite not_elem_of_cons. destruct (decide (k' = k)) as [->|N].
    + split; [done|]. intros [? _]. done.
    + rewrite IH. split; [intros ?; split; [congruence|done]|tauto].
Qed.

Lemma JsMap_get_elem m k v : JsMap.get m k = Some v -> (k, v) ∈ m.
Proof.
  induction m as [|[k' v'] m IH]; simpl; [done|].
  destruct (decide (k' = k)) as [->|N].
  - intros [= ->]. apply elem_of_cons. now left.
  - intros E. apply elem_of_cons. right. now apply IH.
Qed.

Lemma JsMap_elem_get m k v : NoDup (JsMap.keys m) -> (k, v) ∈ m -> JsMap.get m k = Some v.
Proof.
  induction m as [|[k' v'] m IH]; simpl; intros ND E.
  - now apply elem_of_nil in E.
  - apply NoDup_cons in ND. destruct ND as [Nk ND]. apply elem_of_cons in E.
    destruct E as [[= -> ->]|E].
    + now rewrite decide_True.
    + destruct (decide (k' = k)) as [->|N].
      * exfalso. apply Nk. apply list_elem_of_fmap. exists (k, v). split; [done|exact E].
      * now apply IH.
Qed.

Lemma JsMap_set_fresh m k v : k ∉ JsMap.keys m -> JsMap.set m k v = m ++ [(k, v)].
Proof.
  induction m as [|[k' v'] m IH]; simpl; [done|].
  rewrite not_elem_of_cons. intros [N1 N2].
  rewrite decide_False by congruence. now rewrite IH.
Qed.

Lemma JsMap_keys_set m k v :
  JsMap.keys (JsMap.set m k v) =
  if bool_decide (k ∈ JsMap.keys m) then JsMap.keys m else JsMap.keys m ++ [k].
Proof.
  induction m as [|[k' v'] m IH]; simpl; [done|].
  destruct (decide (k' = k)) as [->|N]; simpl.
  - rewrite bool_decide_eq_true_2; [done|]. apply elem_of_cons. now left.
  - rewrite IH. destruct (bool_decide (k ∈ JsMap.keys m)) eqn:E.
    + apply bool_decide_eq_true in E. rewrite bool_decide_eq_true_2; [done|].
      apply elem_of_cons. now right.
    + apply bool_decide_eq_false in E. rewrite bool_decide_eq_false_2; [done|].
      rewrite not_elem_of_cons. split; [congruence|done].
Qed.

Lemma JsMap_NoDup_set m k v : NoDup (JsMap.keys m) -> NoDup (JsMap.keys (JsMap.set m k v)).
Proof.
  intros ND. rewrite JsMap_keys_set. destruct (bool_decide (k ∈ JsMap.keys m)) eqn:E; [done|].
  apply bool_decide_eq_false in E. apply NoDup_app. split; [done|]. split.
  - intros x Hx Hx'. apply list_elem_of_singleton in Hx'. now subst.
  - apply NoDup_singleton.
Qed.

Lemma JsMap_elem_delete m k k' v' :
  (k', v') ∈ JsMap.delete m k <-> k' <> k /\ (k', v') ∈ m.
Proof.
  induction m as [|[k0 v0] m IH]; simpl.
  - split; [intros E; now apply elem_of_nil in E|intros [_ E]; now apply elem_of_nil in E].
  - destruct (decide (k0 = k)) as [->|N].
    + rewrite IH, elem_of_cons. split; [tauto|]. intros [N' [[= -> ->]|E]]; [done|tauto].
    + rewrite !elem_of_cons, IH. split.
      * intros [[= -> ->]|[? ?]]; [split; [congruence|now left]|tauto].
      * intros [N' [E|E]]; [now left|right; tauto].
Qed.

Lemma JsMap_NoDup_delete m k : NoDup (JsMap.keys m) -> NoDup (JsMap.keys (JsMap.delete m k)).
Proof.
  induction m as [|[k0 v0] m IH]; simpl; [done|].
  intros ND. apply NoDup_cons in ND. destruct ND as [Nk ND].
  destruct (decide (k0 = k)); [now apply IH|]. simpl. apply NoDup_cons. split; [|now apply IH].
  intros E. apply Nk. apply list_elem_of_fmap in E. destruct E as ([k1 v1] & -> & E).
  apply JsMap_elem_delete in E. apply list_elem_of_fmap. exists (k1, v1). tauto.
Qed.

Lemma JsMap_elem_set m k v k' v' :
  (k', v') ∈ JsMap.set m k v -> (k' = k /\ v' = v) \/ (k', v') ∈ m.
Proof.
  induction m as [|[k0 v0] m IH]; simpl.
  - intros E. apply list_elem_of_singleton in E. injection E as -> ->. now left.
  - destruct (decide (k0 = k)) as [->|N]; intros E; apply elem_of_cons in E.
    + destruct E as [[= -> ->]|E]; [now left|]. right. apply elem_of_cons. now right.
    + destruct E as [[= -> ->]|E]; [right; apply elem_of_cons; now left|].
      destruct (IH E) as [?|?]; [now left|]. right. apply elem_of_cons. now right.
Qed.

Lemma JsMap_has_true m k : JsMap.has m k = true <-> k ∈ JsMap.keys m.
Proof.
  unfold JsMap.has. destruct (JsMap.get m k) eqn:E.
  - split; [|done]. intros _. destruct (decide (k ∈ JsMap.keys m)) as [?|N]; [done|].
    apply JsMap_get_None in N. congruence.
  - apply JsMap_get_None in E. split; [done|]. intros ?. done.
Qed.
End JsMapFacts.

Lemma JsSet_elem_add {K} `{EqDecision K} (s : list K) (k x : K) :
  x ∈ JsSet.add s k <-> x ∈ s \/ x = k.
Proof.
  unfold JsSet.add, JsSet.has. destruct (bool_decide (k ∈ s)) eqn:E.
  - apply bool_decide_eq_true in E. split; [tauto|]. intros [? | ->]; done.
  - rewrite elem_of_app, list_elem_of_singleton. tauto.
Qed.

(* ===================================================================== *)
(** ** The grid: tiles, reverse index and the tile invariant *)
(* ===================================================================== *)

Lemma lookup_map {A B} (f : A -> B) (l : list A) (j : nat) :
  map f l !! j = f <$> (l !! j).
Proof. exact (list_lookup_fmap f l j). Qed.

Ltac lookup_map_in H :=
  repeat match type of H with
         | context [map ?f ?l !! ?j] => rewrite (lookup_map f l j) in H
         end.

Ltac lookup_map :=
  repeat match goal with
         | |- context [map ?f ?l !! ?j] => rewrite (lookup_map f l j)
         end.

Lemma truthy_Some s : Js.truthy (Some s) = true <-> s <> EmptyString.
Proof.
  simpl. rewrite negb_true_iff. split.
  - intros E ->. now rewrite String.eqb_refl in E.
  - intros N. apply String.eqb_neq. exact N.
Qed.

Lemma truthy_false_Some s : Js.truthy (Some s) = false <-> s = EmptyString.
Proof.
  simpl. rewrite negb_false_iff. apply String.eqb_eq.
Qed.

Lemma inBounds_true g x z :
  inBounds g x z = true <-> (0 <= x < width g)%Z /\ (0 <= z < depth g)%Z.
Proof. unfold inBounds. rewrite !andb_true_iff. lia. Qed.

Lemma index_nonneg g x z : inBounds g x z = true -> (0 <= index g x z)%Z.
Proof. rewrite inBounds_true. unfold index. nia. Qed.

Lemma tiles_update_tile g i f :
  (0 <= i)%Z -> tiles (update_tile g i f) = alter f (Z.to_nat i) (tiles g).
Proof. intros Hi. unfold update_tile. destruct (Z.ltb_spec i 0); [lia|reflexivity]. Qed.

Lemma update_tile_frame g i f :
  treeByTile (update_tile g i f) = treeByTile g /\
  trees (update_tile g i f) = trees g /\
  buildings (update_tile g i f) = buildings g /\
  width (update_tile g i f) = width g /\
  depth (update_tile g i f) = depth g /\
  baseTileTypes (update_tile g i f) = baseTileTypes g.
Proof. unfold update_tile. destruct (i <? 0)%Z; repeat split; reflexivity. Qed.

Lemma getTile_Some g x z t :
  getTile g x z = Some t ->
  inBounds g x z = true /\ tiles g !! Z.to_nat (index g x z) = Some t.
Proof.
  unfold getTile, tileAt. destruct (inBounds g x z) eqn:B; simpl; [|discriminate].
  pose proof (index_nonneg g x z B). destruct (Z.ltb_spec (index g x z) 0); [lia|]. auto.
Qed.

Lemma getTile_lookup g x z :
  inBounds g x z = true -> getTile g x z = tiles g !! Z.to_nat (index g x z).
Proof.
  intros B. unfold getTile, tileAt. rewrite B. simpl.
  pose proof (index_nonneg g x z B). destruct (Z.ltb_spec (index g x z) 0); [lia|]. auto.
Qed.

Lemma tileOk_blank ty h : tileOk {| type := ty; height := h; occupantId := None; treeId := None |}.
Proof. split; simpl; intros N; now destruct N. Qed.

Lemma gridInv_update_tile g i f :
  gridInv g ->
  (forall t, tiles g !! Z.to_nat i = Some t -> tileOk (f t) /\ treeId (f t) = treeId t) ->
  gridInv (update_tile g i f).
Proof.
  intros (I1 & I2 & I3) Hf. unfold update_tile. destruct (Z.ltb_spec i 0); [done|].
  split; [|split].
  - simpl. apply Forall_lookup. intros j t Hj.
    rewrite Forall_lookup in I1.
    destruct (decide (Z.to_nat i = j)) as [<-|N].
    + rewrite list_lookup_alter_eq in Hj.
      destruct (tiles g !! Z.to_nat i) as [t0|] eqn:E; [|discriminate].
      injection Hj as <-. now apply Hf.
    + rewrite list_lookup_alter_ne in Hj by done. eauto.
  - intros j t Hj. simpl in *.
    destruct (decide (Z.to_nat i = j)) as [<-|N].
    + rewrite list_lookup_alter_eq in Hj.
      destruct (tiles g !! Z.to_nat i) as [t0|] eqn:E; [|discriminate].
      injection Hj as <-. destruct (Hf t0 eq_refl) as [_ ->]. now apply I2.
    + rewrite list_lookup_alter_ne in Hj by done. now apply I2.
  - exact I3.
Qed.

(** The outcomes of [removeTreeAt]. *)
Lemma removeTreeAt_cases g x z :
  (removeTreeAt g x z = (false, g) /\
   (inBounds g x z = false \/
    JsMap.get (treeByTile g) (index g x z) = None \/
    JsMap.get (treeByTile g) (index g x z) = Some EmptyString)) \/
  exists tid,
    inBounds g x z = true /\
    JsMap.get (treeByTile g) (index g x z) = Some tid /\ tid <> EmptyString /\
    removeTreeAt g x z =
      (true,
       update_tile
         (set_trees (JsMap.delete (trees g) tid)
            (set_treeByTile (JsMap.delete (treeByTile g) (index g x z)) g))
         (index g x z) (set_treeId None)).
Proof.
  unfold removeTreeAt. destruct (inBounds g x z) eqn:B; simpl; [|left; auto].
  destruct (JsMap.get (treeByTile g) (index g x z)) as [tid|] eqn:E; [|left; auto].
  destruct (String.eqb tid "") eqn:S; simpl.
  - apply String.eqb_eq in S. subst. left; auto.
  - right. exists tid. repeat split; try done. now apply String.eqb_neq.
Qed.

Lemma gridInv_removeTreeAt g x z :
  gridInv g ->
  gridInv (removeTreeAt g x z).2 /\
  (inBounds g x z = true ->
   forall t, tiles (removeTreeAt g x z).2 !! Z.to_nat (index g x z) = Some t ->
             treeId t = None).
Proof.
  intros Inv.
  destruct (removeTreeAt_cases g x z) as [[-> C]|(tid & B & G & N & ->)]; simpl.
  - split; [done|]. intros B t Ht. destruct Inv as (I1 & I2 & I3).
    rewrite (I2 _ _ Ht). rewrite Z2Nat.id by now apply index_nonneg.
    destruct C as [C|[C|C]]; [congruence|done|]. now apply I3 in C.
  - pose proof (index_nonneg g x z B) as Hi.
    destruct Inv as (I1 & I2 & I3). split.
    + split; [|split].
      * rewrite tiles_update_tile by done. simpl.
        apply Forall_lookup. intros j t Hj. rewrite Forall_lookup in I1.
        destruct (decide (Z.to_nat (index g x z) = j)) as [<-|Nj].
        -- rewrite list_lookup_alter_eq in Hj.
           destruct (tiles g !! Z.to_nat (index g x z)) as [t0|] eqn:E; [|discriminate].
           injection Hj as <-. destruct (I1 _ _ E) as [O T].
           split; simpl; [exact O|done].
        -- rewrite list_lookup_alter_ne in Hj by done. eauto.
      * intros j t Hj. rewrite tiles_update_tile in Hj by done.
        destruct (update_tile_frame
                    (set_trees (JsMap.delete (trees g) tid)
                       (set_treeByTile (JsMap.delete (treeByTile g) (index g x z)) g))
                    (index g x z) (set_treeId None)) as (-> & _). simpl in *.
        destruct (decide (Z.to_nat (index g x z) = j)) as [<-|Nj].
        -- rewrite list_lookup_alter_eq in Hj.
           destruct (tiles g !! Z.to_nat (index g x z)) as [t0|] eqn:E; [|discriminate].
           injection Hj as <-. simpl. rewrite Z2Nat.id by done.
           now rewrite JsMap_get_delete_eq.
        -- rewrite list_lookup_alter_ne in Hj by done.
           rewrite JsMap_get_delete_ne by lia. now apply I2.
      * intros i tid'.
        destruct (update_tile_frame
                    (set_trees (JsMap.delete (trees g) tid)
                       (set_treeByTile (JsMap.delete (treeByTile g) (index g x z)) g))
                    (index g x z) (set_treeId None)) as (-> & _). simpl.
        destruct (decide (i = index g x z)) as [->|Ni].
        -- now rewrite JsMap_get_delete_eq.
        -- rewrite JsMap_get_delete_ne by done. apply I3.
    + intros _ t Ht. rewrite tiles_update_tile in Ht by done. simpl in Ht.
      rewrite list_lookup_alter_eq in Ht.
      destruct (tiles g !! Z.to_nat (index g x z)); [|discriminate].
      now injection Ht as <-.
Qed.

Lemma removeTreeAt_frame g x z :
  width (removeTreeAt g x z).2 = width g /\
  depth (removeTreeAt g x z).2 = depth g /\
  buildings (removeTreeAt g x z).2 = buildings g /\
  baseTileTypes (removeTreeAt g x z).2 = baseTileTypes g /\
  map type (tiles (removeTreeAt g x z).2) = map type (tiles g) /\
  map occupantId (tiles (removeTreeAt g x z).2) = map occupantId (tiles g).
Proof.
  destruct (removeTreeAt_cases g x z) as [[-> C]|(tid & B & G & N & ->)]; simpl; [done|].
  pose proof (index_nonneg g x z B) as Hi.
  unfold update_tile. destruct (Z.ltb_spec (index g x z) 0); [lia|]. simpl.
  repeat split; try reflexivity.
  - apply list_eq. intros j. rewrite !list_lookup_fmap.
    destruct (decide (Z.to_nat (index g x z) = j)) as [<-|Nj].
    + rewrite list_lookup_alter_eq. now destruct (tiles g !! _).
    + now rewrite list_lookup_alter_ne.
  - apply list_eq. intros j. rewrite !list_lookup_fmap.
    destruct (decide (Z.to_nat (index g x z) = j)) as [<-|Nj].
    + rewrite list_lookup_alter_eq. now destruct (tiles g !! _).
    + now rewrite list_lookup_alter_ne.
Qed.

(** The outcome of [addTree]: nothing, or the tree is put on an
    unoccupied grass tile after the eviction of the tree that stood
    there. *)
Lemma addTree_cases g tree :
  addTree g tree = g \/
  exists tile trees0,
    inBounds g (t_x tree) (t_z tree) = true /\
    tiles g !! Z.to_nat (index g (t_x tree) (t_z tree)) = Some tile /\
    type tile = grass /\ Js.truthy (occupantId tile) = false /\
    (((JsMap.get (treeByTile g) (index g (t_x tree) (t_z tree)) = None \/
       JsMap.get (treeByTile g) (index g (t_x tree) (t_z tree)) = Some EmptyString) /\
      trees0 = trees g) \/
     exists e, JsMap.get (treeByTile g) (index g (t_x tree) (t_z tree)) = Some e /\
               e <> EmptyString /\ trees0 = JsMap.delete (trees g) e) /\
    tiles (addTree g tree) =
      alter (set_treeId (Some (t_id tree)))
            (Z.to_nat (index g (t_x tree) (t_z tree))) (tiles g) /\
    (forall i, JsMap.get (treeByTile (addTree g tree)) i =
               if decide (i = index g (t_x tree) (t_z tree)) then Some (t_id tree)
               else JsMap.get (treeByTile g) i) /\
    trees (addTree g tree) = JsMap.set trees0 (t_id tree) tree /\
    buildings (addTree g tree) = buildings g /\
    width (addTree g tree) = width g /\ depth (addTree g tree) = depth g /\
    baseTileTypes (addTree g tree) = baseTileTypes g.
Proof.
  unfold addTree. destruct (inBounds g (t_x tree) (t_z tree)) eqn:B; simpl; [|now left].
  destruct (getTile g (t_x tree) (t_z tree)) as [tile|] eqn:GT; [|now left].
  apply getTile_Some in GT. destruct GT as [_ GT].
  destruct (bool_decide (type tile = grass)) eqn:Ty; simpl; [|now left].
  apply bool_decide_eq_true in Ty.
  destruct (Js.truthy (occupantId tile)) eqn:Oc; [now left|].
  pose proof (index_nonneg g _ _ B) as Hi.
  right. exists tile.
  set (idx := index g (t_x tree) (t_z tree)) in *.
  assert (A : forall (m : list (Z * string)) i,
             JsMap.get (JsMap.set (JsMap.delete m idx) idx (t_id tree)) i =
             if decide (i = idx) then Some (t_id tree) else JsMap.get m i).
  { intros m i. destruct (decide (i = idx)) as [->|N].
    - apply JsMap_get_set_eq.
    - rewrite JsMap_get_set_ne by done. now apply JsMap_get_delete_ne. }
  assert (A' : forall (m : list (Z * string)) i,
             JsMap.get (JsMap.set m idx (t_id tree)) i =
             if decide (i = idx) then Some (t_id tree) else JsMap.get m i).
  { intros m i. destruct (decide (i = idx)) as [->|N].
    - apply JsMap_get_set_eq.
    - now rewrite JsMap_get_set_ne by done. }
  destruct (JsMap.get (treeByTile g) idx) as [e|] eqn:E.
  - unfold Js.truthy. destruct (String.eqb e "") eqn:Te; simpl negb; cbv iota.
    + exists (trees g). unfold update_tile. destruct (Z.ltb_spec idx 0); [lia|]. simpl.
      apply String.eqb_eq in Te. subst e.
      repeat split; try done. left. split; [now right|done].
    + exists (JsMap.delete (trees g) e). apply String.eqb_neq in Te.
      unfold update_tile. destruct (Z.ltb_spec idx 0); [lia|]. simpl.
      repeat split; try done. right. exists e. auto.
  - exists (trees g). unfold update_tile. destruct (Z.ltb_spec idx 0); [lia|]. simpl.
    repeat split; try done. left. split; [now left|done].
Qed.

Lemma gridInv_addTree g tree :
  gridInv g -> t_id tree <> EmptyString -> gridInv (addTree g tree).
Proof.
  intros (I1 & I2 & I3) N.
  destruct (addTree_cases g tree)
    as [->|(tile & trees0 & B & GT & Ty & Oc & _ & Et & Eg & _)]; [done|].
  pose proof (index_nonneg g _ _ B) as Hi.
  split; [|split].
  - rewrite Et. apply Forall_lookup. intros j t Hj. rewrite Forall_lookup in I1.
    destruct (decide (Z.to_nat (index g (t_x tree) (t_z tree)) = j)) as [<-|Nj].
    + rewrite list_lookup_alter_eq, GT in Hj. injection Hj as <-.
      destruct (I1 _ _ GT) as [O T]. split; simpl; [exact O|].
      intros _. split; [done|]. destruct (occupantId tile) as [o|] eqn:Eo; [|done].
      specialize (O ltac:(done)). congruence.
    + rewrite list_lookup_alter_ne in Hj by done. eauto.
  - intros j t Hj. rewrite Et in Hj. rewrite Eg.
    destruct (decide (Z.to_nat (index g (t_x tree) (t_z tree)) = j)) as [<-|Nj].
    + rewrite list_lookup_alter_eq, GT in Hj. injection Hj as <-. simpl.
      rewrite Z2Nat.id by done. now rewrite decide_True.
    + rewrite list_lookup_alter_ne in Hj by done. rewrite decide_False by lia. now apply I2.
  - intros i tid. rewrite Eg. destruct (decide (i = index g (t_x tree) (t_z tree))).
    + intros [= <-]. exact N.
    + apply I3.
Qed.

Lemma addTree_types g tree :
  map type (tiles (addTree g tree)) = map type (tiles g) /\
  map occupantId (tiles (addTree g tree)) = map occupantId (tiles g).
Proof.
  destruct (addTree_cases g tree)
    as [->|(tile & trees0 & B & GT & Ty & Oc & _ & Et & Eg & _)]; [done|].
  rewrite Et. split; apply list_eq; intros j; rewrite !list_lookup_fmap;
    (destruct (decide (Z.to_nat (index g (t_x tree) (t_z tree)) = j)) as [<-|Nj];
     [rewrite list_lookup_alter_eq; now destruct (tiles g !! _)
     |now rewrite list_lookup_alter_ne]).
Qed.

Lemma gridInv_clearTrees g : Forall tileOk (tiles g) -> gridInv (clearTrees g).
Proof.
  intros I1. unfold gridInv, treeSync, treeIdsTruthy. simpl. split; [|split].
  - apply Forall_lookup. intros j t Hj. lookup_map_in Hj.
    destruct (tiles g !! j) as [t0|] eqn:E; [|discriminate]. injection Hj as <-.
    rewrite Forall_lookup in I1. destruct (I1 _ _ E) as [O _]. split; simpl; [exact O|done].
  - intros j t Hj. lookup_map_in Hj.
    destruct (tiles g !! j) as [t0|] eqn:E; [|discriminate]. now injection Hj as <-.
  - intros i tid E. cbn in E. discriminate.
Qed.

Lemma gridInv_clearOccupant g b : gridInv g -> gridInv (clearOccupant g b).
Proof.
  intros (I1 & I2 & I3). unfold gridInv, treeSync, treeIdsTruthy in *. simpl. split; [|split].
  - apply Forall_lookup. intros j t Hj. lookup_map_in Hj.
    destruct (tiles g !! j) as [t0|] eqn:E; [|discriminate]. injection Hj as <-.
    rewrite Forall_lookup in I1. pose proof (I1 _ _ E) as [O T].
    destruct (bool_decide (occupantId t0 = Some b)) eqn:Eb; [|done].
    apply bool_decide_eq_true in Eb. simpl.
    assert (Tr : treeId t0 = None).
    { destruct (treeId t0) eqn:Et; [|done]. destruct T as [_ T]; [done|congruence]. }
    destruct (bool_decide (type t0 = foundation)); split; simpl; try done;
      rewrite Tr; done.
  - intros j t Hj. lookup_map_in Hj.
    destruct (tiles g !! j) as [t0|] eqn:E; [|discriminate]. injection Hj as <-.
    rewrite <- (I2 _ _ E).
    destruct (bool_decide (occupantId t0 = Some b)); [|done]. simpl.
    now destruct (bool_decide (type t0 = foundation)).
  - exact I3.
Qed.

(** The state after the tiles were given fresh types and the registries
    were emptied. *)
Lemma gridInv_blank g (f : nat -> Tile -> TileType) :
  gridInv (clearTrees (set_tiles
             (imap (fun i tile => set_treeId None (set_occupantId None (set_type (f i tile) tile)))
                   (tiles g)) g)).
Proof.
  apply gridInv_clearTrees. simpl. apply Forall_lookup. intros j t Hj.
  rewrite list_lookup_imap in Hj. destruct (tiles g !! j); [|discriminate].
  injection Hj as <-. apply tileOk_blank.
Qed.

(* ===================================================================== *)
(** ** Operations keep the terrain and the invariant *)
(* ===================================================================== *)

Lemma fold_left_preserves {A B} (P : A -> Prop) (f : A -> B -> A) (l : list B) (a : A) :
  P a -> (forall a x, P a -> x ∈ l -> P (f a x)) -> P (fold_left f l a).
Proof.
  revert a. induction l as [|x l IH]; intros a Pa Hf; simpl; [done|].
  apply IH.
  - apply Hf; [done|]. apply elem_of_cons. now left.
  - intros a' x' Pa' Hx'. apply Hf; [done|]. apply elem_of_cons. now right.
Qed.

Lemma sameTerrain_refl g : sameTerrain g g.
Proof. repeat split. Qed.

Lemma sameTerrain_trans g1 g2 g3 :
  sameTerrain g1 g2 -> sameTerrain g2 g3 -> sameTerrain g1 g3.
Proof.
  unfold sameTerrain. intros H1 H2.
  destruct H1 as (?&?&?&?&?&?&?&?&?&?&?&?&?), H2 as (?&?&?&?&?&?&?&?&?&?&?&?&?).
  repeat split; congruence.
Qed.

Lemma sameTerrain_update_tile g i f : sameTerrain g (update_tile g i f).
Proof. unfold update_tile. destruct (i <? 0)%Z; repeat split. Qed.

Lemma sameTerrain_removeTreeAt g x z : sameTerrain g (removeTreeAt g x z).2.
Proof.
  destruct (removeTreeAt_cases g x z) as [[-> C]|(tid & B & G & N & ->)]; simpl.
  - apply sameTerrain_refl.
  - eapply sameTerrain_trans; [|apply sameTerrain_update_tile]. repeat split.
Qed.

Lemma sameTerrain_addTree g tree : sameTerrain g (addTree g tree).
Proof.
  unfold addTree. destruct (inBounds _ _ _); simpl; [|apply sameTerrain_refl].
  destruct (getTile _ _ _); [|apply sameTerrain_refl].
  destruct (_ || _); [apply sameTerrain_refl|].
  match goal with
  | |- sameTerrain _ (set_trees _ (set_treeByTile _ (update_tile ?g1 ?i ?f))) =>
      eapply (sameTerrain_trans g g1);
      [|eapply (sameTerrain_trans _ (update_tile g1 i f));
        [apply sameTerrain_update_tile|repeat split]]
  end.
  destruct (JsMap.get _ _); [|apply sameTerrain_refl].
  match goal with |- context [if ?c then _ else _] => destruct c end;
    [repeat split|apply sameTerrain_refl].
Qed.

Lemma sameTerrain_clearTrees g : sameTerrain g (clearTrees g).
Proof. repeat split. Qed.

Lemma sameTerrain_clearOccupant g b : sameTerrain g (clearOccupant g b).
Proof. repeat split. Qed.

Lemma worldInv_intro g g' :
  worldInv g -> sameTerrain g g' -> gridInv g' -> worldInv g'.
Proof.
  intros [_ B] T I. split; [done|].
  destruct T as (?&?&?&?&?&?&->&?). exact B.
Qed.

Ltac case_if :=
  match goal with
  | |- context [if ?c then _ else _] => destruct c eqn:?
  end.

Lemma gridInv_set_buildings g v : gridInv g -> gridInv (set_buildings v g).
Proof. intros I. exact I. Qed.

Lemma tree_id_truthy (x z : Z) : ("t-" ++ Js.decimal x ++ "-" ++ Js.decimal z)%string <> EmptyString.
Proof. discriminate. Qed.

Lemma building_id_truthy (n : Z) : ("b-" ++ Js.hex n)%string <> EmptyString.
Proof. discriminate. Qed.

Section GridOps.
Context `{JsMath}.

Lemma generateTreeAt_keeps st xz :
  gridInv st.1 ->
  gridInv (generateTreeAt st xz).1 /\ sameTerrain st.1 (generateTreeAt st xz).1.
Proof.
  destruct st as [g rng], xz as [x z]. simpl. intros I.
  unfold generateTreeAt.
  destruct (getTile g x z) as [tile|]; [|split; [done|apply sameTerrain_refl]].
  unfold Rng.range, Rng.next. cbv zeta beta iota.
  repeat case_if; simpl; try (split; [done|apply sameTerrain_refl]).
  split; [|apply sameTerrain_addTree].
  apply gridInv_addTree; [done|apply tree_id_truthy].
Qed.

Lemma generateTrees_keeps g :
  Forall tileOk (tiles g) ->
  gridInv (generateTrees g) /\ sameTerrain g (generateTrees g).
Proof.
  intros I. unfold generateTrees.
  apply (fold_left_preserves
           (fun st => gridInv st.1 /\ sameTerrain g st.1) generateTreeAt).
  - simpl. split; [now apply gridInv_clearTrees|apply sameTerrain_clearTrees].
  - intros st xz [I' T'] _. destruct (generateTreeAt_keeps st xz I') as [I2 T2].
    split; [done|]. eapply sameTerrain_trans; eassumption.
Qed.

Lemma restoreTile_keeps b g dxz :
  gridInv g ->
  gridInv (restoreTile b g dxz) /\ sameTerrain g (restoreTile b g dxz).
Proof.
  destruct dxz as [dx dz]. intros I. unfold restoreTile. cbv zeta.
  destruct (inBounds g (originX b + dx) (originZ b + dz)) eqn:B; cbn [negb];
    [|split; [done|apply sameTerrain_refl]].
  destruct (gridInv_removeTreeAt g (originX b + dx) (originZ b + dz) I) as [I2 N2].
  pose proof (sameTerrain_removeTreeAt g (originX b + dx) (originZ b + dz)) as T2.
  set (g2 := (removeTreeAt g (originX b + dx) (originZ b + dz)).2) in *.
  assert (Ei : index g2 (originX b + dx) (originZ b + dz)
               = index g (originX b + dx) (originZ b + dz)).
  { unfold index. destruct T2 as (-> & _). reflexivity. }
  split.
  - apply gridInv_update_tile; [done|]. intros t Ht. rewrite Ei in Ht.
    pose proof (N2 B t Ht) as Nt.
    split; [split; simpl; [done|rewrite Nt; done]|reflexivity].
  - eapply sameTerrain_trans; [exact T2|]. apply sameTerrain_update_tile.
Qed.

Lemma restoreBuilding_keeps g b :
  gridInv g -> gridInv (restoreBuilding g b) /\ sameTerrain g (restoreBuilding g b).
Proof.
  intros I. unfold restoreBuilding.
  apply (fold_left_preserves (fun g' => gridInv g' /\ sameTerrain g g')).
  - split; [done|repeat split].
  - intros g' dxz [I' T'] _. destruct (restoreTile_keeps b g' dxz I') as [? ?].
    split; [done|]. eapply sameTerrain_trans; eassumption.
Qed.

Lemma claimTile_keeps b g dxz :
  gridInv g ->
  gridInv (claimTile b g dxz) /\ sameTerrain g (claimTile b g dxz).
Proof.
  destruct dxz as [dx dz]. intros I. unfold claimTile. cbv zeta.
  destruct (getTile g (originX b + dx) (originZ b + dz)) as [t0|] eqn:GT;
    [|split; [done|apply sameTerrain_refl]].
  apply getTile_Some in GT. destruct GT as [B _].
  destruct (gridInv_removeTreeAt g (originX b + dx) (originZ b + dz) I) as [I2 N2].
  pose proof (sameTerrain_removeTreeAt g (originX b + dx) (originZ b + dz)) as T2.
  set (g2 := (removeTreeAt g (originX b + dx) (originZ b + dz)).2) in *.
  assert (Ei : index g2 (originX b + dx) (originZ b + dz)
               = index g (originX b + dx) (originZ b + dz)).
  { unfold index. destruct T2 as (-> & _). reflexivity. }
  split.
  - apply gridInv_update_tile; [done|]. intros t Ht. rewrite Ei in Ht.
    pose proof (N2 B t Ht) as Nt.
    split; [split; simpl; [done|rewrite Nt; done]|reflexivity].
  - eapply sameTerrain_trans; [exact T2|]. apply sameTerrain_update_tile.
Qed.

Lemma claimFootprint_keeps g b :
  gridInv g -> gridInv (claimFootprint g b) /\ sameTerrain g (claimFootprint g b).
Proof.
  intros I. unfold claimFootprint.
  apply (fold_left_preserves (fun g' => gridInv g' /\ sameTerrain g g')).
  - split; [done|repeat split].
  - intros g' dxz [I' T'] _. destruct (claimTile_keeps b g' dxz I') as [? ?].
    split; [done|]. eapply sameTerrain_trans; eassumption.
Qed.

Lemma addTrees_keeps (l : list TreeRecord) g :
  gridInv g -> Forall (fun t => t_id t <> EmptyString) l ->
  gridInv (fold_left (fun g tree => addTree g (cloneTree tree)) l g) /\
  sameTerrain g (fold_left (fun g tree => addTree g (cloneTree tree)) l g).
Proof.
  intros I F.
  apply (fold_left_preserves (fun g' => gridInv g' /\ sameTerrain g g')).
  - split; [done|apply sameTerrain_refl].
  - intros g' t [I' T'] Ht. rewrite Forall_forall in F. split.
    + apply gridInv_addTree; [done|]. simpl. now apply F.
    + eapply sameTerrain_trans; [exact T'|apply sameTerrain_addTree].
Qed.

Lemma gridInv_blankGrid g : blankGrid g -> gridInv g.
Proof.
  intros [E F]. rewrite Forall_lookup in F. split; [|split].
  - apply Forall_lookup. intros j t Hj. destruct (F _ _ Hj) as [O T].
    split; intros N; congruence.
  - intros j t Hj. rewrite E. simpl. now destruct (F _ _ Hj).
  - intros i tid. rewrite E. discriminate.
Qed.

Lemma blankGrid_repairWater g : blankGrid g -> blankGrid (repairWater g).
Proof.
  intros [E F]. split; [exact E|]. simpl. rewrite Forall_lookup in *.
  intros j t Hj. rewrite list_lookup_imap in Hj.
  destruct (tiles g !! j) as [t0|] eqn:E0; [|discriminate]. injection Hj as <-.
  case_if; simpl; eauto.
Qed.

Lemma applySnapshot_keeps g s :
  gridInv g -> snapshotTreeIdsTruthy s ->
  gridInv (applySnapshot g s) /\ sameTerrain g (applySnapshot g s).
Proof.
  intros I S. unfold applySnapshot.
  case_if; [split; [done|apply sameTerrain_refl]|].
  match goal with
  | |- context [fold_left restoreBuilding _ ?g0] => set (g3 := g0)
  end.
  assert (K : gridInv g3 /\ sameTerrain g g3).
  { subst g3.
    match goal with
    | |- context [if negb ?c then repairWater ?g1 else _] => set (g1' := g1); set (c' := c)
    end.
    assert (B1 : blankGrid g1').
    { subst g1'. split; [done|]. simpl. apply Forall_lookup. intros j t Hj.
      rewrite list_lookup_imap in Hj. lookup_map_in Hj.
      destruct (tiles g !! j); [|discriminate]. now injection Hj as <-. }
    assert (B2 : blankGrid (if negb c' then repairWater g1' else g1')
                 /\ sameTerrain g (if negb c' then repairWater g1' else g1')).
    { destruct (negb c'); (split; [|repeat split]); [now apply blankGrid_repairWater|done]. }
    destruct B2 as [B2 T2]. apply gridInv_blankGrid in B2.
    unfold snapshotTreeIdsTruthy in S.
    destruct (s_trees s) as [[|tree rest]|].
    - destruct (generateTrees_keeps _ ltac:(exact (proj1 B2))) as [? ?].
      split; [done|]. eapply sameTerrain_trans; eassumption.
    - destruct (addTrees_keeps (tree :: rest) _ B2 S) as [? ?].
      split; [done|]. eapply sameTerrain_trans; eassumption.
    - destruct (generateTrees_keeps _ ltac:(exact (proj1 B2))) as [? ?].
      split; [done|]. eapply sameTerrain_trans; eassumption. }
  clearbody g3. destruct K as [I3 T3].
  apply (fold_left_preserves (fun g' => gridInv g' /\ sameTerrain g g')); [done|].
  intros g' b [I' T'] _. destruct (restoreBuilding_keeps g' b I') as [? ?].
  split; [done|]. eapply sameTerrain_trans; eassumption.
Qed.

Lemma resetTiles_keeps g :
  worldInv g -> gridInv (resetTiles g) /\ sameTerrain g (resetTiles g).
Proof.
  intros [I B]. unfold resetTiles.
  match goal with
  | |- context [fold_left _ (baseTrees ?g1) ?g2] => set (g1' := g2)
  end.
  assert (K : gridInv g1' /\ sameTerrain g g1').
  { subst g1'. split; [apply gridInv_blank|repeat split]. }
  destruct K as [I1 T1].
  assert (E : baseTrees g1' = baseTrees g) by (now destruct T1 as (?&?&?&?&?&?&->&?)).
  simpl baseTrees. change (baseTrees _) with (baseTrees g1') at 1.
  destruct (addTrees_keeps (baseTrees g1') g1' I1) as [I2 T2]; [now rewrite E|].
  split; [exact I2|]. eapply sameTerrain_trans; [exact T1|].
  eapply sameTerrain_trans; [exact T2|]. repeat split.
Qed.
End GridOps.

(* ===================================================================== *)
(** ** Build tools, destruction passes and the constructor keep the
       invariant *)
(* ===================================================================== *)

Lemma map_eq_lookup {A B} (f : A -> B) (l1 l2 : list A) j a :
  map f l1 = map f l2 -> l1 !! j = Some a -> exists b, l2 !! j = Some b /\ f a = f b.
Proof.
  intros E Ha. assert (E' : map f l1 !! j = map f l2 !! j) by now rewrite E.
  rewrite !lookup_map, Ha in E'. destruct (l2 !! j) as [b|]; [|discriminate].
  exists b. split; [done|]. now injection E'.
Qed.

Lemma tileOk_grass_unoccupied t : tileOk t -> type t = grass -> occupantId t = None.
Proof.
  intros [O _] Ty. destruct (occupantId t); [|done].
  specialize (O ltac:(done)). congruence.
Qed.

Lemma tileOk_road_unoccupied t : tileOk t -> type t = road -> occupantId t = None /\ treeId t = None.
Proof.
  intros [O T] Ty. split.
  - destruct (occupantId t); [|done]. specialize (O ltac:(done)). congruence.
  - destruct (treeId t); [|done]. destruct T as [T _]; [done|congruence].
Qed.

Lemma placeRoad_keeps g x z :
  gridInv g -> gridInv (placeRoad g x z).2 /\ sameTerrain g (placeRoad g x z).2.
Proof.
  intros I. unfold placeRoad.
  destruct (getTile g x z) as [tile|] eqn:GT; [|split; [done|apply sameTerrain_refl]].
  apply getTile_Some in GT. destruct GT as [B GT].
  repeat case_if; simpl; try (split; [done|apply sameTerrain_refl]).
  destruct (gridInv_removeTreeAt g x z I) as [I2 N2].
  pose proof (sameTerrain_removeTreeAt g x z) as T2.
  destruct (removeTreeAt_frame g x z) as (_ & _ & _ & _ & Ety & _).
  set (g2 := (removeTreeAt g x z).2) in *.
  assert (Ei : index g2 x z = index g x z).
  { unfold index. destruct T2 as (-> & _). reflexivity. }
  split.
  - apply gridInv_update_tile; [done|]. intros t Ht. rewrite Ei in Ht.
    pose proof (N2 B t Ht) as Nt.
    destruct (map_eq_lookup type _ _ _ _ Ety Ht) as (t0 & Ht0 & Ety0).
    rewrite GT in Ht0. injection Ht0 as <-.
    match goal with H : negb (bool_decide (type tile = grass)) = false |- _ =>
      apply negb_false_iff, bool_decide_eq_true in H; rename H into Tg end.
    destruct I2 as (I21 & _). rewrite Forall_lookup in I21.
    pose proof (tileOk_grass_unoccupied t (I21 _ _ Ht) ltac:(congruence)) as Ot.
    split; [|reflexivity]. split; simpl; [rewrite Ot; done|rewrite Nt; done].
  - eapply sameTerrain_trans; [exact T2|apply sameTerrain_update_tile].
Qed.

Lemma erase_keeps g x z :
  gridInv g -> gridInv (erase g x z).2 /\ sameTerrain g (erase g x z).2.
Proof.
  intros I. unfold erase.
  destruct (getTile g x z) as [tile|] eqn:GT; [|split; [done|apply sameTerrain_refl]].
  apply getTile_Some in GT. destruct GT as [B GT].
  assert (R : bool_decide (type tile = road) = true ->
              gridInv (update_tile g (index g x z) (set_type grass)) /\
              sameTerrain g (update_tile g (index g x z) (set_type grass))).
  { intros Tr. apply bool_decide_eq_true in Tr. split; [|apply sameTerrain_update_tile].
    apply gridInv_update_tile; [done|]. intros t Ht. rewrite GT in Ht. injection Ht as <-.
    destruct I as (I1 & _). rewrite Forall_lookup in I1.
    destruct (tileOk_road_unoccupied tile (I1 _ _ GT) Tr) as [O T].
    split; [|reflexivity]. split; simpl; [rewrite O; done|rewrite T; done]. }
  destruct (occupantId tile) as [b|].
  - repeat case_if; simpl; try (split; [done|apply sameTerrain_refl]); try now apply R.
    split; [now apply gridInv_clearOccupant|repeat split].
  - repeat case_if; simpl; try (split; [done|apply sameTerrain_refl]); now apply R.
Qed.

Lemma placeHouse_keeps pc g x z :
  gridInv g -> gridInv (placeHouse pc g x z).2 /\ sameTerrain g (placeHouse pc g x z).2.
Proof.
  intros I. unfold placeHouse.
  destruct (getTile g x z) as [tile|]; [|split; [done|apply sameTerrain_refl]].
  case_if; [split; [done|apply sameTerrain_refl]|].
  destruct (searchFootprint _ _ _ _ _) as [found rng].
  case_if; [split; [done|apply sameTerrain_refl]|].
  destruct (match found with Some f => f | None => _ end) as [[[w d] oX] oZ].
  unfold Rng.range, Rng.chance, Rng.int, Rng.range, Rng.next. cbv beta iota zeta.
  cbn [snd].
  match goal with
  | |- context [claimFootprint ?g1 ?b] =>
      destruct (claimFootprint_keeps g1 b) as [I2 T2]; [exact I|];
      split; [exact I2|]; eapply sameTerrain_trans; [|exact T2]; repeat split
  end.
Qed.

Lemma apply_keeps pc g tool x z :
  gridInv g -> gridInv (apply pc g tool x z).2 /\ sameTerrain g (apply pc g tool x z).2.
Proof.
  intros I. unfold apply. case_if; [split; [done|apply sameTerrain_refl]|].
  destruct tool.
  - now apply placeHouse_keeps.
  - pose proof (placeRoad_keeps g x z I). now destruct (placeRoad g x z).
  - pose proof (erase_keeps g x z I). now destruct (erase g x z).
Qed.

Lemma scanTile_keeps tornado sc tx tz :
  gridInv (sc_world sc) ->
  gridInv (sc_world (scanTile tornado sc tx tz)) /\
  sameTerrain (sc_world sc) (sc_world (scanTile tornado sc tx tz)).
Proof.
  intros I. unfold scanTile.
  case_if; [split; [done|apply sameTerrain_refl]|].
  case_if; [split; [done|apply sameTerrain_refl]|].
  cbv zeta.
  pose proof (gridInv_removeTreeAt (sc_world sc) tx tz I) as [I2 _].
  pose proof (sameTerrain_removeTreeAt (sc_world sc) tx tz) as T2.
  destruct (removeTreeAt (sc_world sc) tx tz) as [removed g2]. simpl in *. done.
Qed.

Lemma scanTornado_keeps sc tornado :
  gridInv (sc_world sc) ->
  gridInv (sc_world (scanTornado sc tornado)) /\
  sameTerrain (sc_world sc) (sc_world (scanTornado sc tornado)).
Proof.
  intros I. unfold scanTornado.
  destruct (worldToTile _ _ _) as [[cx cz]|]; [|split; [done|apply sameTerrain_refl]].
  apply (fold_left_preserves
           (fun sc' => gridInv (sc_world sc') /\ sameTerrain (sc_world sc) (sc_world sc'))).
  - split; [done|apply sameTerrain_refl].
  - intros sc' [dx dz] [I' T'] _.
    destruct (scanTile_keeps tornado sc' (cx + dx) (cz + dz) I') as [? ?].
    split; [done|]. eapply sameTerrain_trans; eassumption.
Qed.

Lemma destroyBuilding_keeps st b :
  gridInv st.2 -> gridInv (destroyBuilding st b).2 /\ sameTerrain st.2 (destroyBuilding st b).2.
Proof.
  destruct st as [c g]. simpl. intros I. unfold destroyBuilding.
  case_if; simpl; [split; [done|apply sameTerrain_refl]|].
  split; [now apply gridInv_clearOccupant|repeat split].
Qed.

Lemma markDestructionPath_keeps ws g views :
  gridInv g ->
  gridInv (markDestructionPath ws g views).2 /\
  sameTerrain g (markDestructionPath ws g views).2.
Proof.
  intros I. unfold markDestructionPath.
  match goal with
  | |- context [fold_left scanTornado views ?sc0] => set (s0 := sc0)
  end.
  assert (K : gridInv (sc_world (fold_left scanTornado views s0)) /\
              sameTerrain g (sc_world (fold_left scanTornado views s0))).
  { apply (fold_left_preserves
             (fun sc' => gridInv (sc_world sc') /\ sameTerrain g (sc_world sc'))).
    - split; [done|apply sameTerrain_refl].
    - intros sc' t [I' T'] _. destruct (scanTornado_keeps sc' t I') as [? ?].
      split; [done|]. eapply sameTerrain_trans; eassumption. }
  destruct K as [I1 T1]. cbv zeta.
  set (sc1 := fold_left scanTornado views s0) in *.
  assert (K : gridInv (fold_left destroyBuilding (sc_ids sc1) (false, sc_world sc1)).2 /\
              sameTerrain g (fold_left destroyBuilding (sc_ids sc1) (false, sc_world sc1)).2).
  { apply (fold_left_preserves (fun st => gridInv st.2 /\ sameTerrain g st.2)).
    - done.
    - intros st b [I' T'] _. destruct (destroyBuilding_keeps st b I') as [? ?].
      split; [done|]. eapply sameTerrain_trans; eassumption. }
  destruct (fold_left destroyBuilding _ _) as [bc g']. exact K.
Qed.

Lemma addTree_trees_elem g tree k v :
  (k, v) ∈ trees (addTree g tree) -> v = tree \/ (k, v) ∈ trees g.
Proof.
  destruct (addTree_cases g tree)
    as [->|(tile & trees0 & _ & _ & _ & _ & E0 & _ & _ & Et & _)]; [now right|].
  rewrite Et. intros E. apply JsMap_elem_set in E. destruct E as [[_ ->]|E]; [now left|].
  right. destruct E0 as [[_ ->]|(e & _ & _ & ->)]; [done|].
  apply JsMap_elem_delete in E. tauto.
Qed.

Section Construction.
Context `{JsMath}.

Lemma generateTreeAt_tree_ids st xz :
  (forall k v, (k, v) ∈ trees st.1 -> t_id v <> EmptyString) ->
  forall k v, (k, v) ∈ trees (generateTreeAt st xz).1 -> t_id v <> EmptyString.
Proof.
  destruct st as [g rng], xz as [x z]. simpl. intros I.
  unfold generateTreeAt.
  destruct (getTile g x z) as [tile|]; [|done].
  unfold Rng.range, Rng.next. cbv zeta beta iota.
  repeat case_if; simpl; try done.
  intros k v E. apply addTree_trees_elem in E. destruct E as [->|E]; [|eauto].
  apply tree_id_truthy.
Qed.

Lemma generateTrees_tree_ids g k v :
  (k, v) ∈ trees (generateTrees g) -> t_id v <> EmptyString.
Proof.
  unfold generateTrees. revert k v.
  apply (fold_left_preserves
           (fun st => forall k v, (k, v) ∈ trees st.1 -> t_id v <> EmptyString)
           generateTreeAt).
  - simpl. intros k v E. now apply elem_of_nil in E.
  - intros st xz I _. now apply generateTreeAt_tree_ids.
Qed.

Lemma blankGrid_applyStreamWater g : blankGrid g -> blankGrid (applyStreamWater g).
Proof.
  intros Bl. unfold applyStreamWater.
  apply (fold_left_preserves blankGrid); [done|].
  intros g' [x z] [E F] _. destruct (getTile g' x z) as [tile|] eqn:GT; [|done].
  case_if; [|done]. apply getTile_Some in GT. destruct GT as [B GT].
  pose proof (index_nonneg g' x z B). split.
  - now destruct (update_tile_frame g' (index g' x z) (set_type water)) as (-> & _).
  - rewrite tiles_update_tile by done. rewrite Forall_lookup in *. intros j t Hj.
    destruct (decide (Z.to_nat (index g' x z) = j)) as [<-|N].
    + rewrite list_lookup_alter_eq, GT in Hj. injection Hj as <-. simpl. eauto.
    + rewrite list_lookup_alter_ne in Hj by done. eauto.
Qed.

Lemma blankGrid_fillTiles g : treeByTile g = [] -> blankGrid (fillTiles g).
Proof.
  intros E. split; [exact E|]. unfold fillTiles. cbn [tiles set_tiles].
  apply Forall_lookup. intros j t Hj. lookup_map_in Hj.
  destruct (_ !! j) as [[x z]|]; [|discriminate]. now injection Hj as <-.
Qed.

Lemma captureBaseState_worldInv g :
  gridInv g -> (forall k v, (k, v) ∈ trees g -> t_id v <> EmptyString) ->
  worldInv (captureBaseState g).
Proof.
  intros I T. split; [exact I|]. unfold captureBaseState. cbn [baseTrees set_base].
  apply Forall_lookup. intros j t Hj.
  unfold JsMap.values in Hj. lookup_map_in Hj.
  destruct (trees g !! j) as [[k v]|] eqn:E; [|discriminate].
  injection Hj as <-. cbn [cloneTree t_id]. apply (T k _).
  eapply list_elem_of_lookup_2; eassumption.
Qed.

Lemma build_worldInv g :
  treeByTile g = [] ->
  worldInv (captureBaseState (generateTrees (applyStreamWater (fillTiles g)))).
Proof.
  intros E.
  pose proof (blankGrid_applyStreamWater _ (blankGrid_fillTiles g E)) as Bl.
  apply gridInv_blankGrid in Bl.
  destruct (generateTrees_keeps _ (proj1 Bl)) as [I T].
  apply captureBaseState_worldInv; [exact I|]. apply generateTrees_tree_ids.
Qed.

Lemma GridWorld_new_worldInv config : worldInv (GridWorld_new config).
Proof.
  unfold GridWorld_new.
  repeat match goal with
         | |- context [let '(_, _) := ?p in _] => destruct p
         end.
  cbv zeta. apply build_worldInv. reflexivity.
Qed.

Lemma reachable_worldInv g : reachable snapshotTreeIdsTruthy g -> worldInv g.
Proof.
  induction 1 as [config|g pc tool x z _ IH|g ws views _ IH|g _ IH|g s _ IH S].
  - apply GridWorld_new_worldInv.
  - destruct (apply_keeps pc g tool x z (proj1 IH)). eapply worldInv_intro; eassumption.
  - destruct (markDestructionPath_keeps ws g views (proj1 IH)).
    eapply worldInv_intro; eassumption.
  - destruct (resetTiles_keeps g IH). eapply worldInv_intro; eassumption.
  - destruct (applySnapshot_keeps g s (proj1 IH) S). eapply worldInv_intro; eassumption.
Qed.

(** X1.  In every grid reached from a freshly constructed one by the
    build tools, destruction passes, resets and the restoring of
    snapshots whose tree records have non-empty ids, an occupied tile
    is a foundation and a tile with a tree is unoccupied grass. *)
Theorem tile_invariant_reachable g :
  reachable snapshotTreeIdsTruthy g ->
  forall t, t ∈ tiles g ->
    (occupantId t <> None -> type t = foundation) /\
    (treeId t <> None -> type t = grass /\ occupantId t = None).
Proof.
  intros R t Ht. destruct (reachable_worldInv g R) as [(I1 & _) _].
  rewrite Forall_forall in I1. exact (I1 t Ht).
Qed.

(** C7.  A snapshot whose width or depth differs from the grid's is
    ignored: [applySnapshot] returns the grid as it was. *)
Theorem applySnapshot_dimension_mismatch g s :
  s_width s <> width g \/ s_depth s <> depth g -> applySnapshot g s = g.
Proof.
  intros D. unfold applySnapshot.
  destruct (bool_decide (s_width s = width g)) eqn:W;
    destruct (bool_decide (s_depth s = depth g)) eqn:Dp; simpl; try reflexivity.
  apply bool_decide_eq_true in W, Dp. tauto.
Qed.

(** C3.  Two grids constructed from configurations with the same
    width, depth, tile size and seed have equal height fields, equal
    tile types and equal tree registries. *)
Theorem construction_is_deterministic (c1 c2 : GridConfig) :
  c_width c1 = c_width c2 -> c_depth c1 = c_depth c2 ->
  c_tileSize c1 = c_tileSize c2 -> c_seed c1 = c_seed c2 ->
  heightField (GridWorld_new c1) = heightField (GridWorld_new c2) /\
  map type (tiles (GridWorld_new c1)) = map type (tiles (GridWorld_new c2)) /\
  trees (GridWorld_new c1) = trees (GridWorld_new c2).
Proof.
  destruct c1 as [w1 d1 t1 s1], c2 as [w2 d2 t2 s2].
  cbn [c_width c_depth c_tileSize c_seed]. intros -> -> -> ->. auto.
Qed.
End Construction.

(* ===================================================================== *)
(** ** Footprints *)
(* ===================================================================== *)

Lemma fold_alter_lookup {A} (f : A -> A) (idxs : list nat) (l : list A) (j : nat) :
  (forall a, f (f a) = f a) ->
  fold_left (fun ts i => alter f i ts) idxs l !! j =
  if decide (j ∈ idxs) then f <$> l !! j else l !! j.
Proof.
  intros Idem. revert l. induction idxs as [|i idxs IH]; intros l; cbn [fold_left].
  - destruct (decide (j ∈ [])) as [E|_]; [now apply elem_of_nil in E|done].
  - rewrite IH. rewrite list_lookup_alter.
    destruct (decide (j ∈ idxs)) as [In|Nin]; destruct (decide (j ∈ i :: idxs)) as [In'|Nin'];
      destruct (decide (i = j)) as [->|N]; try done.
    + destruct (l !! j); simpl; [|done]. now rewrite Idem.
    + exfalso. apply Nin'. apply elem_of_cons. now right.
    + exfalso. apply Nin'. apply elem_of_cons. now right.
    + apply elem_of_cons in In'. destruct In'; [congruence|done].
    + exfalso. apply Nin'. apply elem_of_cons. now left.
Qed.

Lemma paint_idem b t : paint b (paint b t) = paint b t.
Proof. reflexivity. Qed.

Lemma footprintIndices_terrain g g' b :
  width g' = width g -> depth g' = depth g ->
  footprintIndices g' b = footprintIndices g b.
Proof.
  intros W D. unfold footprintIndices, inBounds, index. now rewrite W, D.
Qed.

Section Footprints.
Context `{JsMath}.

Lemma restoreTile_tiles b g dx dz :
  gridInv g ->
  tiles (restoreTile b g (dx, dz)) =
  if inBounds g (originX b + dx) (originZ b + dz)
  then alter (paint b) (Z.to_nat (index g (originX b + dx) (originZ b + dz))) (tiles g)
  else tiles g.
Proof.
  intros I. unfold restoreTile. cbv zeta.
  destruct (inBounds g (originX b + dx) (originZ b + dz)) eqn:B; cbn [negb]; [|done].
  pose proof (index_nonneg g _ _ B) as Hi.
  destruct (gridInv_removeTreeAt g (originX b + dx) (originZ b + dz) I) as [I2 N2].
  pose proof (sameTerrain_removeTreeAt g (originX b + dx) (originZ b + dz)) as T2.
  assert (Ei : index (removeTreeAt g (originX b + dx) (originZ b + dz)).2
                     (originX b + dx) (originZ b + dz)
               = index g (originX b + dx) (originZ b + dz)).
  { unfold index. destruct T2 as (-> & _). reflexivity. }
  cbn [snd] in *. rewrite Ei. rewrite tiles_update_tile by done.
  specialize (N2 B).
  destruct (removeTreeAt_cases g (originX b + dx) (originZ b + dz))
    as [[E C]|(tid & _ & G & N & E)]; rewrite E in *; cbn [snd] in *.
  - apply list_alter_ext; [|done]. intros t Ht. specialize (N2 _ Ht).
    destruct t as [ty h o tr]. simpl in N2. subst tr. reflexivity.
  - rewrite tiles_update_tile by done. cbn [tiles set_trees set_treeByTile].
    rewrite list_alter_alter_eq. apply list_alter_ext; [|done]. intros t Ht. reflexivity.
Qed.

Lemma restoreTiles_tiles b (l : list (Z * Z)) : forall g,
  gridInv g ->
  tiles (fold_left (restoreTile b) l g) =
  fold_left (fun ts i => alter (paint b) i ts)
    (map (fun '(dx, dz) => Z.to_nat (index g (originX b + dx) (originZ b + dz)))
         (List.filter (fun '(dx, dz) => inBounds g (originX b + dx) (originZ b + dz)) l))
    (tiles g).
Proof.
  induction l as [|[dx dz] l IH]; intros g I; cbn [fold_left List.filter map]; [done|].
  destruct (restoreTile_keeps b g (dx, dz) I) as [I2 T2].
  rewrite (IH _ I2). rewrite restoreTile_tiles by done.
  destruct T2 as (W & D & _).
  assert (EF : forall xz : Z * Z,
             (let '(dx0, dz0) := xz in
              inBounds (restoreTile b g (dx, dz)) (originX b + dx0) (originZ b + dz0)) =
             (let '(dx0, dz0) := xz in inBounds g (originX b + dx0) (originZ b + dz0))).
  { intros [a c]. unfold inBounds. now rewrite W, D. }
  assert (EI : forall xz : Z * Z,
             (let '(dx0, dz0) := xz in
              Z.to_nat (index (restoreTile b g (dx, dz)) (originX b + dx0) (originZ b + dz0))) =
             (let '(dx0, dz0) := xz in
              Z.to_nat (index g (originX b + dx0) (originZ b + dz0)))).
  { intros [a c]. unfold index. now rewrite W. }
  rewrite (List.filter_ext _ _ EF). rewrite (List.map_ext _ _ EI).
  destruct (inBounds g (originX b + dx) (originZ b + dz)); reflexivity.
Qed.

Lemma restoreBuilding_lookup g b j :
  gridInv g ->
  tiles (restoreBuilding g b) !! j =
  if decide (j ∈ footprintIndices g b) then paint b <$> tiles g !! j else tiles g !! j.
Proof.
  intros I. unfold restoreBuilding. cbv zeta.
  rewrite restoreTiles_tiles by exact I.
  rewrite fold_alter_lookup by apply paint_idem. reflexivity.
Qed.

Lemma coveredIndices_terrain g g' bs :
  width g' = width g -> depth g' = depth g ->
  coveredIndices g' bs = coveredIndices g bs.
Proof.
  intros W D. unfold coveredIndices. induction bs as [|b bs IH]; cbn [flat_map]; [done|].
  now rewrite (footprintIndices_terrain g g' b W D), IH.
Qed.

Lemma restoreBuildings_lookup (bs : list BuildingRecord) : forall g j t',
  gridInv g ->
  tiles (fold_left restoreBuilding bs g) !! j = Some t' ->
  exists t, tiles g !! j = Some t /\
    ((j ∈ coveredIndices g bs /\
      type t' = foundation /\ treeId t' = None /\ height t' = height t) \/
     (~ j ∈ coveredIndices g bs /\ t' = t)).
Proof.
  induction bs as [|b bs IH]; intros g j t' I Hj; cbn [fold_left] in Hj.
  - exists t'. split; [done|]. right. split; [apply not_elem_of_nil|done].
  - destruct (restoreBuilding_keeps g b I) as [I2 T2].
    destruct (IH _ _ _ I2 Hj) as (t1 & Ht1 & C).
    rewrite restoreBuilding_lookup in Ht1 by done.
    destruct T2 as (W & D & _).
    rewrite (coveredIndices_terrain g _ bs W D) in C.
    unfold coveredIndices. cbn [flat_map]. fold (coveredIndices g bs).
    destruct (decide (j ∈ footprintIndices g b)) as [In|Nin].
    + destruct (tiles g !! j) as [t|] eqn:E; [|discriminate]. injection Ht1 as <-.
      exists t. split; [done|]. left. split; [apply elem_of_app; now left|].
      destruct C as [(_ & ? & ? & ->)|(_ & ->)]; done.
    + exists t1. split; [done|].
      destruct C as [(In2 & ?)|(Nin2 & ?)].
      * left. split; [apply elem_of_app; now right|done].
      * right. split; [|done]. rewrite elem_of_app. tauto.
Qed.
End Footprints.

(* ===================================================================== *)
(** ** Tile types through [applySnapshot] *)
(* ===================================================================== *)

Lemma map_type_alter (f : Tile -> Tile) (ty : TileType) (i : nat) (l : list Tile) :
  (forall t, type (f t) = ty) ->
  map type (alter f i l) = alter (fun _ => ty) i (map type l).
Proof.
  intros Hf. apply (list_fmap_alter type f (fun _ => ty)).
  apply Forall_forall. intros t _. apply Hf.
Qed.

Lemma map_type_alter_same (f : Tile -> Tile) (i : nat) (l : list Tile) :
  (forall t, type (f t) = type t) -> map type (alter f i l) = map type l.
Proof.
  intros Hf. apply list_eq. intros j. rewrite !lookup_map, list_lookup_alter.
  destruct (decide (i = j)) as [->|]; [|done]. destruct (l !! j); simpl; [|done].
  now rewrite Hf.
Qed.

Section SnapshotTypes.
Context `{JsMath}.

Lemma generateTrees_keeps_terrain g : sameTerrain g (generateTrees g).
Proof.
  unfold generateTrees.
  apply (fold_left_preserves (fun st => sameTerrain g st.1) generateTreeAt).
  - apply sameTerrain_clearTrees.
  - intros [g' rng] [x z] T _. eapply sameTerrain_trans; [exact T|].
    cbn [fst]. unfold generateTreeAt.
    destruct (getTile g' x z) as [tile|]; [|apply sameTerrain_refl].
    unfold Rng.range, Rng.next. cbv zeta beta iota.
    repeat case_if; cbn [fst]; try apply sameTerrain_refl. apply sameTerrain_addTree.
Qed.

Lemma addTrees_terrain (l : list TreeRecord) g :
  sameTerrain g (fold_left (fun g tree => addTree g (cloneTree tree)) l g).
Proof.
  apply (fold_left_preserves (fun g' => sameTerrain g g')); [apply sameTerrain_refl|].
  intros g' t T _. eapply sameTerrain_trans; [exact T|apply sameTerrain_addTree].
Qed.

Lemma generateTreeAt_types st xz :
  map type (tiles (generateTreeAt st xz).1) = map type (tiles st.1).
Proof.
  destruct st as [g rng], xz as [x z]. cbn [fst]. unfold generateTreeAt.
  destruct (getTile g x z) as [tile|]; [|done].
  unfold Rng.range, Rng.next. cbv zeta beta iota.
  repeat case_if; cbn [fst]; try done. apply addTree_types.
Qed.

Lemma generateTrees_types g :
  map type (tiles (generateTrees g)) = map type (tiles g).
Proof.
  unfold generateTrees.
  apply (fold_left_preserves
           (fun st => map type (tiles st.1) = map type (tiles g)) generateTreeAt).
  - cbn [fst clearTrees tiles set_tiles set_trees set_treeByTile].
    apply list_eq. intros j. rewrite !lookup_map. now destruct (tiles g !! j).
  - intros st xz E _. now rewrite generateTreeAt_types.
Qed.

Lemma addTrees_types (l : list TreeRecord) g :
  map type (tiles (fold_left (fun g tree => addTree g (cloneTree tree)) l g))
  = map type (tiles g).
Proof.
  apply (fold_left_preserves (fun g' => map type (tiles g') = map type (tiles g))); [done|].
  intros g' t E _. now rewrite (proj1 (addTree_types g' (cloneTree t))).
Qed.

Lemma restoreTile_types b g dx dz :
  map type (tiles (restoreTile b g (dx, dz))) =
  if inBounds g (originX b + dx) (originZ b + dz)
  then alter (fun _ => foundation)
             (Z.to_nat (index g (originX b + dx) (originZ b + dz))) (map type (tiles g))
  else map type (tiles g).
Proof.
  unfold restoreTile. cbv zeta.
  destruct (inBounds g (originX b + dx) (originZ b + dz)) eqn:B; cbn [negb]; [|done].
  pose proof (index_nonneg g _ _ B) as Hi.
  pose proof (sameTerrain_removeTreeAt g (originX b + dx) (originZ b + dz)) as T2.
  destruct (removeTreeAt_frame g (originX b + dx) (originZ b + dz))
    as (_ & _ & _ & _ & Ety & _).
  assert (Ei : index (removeTreeAt g (originX b + dx) (originZ b + dz)).2
                     (originX b + dx) (originZ b + dz)
               = index g (originX b + dx) (originZ b + dz)).
  { unfold index. destruct T2 as (-> & _). reflexivity. }
  cbn [snd] in *. rewrite Ei, tiles_update_tile by done.
  rewrite (map_type_alter _ foundation) by reflexivity. now rewrite Ety.
Qed.

Lemma restoreTiles_types b (l : list (Z * Z)) : forall g,
  map type (tiles (fold_left (restoreTile b) l g)) =
  fold_left (fun ts i => alter (fun _ => foundation) i ts)
    (map (fun '(dx, dz) => Z.to_nat (index g (originX b + dx) (originZ b + dz)))
         (List.filter (fun '(dx, dz) => inBounds g (originX b + dx) (originZ b + dz)) l))
    (map type (tiles g)).
Proof.
  induction l as [|[dx dz] l IH]; intros g; cbn [fold_left List.filter map]; [done|].
  assert (T2 : sameTerrain g (restoreTile b g (dx, dz))).
  { unfold restoreTile. cbv zeta. case_if; [apply sameTerrain_refl|].
    eapply sameTerrain_trans; [apply sameTerrain_removeTreeAt|apply sameTerrain_update_tile]. }
  rewrite IH, restoreTile_types. destruct T2 as (W & D & _).
  assert (EF : forall xz : Z * Z,
             (let '(dx0, dz0) := xz in
              inBounds (restoreTile b g (dx, dz)) (originX b + dx0) (originZ b + dz0)) =
             (let '(dx0, dz0) := xz in inBounds g (originX b + dx0) (originZ b + dz0))).
  { intros [a c]. unfold inBounds. now rewrite W, D. }
  assert (EI : forall xz : Z * Z,
             (let '(dx0, dz0) := xz in
              Z.to_nat (index (restoreTile b g (dx, dz)) (originX b + dx0) (originZ b + dz0))) =
             (let '(dx0, dz0) := xz in
              Z.to_nat (index g (originX b + dx0) (originZ b + dz0)))).
  { intros [a c]. unfold index. now rewrite W. }
  rewrite (List.filter_ext _ _ EF). rewrite (List.map_ext _ _ EI).
  destruct (inBounds g (originX b + dx) (originZ b + dz)); reflexivity.
Qed.

Lemma sameTerrain_restoreBuilding g b : sameTerrain g (restoreBuilding g b).
Proof.
  unfold restoreBuilding. cbv zeta.
  apply (fold_left_preserves (fun g' => sameTerrain g g')); [repeat split|].
  intros g' [dx dz] T _. eapply sameTerrain_trans; [exact T|].
  unfold restoreTile. cbv zeta. case_if; [apply sameTerrain_refl|].
  eapply sameTerrain_trans; [apply sameTerrain_removeTreeAt|apply sameTerrain_update_tile].
Qed.

Lemma restoreBuilding_types g b j :
  map type (tiles (restoreBuilding g b)) !! j =
  if decide (j ∈ footprintIndices g b)
  then (fun _ => foundation) <$> map type (tiles g) !! j
  else map type (tiles g) !! j.
Proof.
  unfold restoreBuilding. cbv zeta. rewrite restoreTiles_types.
  rewrite fold_alter_lookup by done. reflexivity.
Qed.

Lemma restoreBuildings_types (bs : list BuildingRecord) : forall g j ty',
  map type (tiles (fold_left restoreBuilding bs g)) !! j = Some ty' ->
  exists ty, map type (tiles g) !! j = Some ty /\
    ((j ∈ coveredIndices g bs /\ ty' = foundation) \/
     (~ j ∈ coveredIndices g bs /\ ty' = ty)).
Proof.
  induction bs as [|b bs IH]; intros g j t' Hj; cbn [fold_left] in Hj.
  - exists t'. split; [done|]. right. split; [apply not_elem_of_nil|done].
  - destruct (IH _ _ _ Hj) as (t1 & Ht1 & C).
    rewrite restoreBuilding_types in Ht1.
    destruct (sameTerrain_restoreBuilding g b) as (W & D & _).
    rewrite (coveredIndices_terrain g _ bs W D) in C.
    unfold coveredIndices. cbn [flat_map]. fold (coveredIndices g bs).
    destruct (decide (j ∈ footprintIndices g b)) as [In|Nin].
    + destruct (map type (tiles g) !! j) as [t|] eqn:E; [|discriminate]. injection Ht1 as <-.
      exists t. split; [done|]. left. split; [apply elem_of_app; now left|].
      destruct C as [(_ & ->)|(_ & ->)]; done.
    + exists t1. split; [done|].
      destruct C as [(In2 & ?)|(Nin2 & ?)].
      * left. split; [apply elem_of_app; now right|done].
      * right. split; [|done]. rewrite elem_of_app. tauto.
Qed.

(** The tile types after the first two loops of [applySnapshot]. *)
Lemma applySnapshot_types g s j ty' :
  s_width s = width g -> s_depth s = depth g ->
  map type (tiles (applySnapshot g s)) !! j = Some ty' ->
  exists t, tiles g !! j = Some t /\
    ((j ∈ coveredIndices g (s_buildings s) /\ ty' = foundation) \/
     (~ j ∈ coveredIndices g (s_buildings s) /\
      ty' = if existsb (fun ty => bool_decide (ty = water)) (tileTypes s)
            then snapshotType g s j
            else if bool_decide (snapshotType g s j = grass)
                    && bool_decide (baseTileTypes g !! j = Some water)
                 then water else snapshotType g s j)).
Proof.
  intros W D. unfold applySnapshot.
  rewrite !bool_decide_eq_true_2 by done. cbn [negb orb].
  match goal with
  | |- context [fold_left restoreBuilding _ ?g0] => set (g3 := g0)
  end.
  intros Hj. destruct (restoreBuildings_types _ _ _ _ Hj) as (ty3 & H3 & C).
  assert (T3 : sameTerrain g g3 /\
               map type (tiles g3) =
               imap (fun i (t : Tile) =>
                       if existsb (fun ty => bool_decide (ty = water)) (tileTypes s)
                       then snapshotType g s i
                       else if bool_decide (snapshotType g s i = grass)
                               && bool_decide (baseTileTypes g !! i = Some water)
                            then water else snapshotType g s i) (tiles g)).
  { subst g3.
    match goal with
    | |- context [if negb ?c then repairWater ?g1 else _] => set (g1' := g1); set (c' := c)
    end.
    assert (K : sameTerrain g (if negb c' then repairWater g1' else g1') /\
                map type (tiles (if negb c' then repairWater g1' else g1')) =
                imap (fun i (t : Tile) =>
                       if c' then snapshotType g s i
                       else if bool_decide (snapshotType g s i = grass)
                               && bool_decide (baseTileTypes g !! i = Some water)
                            then water else snapshotType g s i) (tiles g)).
    { destruct c'; cbn [negb]; (split; [repeat split|]).
      - subst g1'. cbn [tiles set_tiles]. apply list_eq. intros k.
        rewrite lookup_map, !list_lookup_imap.
        cbn [clearTrees tiles set_tiles set_trees set_treeByTile set_buildings].
        rewrite ?(lookup_map (set_treeId None)).
        change (snapshotType (clearTrees (set_buildings [] g)) s k)
          with (snapshotType g s k).
        now destruct (tiles g !! k).
      - subst g1'. unfold repairWater. cbn [tiles set_tiles]. apply list_eq. intros k.
        rewrite lookup_map, !list_lookup_imap.
        cbn [clearTrees tiles set_tiles set_trees set_treeByTile set_buildings baseTileTypes].
        rewrite (lookup_map (set_treeId None)).
        change (snapshotType (clearTrees (set_buildings [] g)) s k)
          with (snapshotType g s k).
        destruct (tiles g !! k); [|done].
        cbn [fmap option_fmap option_map type set_type set_treeId set_occupantId].
        destruct (bool_decide (snapshotType g s k = grass)); [|done].
        now destruct (bool_decide (baseTileTypes g !! k = Some water)). }
    destruct K as [T2 E2].
    destruct (s_trees s) as [[|tree rest]|].
    - rewrite generateTrees_types. split; [|done].
      eapply sameTerrain_trans; [exact T2|].
      apply generateTrees_keeps_terrain.
    - rewrite addTrees_types. split; [|done].
      eapply sameTerrain_trans; [exact T2|]. apply addTrees_terrain.
    - rewrite generateTrees_types. split; [|done].
      eapply sameTerrain_trans; [exact T2|].
      apply generateTrees_keeps_terrain. }
  destruct T3 as [(W3 & D3 & _) E3].
  rewrite (coveredIndices_terrain g g3 _ W3 D3) in C.
  rewrite E3, list_lookup_imap in H3.
  destruct (tiles g !! j) as [t|] eqn:Et; [|discriminate]. injection H3 as <-.
  exists t. split; [done|]. exact C.
Qed.
End SnapshotTypes.

(* ===================================================================== *)
(** ** The destruction pass *)
(* ===================================================================== *)

Lemma scanGrows_refl sc : scanGrows sc sc.
Proof. repeat split; auto. Qed.

Lemma scanGrows_trans a b c : scanGrows a b -> scanGrows b c -> scanGrows a c.
Proof.
  intros (A1 & A2 & A3 & A4 & A5 & A6 & A7) (B1 & B2 & B3 & B4 & B5 & B6 & B7).
  repeat split; auto; congruence.
Qed.

Lemma scanTile_grows tornado sc tx tz : scanGrows sc (scanTile tornado sc tx tz).
Proof.
  unfold scanTile. case_if; [apply scanGrows_refl|]. case_if; [apply scanGrows_refl|].
  cbv zeta.
  destruct (removeTreeAt_frame (sc_world sc) tx tz) as (W & D & Bd & _ & _ & Oc).
  pose proof (sameTerrain_removeTreeAt (sc_world sc) tx tz) as (_ & _ & TS & _).
  destruct (removeTreeAt (sc_world sc) tx tz) as [removed g2]. cbn [snd] in *.
  repeat split; cbn [sc_set sc_ids sc_world]; try done.
  - intros i Hi. case_if; [|done]. apply JsSet_elem_add. now left.
  - intros b Hb. destruct (match getTile g2 tx tz with Some t => occupantId t | None => None end);
      [|done]. case_if; [|done]. apply JsSet_elem_add. now left.
Qed.

(** A tile in bounds and within reach of the tornado is entered in the
    ledger, and its occupant, if any, is collected. *)
Lemma scanTile_marks tornado sc tx tz :
  inBounds (sc_world sc) tx tz = true ->
  (let tileWorld := tileToWorld (sc_world sc) (inject_Z tx) (inject_Z tz) in
   let ddx := wx tileWorld - tv_x tornado in
   let ddz := wz tileWorld - tv_z tornado in
   Js.sqrt_gt (ddx * ddx + ddz * ddz) (tv_radius tornado * 0.78) = false) ->
  index (sc_world sc) tx tz ∈ sc_set (scanTile tornado sc tx tz) /\
  forall t o, tiles (sc_world sc) !! Z.to_nat (index (sc_world sc) tx tz) = Some t ->
              occupantId t = Some o -> o <> EmptyString ->
              o ∈ sc_ids (scanTile tornado sc tx tz).
Proof.
  intros B Dist. cbv zeta in Dist. unfold scanTile. rewrite B. cbn [negb]. rewrite Dist.
  cbv zeta.
  destruct (removeTreeAt_frame (sc_world sc) tx tz) as (W & D & _ & _ & _ & Oc).
  destruct (removeTreeAt (sc_world sc) tx tz) as [removed g2] eqn:R. cbn [snd] in *.
  cbn [sc_set sc_ids]. split.
  - unfold JsSet.has. destruct (bool_decide (index (sc_world sc) tx tz ∈ sc_set sc)) eqn:E;
      cbn [negb].
    + now apply bool_decide_eq_true in E.
    + apply JsSet_elem_add. now right.
  - intros t o Ht Ho No.
    assert (B2 : inBounds g2 tx tz = true) by (unfold inBounds; now rewrite W, D).
    rewrite (getTile_lookup g2 tx tz B2).
    assert (Ei : index g2 tx tz = index (sc_world sc) tx tz) by (unfold index; now rewrite W).
    rewrite Ei.
    destruct (map_eq_lookup occupantId _ _ _ _ (eq_sym Oc) Ht) as (t2 & Ht2 & Eo).
    rewrite Ht2, <- Eo, Ho. rewrite (proj2 (truthy_Some o) No).
    apply JsSet_elem_add. now right.
Qed.

(** The loop over the collected buildings. *)
Lemma destroyBuilding_done st b bid :
  JsMap.get (buildings st.2) bid = None ->
  Forall (fun t => occupantId t <> Some bid) (tiles st.2) ->
  JsMap.get (buildings (destroyBuilding st b).2) bid = None /\
  Forall (fun t => occupantId t <> Some bid) (tiles (destroyBuilding st b).2) /\
  (st.1 = true -> (destroyBuilding st b).1 = true).
Proof.
  destruct st as [c g]. cbn [fst snd]. intros G F. unfold destroyBuilding.
  case_if; cbn [fst snd]; [done|]. split; [|split; [|done]].
  - cbn [buildings set_buildings clearOccupant set_tiles].
    destruct (decide (bid = b)) as [->|N]; [apply JsMap_get_delete_eq|].
    now rewrite JsMap_get_delete_ne.
  - cbn [tiles set_buildings clearOccupant set_tiles]. rewrite Forall_lookup in *.
    intros j t Hj. rewrite lookup_map in Hj.
    destruct (tiles g !! j) as [t0|] eqn:E; [|discriminate]. injection Hj as <-.
    specialize (F _ _ E). case_if; [|done]. cbn. case_if; cbn; done.
Qed.

Lemma destroyBuilding_self st bid :
  JsMap.has (buildings st.2) bid = true ->
  JsMap.get (buildings (destroyBuilding st bid).2) bid = None /\
  Forall (fun t => occupantId t <> Some bid) (tiles (destroyBuilding st bid).2) /\
  (destroyBuilding st bid).1 = true.
Proof.
  destruct st as [c g]. cbn [fst snd]. intros Hh. unfold destroyBuilding. rewrite Hh.
  cbn [negb fst snd]. split; [|split; [|done]].
  - apply JsMap_get_delete_eq.
  - cbn [tiles set_buildings clearOccupant set_tiles]. apply Forall_lookup.
    intros j t Hj. rewrite lookup_map in Hj.
    destruct (tiles g !! j) as [t0|] eqn:E; [|discriminate]. injection Hj as <-.
    destruct (bool_decide (occupantId t0 = Some bid)) eqn:Eb.
    + cbn. case_if; cbn; done.
    + now apply bool_decide_eq_false in Eb.
Qed.

Lemma destroyBuilding_other st b bid :
  b <> bid -> JsMap.has (buildings st.2) bid = true ->
  JsMap.has (buildings (destroyBuilding st b).2) bid = true.
Proof.
  destruct st as [c g]. cbn [fst snd]. intros N Hh. unfold destroyBuilding.
  case_if; cbn [snd]; [done|]. cbn [buildings set_buildings clearOccupant set_tiles].
  unfold JsMap.has in *. now rewrite JsMap_get_delete_ne.
Qed.

Lemma destroyBuildings_removes (ids : list string) : forall st bid,
  bid ∈ ids -> JsMap.has (buildings st.2) bid = true ->
  JsMap.get (buildings (fold_left destroyBuilding ids st).2) bid = None /\
  Forall (fun t => occupantId t <> Some bid) (tiles (fold_left destroyBuilding ids st).2) /\
  (fold_left destroyBuilding ids st).1 = true.
Proof.
  induction ids as [|b ids IH]; intros st bid In Hh; [now apply elem_of_nil in In|].
  cbn [fold_left]. destruct (decide (b = bid)) as [->|N].
  - destruct (destroyBuilding_self st bid Hh) as (G & F & C).
    clear IH In Hh. revert G F C. generalize (destroyBuilding st bid). clear st.
    induction ids as [|b ids IH]; intros st G F C; [done|]. cbn [fold_left].
    destruct (destroyBuilding_done st b bid G F) as (G2 & F2 & C2). apply IH; auto.
  - apply elem_of_cons in In. destruct In as [->|In]; [done|].
    apply IH; [done|]. now apply destroyBuilding_other.
Qed.

Lemma floor_half (n : Z) (q : Q) : q == inject_Z n + (1 # 2) -> Js.floor q = n.
Proof.
  intros E. unfold Js.floor. pose proof (Qfloor_le q) as L. pose proof (Qlt_floor q) as U.
  assert (E1 : inject_Z (n + 1) == inject_Z n + 1) by (rewrite inject_Z_plus; reflexivity).
  assert (L' : inject_Z (Qfloor q) < inject_Z (n + 1)) by lra.
  assert (U' : inject_Z n < inject_Z (Qfloor q + 1)) by lra.
  rewrite <- Zlt_Qlt in L', U'. lia.
Qed.

Lemma window_elem (r dx dz : Z) :
  (- r <= dx <= r)%Z -> (- r <= dz <= r)%Z -> (dx, dz) ∈ window r.
Proof.
  intros Hx Hz. unfold window. apply list_elem_of_In, in_flat_map. exists dz. split.
  - apply list_elem_of_In, elem_of_seqZ. lia.
  - apply in_map_iff. exists dx. split; [done|]. apply list_elem_of_In, elem_of_seqZ. lia.
Qed.

Lemma scanTiles_grow tornado cx cz (l : list (Z * Z)) sc :
  scanGrows sc
    (fold_left (fun sc '(dx, dz) => scanTile tornado sc (cx + dx) (cz + dz)) l sc).
Proof.
  apply (fold_left_preserves (fun sc' => scanGrows sc sc')); [apply scanGrows_refl|].
  intros sc' [dx dz] G _. eapply scanGrows_trans; [exact G|apply scanTile_grows].
Qed.

Lemma scanTiles_mark tornado cx cz (l : list (Z * Z)) sc dx dz :
  (dx, dz) ∈ l ->
  inBounds (sc_world sc) (cx + dx) (cz + dz) = true ->
  (let g := sc_world sc in
   let ddx := (inject_Z (cx + dx) - inject_Z (width g) / 2 + 0.5) * tileSize g - tv_x tornado in
   let ddz := (inject_Z (cz + dz) - inject_Z (depth g) / 2 + 0.5) * tileSize g - tv_z tornado in
   Js.sqrt_gt (ddx * ddx + ddz * ddz) (tv_radius tornado * 0.78) = false) ->
  let sc' := fold_left (fun sc '(dx, dz) => scanTile tornado sc (cx + dx) (cz + dz)) l sc in
  index (sc_world sc) (cx + dx) (cz + dz) ∈ sc_set sc' /\
  forall t o, tiles (sc_world sc) !! Z.to_nat (index (sc_world sc) (cx + dx) (cz + dz)) = Some t ->
              occupantId t = Some o -> o <> EmptyString -> o ∈ sc_ids sc'.
Proof.
  intros In B Dist. cbv zeta in *.
  apply list_elem_of_split in In. destruct In as (l1 & l2 & ->).
  rewrite fold_left_app. cbn [fold_left].
  pose proof (scanTiles_grow tornado cx cz l1 sc) as (G1 & G2 & G3 & W & D & TS & Oc).
  set (sc1 := fold_left _ l1 sc) in *.
  assert (B1 : inBounds (sc_world sc1) (cx + dx) (cz + dz) = true).
  { unfold inBounds. now rewrite W, D. }
  assert (Ei : index (sc_world sc1) (cx + dx) (cz + dz) = index (sc_world sc) (cx + dx) (cz + dz)).
  { unfold index. now rewrite W. }
  destruct (scanTile_marks tornado sc1 (cx + dx) (cz + dz) B1) as [M1 M2].
  { cbv zeta. cbn [wx wz tileToWorld]. rewrite W, D, TS. exact Dist. }
  pose proof (scanTiles_grow tornado cx cz l2 (scanTile tornado sc1 (cx + dx) (cz + dz)))
    as (H1 & H2 & _).
  split.
  - apply H1. now rewrite <- Ei.
  - intros t o Ht Ho No. apply H2.
    destruct (map_eq_lookup occupantId _ _ _ _ (eq_sym Oc) Ht) as (t1 & Ht1 & Eo).
    rewrite <- Ei in Ht1. apply (M2 t1 o Ht1); [congruence|done].
Qed.

Lemma footprint_offset (o w k : Z) :
  (0 <= k < 3)%Z ->
  let d := (inject_Z (o + 1 + (k - 1)) - inject_Z w / 2 + 0.5) * 1
           - (inject_Z o + inject_Z 3 * 0.5 - 0.5 - inject_Z w / 2 + 0.5) * 1 in
  -1 <= d <= 1.
Proof.
  intros Hk. cbv zeta.
  assert (E : inject_Z (o + 1 + (k - 1)) == inject_Z o + inject_Z k).
  { rewrite <- inject_Z_plus. apply inject_Z_injective. lia. }
  assert (K0 : inject_Z 0 <= inject_Z k) by (rewrite <- Zle_Qle; lia).
  assert (K2 : inject_Z k <= inject_Z 2) by (rewrite <- Zle_Qle; lia).
  change (inject_Z 0) with 0 in K0. change (inject_Z 2) with 2 in K2.
  change (inject_Z 3) with 3.
  set (h := inject_Z w / 2). rewrite E. lra.
Qed.

Lemma within_reach (d1 d2 : Q) :
  -1 <= d1 <= 1 -> -1 <= d2 <= 1 -> Js.sqrt_gt (d1 * d1 + d2 * d2) (4 * 0.78) = false.
Proof.
  intros H1 H2. unfold Js.sqrt_gt.
  replace (Js.lt (4 * 0.78) 0) with false by reflexivity.
  apply Js_lt_false. nra.
Qed.

Lemma centre_tile (o w : Z) :
  Js.floor ((inject_Z o + inject_Z 3 * 0.5 - 0.5 - inject_Z w / 2 + 0.5) * 1 / 1
            + inject_Z w / 2) = (o + 1)%Z.
Proof.
  apply floor_half. rewrite inject_Z_plus. change (inject_Z 3) with 3.
  change (inject_Z 1) with 1. field.
Qed.

(** C4.  A tornado of radius 4 standing on the centre of a 3 by 3
    building (tile size 1) that owns its in-bounds footprint and is
    registered: one destruction pass enters the nine footprint tiles in
    the ledger, removes the building record, leaves no tile occupied by
    it and reports [buildingsChanged]. *)
Theorem tornado_destroys_centred_building ws g b tornado :
  tileSize g = 1 ->
  b_width b = 3%Z -> b_depth b = 3%Z ->
  b_id b <> EmptyString ->
  JsMap.has (buildings g) (b_id b) = true ->
  (forall dx dz, inFootprint b dx dz ->
     inBounds g (originX b + dx) (originZ b + dz) = true /\
     exists t, tiles g !! Z.to_nat (index g (originX b + dx) (originZ b + dz)) = Some t /\
               occupantId t = Some (b_id b)) ->
  tv_radius tornado = 4 ->
  tv_x tornado = wx (buildingCenter g b) ->
  tv_z tornado = wz (buildingCenter g b) ->
  (forall dx dz, inFootprint b dx dz ->
     index g (originX b + dx) (originZ b + dz)
       ∈ destroyedTileSet (markDestructionPath ws g [tornado]).1.2) /\
  JsMap.has (buildings (markDestructionPath ws g [tornado]).2) (b_id b) = false /\
  Forall (fun t => occupantId t <> Some (b_id b))
         (tiles (markDestructionPath ws g [tornado]).2) /\
  dr_buildingsChanged (markDestructionPath ws g [tornado]).1.1 = true.
Proof.
  intros TS BW BD Hid Hrec Hfoot Rad Tx Tz.
  unfold buildingCenter in Tx, Tz. cbn [wx wz tileToWorld] in Tx, Tz.
  rewrite TS, BW in Tx. rewrite TS, BD in Tz.
  unfold markDestructionPath. cbn [fold_left].
  match goal with
  | |- context [scanTornado ?sc0 tornado] => set (s0 := sc0)
  end.
  assert (Hc : inBounds g (originX b + 1) (originZ b + 1) = true).
  { apply Hfoot. unfold inFootprint. lia. }
  assert (S1 : scanTornado s0 tornado =
               fold_left (fun sc '(dx, dz) =>
                            scanTile tornado sc (originX b + 1 + dx) (originZ b + 1 + dz))
                         (window 3) s0).
  { unfold scanTornado. subst s0. cbn [sc_world]. unfold worldToTile.
    rewrite Tx, Tz, TS, Rad, !centre_tile, Hc. cbn [negb]. reflexivity. }
  rewrite S1. clear S1.
  assert (M : forall dx dz, inFootprint b dx dz ->
            index g (originX b + dx) (originZ b + dz) ∈
              sc_set (fold_left (fun sc '(dx, dz) =>
                            scanTile tornado sc (originX b + 1 + dx) (originZ b + 1 + dz))
                         (window 3) s0) /\
            b_id b ∈
              sc_ids (fold_left (fun sc '(dx, dz) =>
                            scanTile tornado sc (originX b + 1 + dx) (originZ b + 1 + dz))
                         (window 3) s0)).
  { intros dx dz F. destruct (Hfoot dx dz F) as (B & t & Ht & Ho).
    destruct F as [Fx Fz]. rewrite BW in Fx. rewrite BD in Fz.
    replace (originX b + dx)%Z with (originX b + 1 + (dx - 1))%Z in * by lia.
    replace (originZ b + dz)%Z with (originZ b + 1 + (dz - 1))%Z in * by lia.
    destruct (scanTiles_mark tornado (originX b + 1) (originZ b + 1) (window 3) s0
                (dx - 1) (dz - 1)) as [M1 M2].
    - apply window_elem; lia.
    - exact B.
    - cbv zeta. subst s0. cbn [sc_world]. rewrite TS, Rad, Tx, Tz.
      apply within_reach; apply footprint_offset; lia.
    - split; [exact M1|]. apply (M2 t (b_id b)); [exact Ht|exact Ho|exact Hid]. }
  pose proof (scanTiles_grow tornado (originX b + 1) (originZ b + 1) (window 3) s0)
    as (_ & _ & G3 & _).
  set (sc1 := fold_left _ (window 3) s0) in *.
  destruct (M 1%Z 1%Z) as [_ Mid]; [unfold inFootprint; lia|].
  assert (Hrec1 : JsMap.has (buildings (false, sc_world sc1).2) (b_id b) = true).
  { cbn [snd]. rewrite G3. subst s0. exact Hrec. }
  destruct (destroyBuildings_removes (sc_ids sc1) (false, sc_world sc1) (b_id b) Mid Hrec1)
    as (R1 & R2 & R3).
  destruct (fold_left destroyBuilding (sc_ids sc1) (false, sc_world sc1)) as [bc g'].
  cbn [fst snd destroyedTileSet dr_buildingsChanged] in *.
  split; [intros dx dz F; now apply M|]. split; [|split; [exact R2|exact R3]].
  unfold JsMap.has. now rewrite R1.
Qed.

(* ===================================================================== *)
(** ** The registries stay consistent with the tiles *)
(* ===================================================================== *)

Lemma treesOk_frame g g' :
  trees g' = trees g -> width g' = width g -> depth g' = depth g ->
  (forall j t k, tiles g !! j = Some t -> treeId t = Some k ->
                 exists t', tiles g' !! j = Some t' /\ treeId t' = Some k) ->
  treesOk g -> treesOk g'.
Proof.
  intros Et W D Ht [ND P]. split; [now rewrite Et|].
  intros k v E. rewrite Et in E. destruct (P k v E) as (I & B & t & Hj & Tr).
  split; [done|]. split; [unfold inBounds; now rewrite W, D|].
  assert (Ei : index g' (t_x v) (t_z v) = index g (t_x v) (t_z v)) by (unfold index; now rewrite W).
  rewrite Ei. eauto.
Qed.

Lemma inBounds_frame g g' x z :
  width g' = width g -> depth g' = depth g -> inBounds g' x z = inBounds g x z.
Proof. intros W D. unfold inBounds. now rewrite W, D. Qed.

Lemma index_frame g g' x z : width g' = width g -> index g' x z = index g x z.
Proof. intros W. unfold index. now rewrite W. Qed.

(** The fields of the grid after a tree was removed. *)
Lemma removeTreeAt_fields g x z :
  (removeTreeAt g x z).1 = true ->
  exists tid,
    inBounds g x z = true /\
    JsMap.get (treeByTile g) (index g x z) = Some tid /\ tid <> EmptyString /\
    trees (removeTreeAt g x z).2 = JsMap.delete (trees g) tid /\
    treeByTile (removeTreeAt g x z).2 = JsMap.delete (treeByTile g) (index g x z) /\
    tiles (removeTreeAt g x z).2 =
      alter (set_treeId None) (Z.to_nat (index g x z)) (tiles g).
Proof.
  destruct (removeTreeAt_cases g x z) as [[-> C]|(tid & B & G & N & ->)]; cbn [fst snd];
    [discriminate|].
  intros _. exists tid. pose proof (index_nonneg g x z B) as Hi.
  unfold update_tile. destruct (Z.ltb_spec (index g x z) 0); [lia|].
  repeat split; done.
Qed.

Lemma removeTreeAt_false g x z :
  (removeTreeAt g x z).1 = false -> (removeTreeAt g x z).2 = g.
Proof.
  destruct (removeTreeAt_cases g x z) as [[-> C]|(tid & B & G & N & ->)]; cbn [fst snd];
    [done|discriminate].
Qed.

Lemma treesOk_removeTreeAt g x z :
  gridInv g -> treesOk g -> treesOk (removeTreeAt g x z).2.
Proof.
  intros (I1 & I2 & I3) [ND P].
  destruct (removeTreeAt g x z).1 eqn:R; [|now rewrite (removeTreeAt_false g x z R)].
  destruct (removeTreeAt_fields g x z R) as (tid & B & G & N & Et & _ & Eti).
  destruct (sameTerrain_removeTreeAt g x z) as (W & D & _).
  pose proof (index_nonneg g x z B) as Hi.
  split; [rewrite Et; now apply JsMap_NoDup_delete|].
  intros k v E. rewrite Et in E. apply JsMap_elem_delete in E.
  destruct E as [Nk E]. destruct (P k v E) as (Id & Bv & t & Hj & Tr).
  split; [done|]. split; [now rewrite (inBounds_frame g _ _ _ W D)|].
  rewrite (index_frame g _ _ _ W), Eti.
  destruct (decide (Z.to_nat (index g x z) = Z.to_nat (index g (t_x v) (t_z v)))) as [Eq|Ne].
  - exfalso. rewrite <- Eq in Hj. pose proof (I2 _ _ Hj) as S.
    rewrite Z2Nat.id in S by done. congruence.
  - exists t. now rewrite list_lookup_alter_ne.
Qed.

(** A change of a tile without a tree. *)
Lemma treesOk_update_tile g i f :
  (forall t, tiles g !! Z.to_nat i = Some t -> treeId t = None) ->
  treesOk g -> treesOk (update_tile g i f).
Proof.
  intros Hn T. unfold update_tile. destruct (Z.ltb_spec i 0); [done|].
  apply (treesOk_frame g); try done.
  intros j t k Hj Tr. cbn [tiles set_tiles].
  destruct (decide (Z.to_nat i = j)) as [<-|Ne].
  - rewrite (Hn _ Hj) in Tr. discriminate.
  - exists t. now rewrite list_lookup_alter_ne.
Qed.

Lemma treesOk_addTree g tree :
  gridInv g -> treesOk g -> treesOk (addTree g tree).
Proof.
  intros (I1 & I2 & I3) [ND P].
  destruct (addTree_cases g tree)
    as [->|(tile & trees0 & B & GT & Ty & Oc & E0 & Et & Eg & Etr & _ & W & D & _)]; [done|].
  pose proof (index_nonneg g _ _ B) as Hi.
  assert (Ei : forall a c, index (addTree g tree) a c = index g a c).
  { intros a c. unfold index. now rewrite W. }
  assert (ND0 : NoDup (JsMap.keys trees0)).
  { destruct E0 as [[_ ->]|(e & _ & _ & ->)]; [done|]. now apply JsMap_NoDup_delete. }
  split; [rewrite Etr; now apply JsMap_NoDup_set|].
  intros k v E. rewrite Etr in E. apply JsMap_elem_set in E.
  destruct E as [[-> ->]|E].
  - split; [done|]. split; [unfold inBounds; rewrite W, D; exact B|].
    rewrite Ei, Et. rewrite list_lookup_alter_eq, GT. cbn. eauto.
  - assert (E' : (k, v) ∈ trees g).
    { destruct E0 as [[_ ->]|(e & _ & _ & ->)]; [done|]. apply JsMap_elem_delete in E. tauto. }
    destruct (P k v E') as (Id & Bv & t & Hj & Tr).
    split; [done|]. split; [unfold inBounds; rewrite W, D; exact Bv|].
    rewrite Ei, Et.
    destruct (decide (Z.to_nat (index g (t_x tree) (t_z tree))
                      = Z.to_nat (index g (t_x v) (t_z v)))) as [Eq|Ne].
    + exfalso. rewrite <- Eq in Hj. rewrite GT in Hj. injection Hj as <-.
      pose proof (I2 _ _ GT) as S. rewrite Z2Nat.id in S by done. rewrite Tr in S.
      symmetry in S. pose proof (I3 _ _ S) as Nk.
      destruct E0 as [[[C|C] _]|(e & Ge & _ & ->)]; try congruence.
      rewrite S in Ge. injection Ge as <-. apply JsMap_elem_delete in E. tauto.
    + exists t. now rewrite list_lookup_alter_ne.
Qed.

Lemma treesOk_clearOccupant g b : treesOk g -> treesOk (clearOccupant g b).
Proof.
  apply treesOk_frame; try done. intros j t k Hj Tr. cbn [tiles clearOccupant set_tiles].
  rewrite lookup_map, Hj. cbn. eexists. split; [reflexivity|].
  case_if; [|done]. cbn. case_if; done.
Qed.

Lemma treesOk_set_buildings g v : treesOk g -> treesOk (set_buildings v g).
Proof. intros T. exact T. Qed.

Lemma buildingsOk_frame g g' :
  buildings g' = buildings g -> width g' = width g -> depth g' = depth g ->
  (forall j t', tiles g' !! j = Some t' ->
     exists t, tiles g !! j = Some t /\
       (type t = foundation -> type t' = type t /\ occupantId t' = occupantId t)) ->
  buildingsOk g -> buildingsOk g'.
Proof.
  intros Eb W D Ht [ND P]. split; [now rewrite Eb|].
  intros k b E. rewrite Eb in E. destruct (P k b E) as [Id F]. split; [done|].
  intros j t' In Hj. rewrite (footprintIndices_terrain g g' b W D) in In.
  destruct (Ht _ _ Hj) as (t & Hj0 & K). destruct (F j t In Hj0) as [Ty Oc].
  destruct (K Ty) as [-> ->]. done.
Qed.

Lemma waterOk_frame g g' :
  baseTileTypes g' = baseTileTypes g ->
  (forall j t', tiles g' !! j = Some t' ->
     exists t, tiles g !! j = Some t /\ (type t' = water <-> type t = water)) ->
  waterOk g -> waterOk g'.
Proof.
  intros Eb Ht Wk j t' Hj. rewrite Eb. destruct (Ht _ _ Hj) as (t & Hj0 & K).
  rewrite K. now apply Wk.
Qed.

Lemma lookup_alter_inv {A} (f : A -> A) (i j : nat) (l : list A) (a' : A) :
  alter f i l !! j = Some a' ->
  exists a, l !! j = Some a /\ ((i <> j /\ a' = a) \/ (i = j /\ a' = f a)).
Proof.
  rewrite list_lookup_alter. destruct (decide (i = j)) as [->|N].
  - destruct (l !! j) as [a|]; [|discriminate]. intros [= <-]. exists a. auto.
  - intros E. exists a'. auto.
Qed.

Lemma registryOk_removeTreeAt g x z :
  gridInv g -> registryOk g -> registryOk (removeTreeAt g x z).2.
Proof.
  intros I (T & B & Wk). split; [now apply treesOk_removeTreeAt|].
  destruct (removeTreeAt g x z).1 eqn:R; [|now rewrite (removeTreeAt_false g x z R)].
  destruct (removeTreeAt_fields g x z R) as (tid & Bd & G & N & Et & _ & Eti).
  destruct (sameTerrain_removeTreeAt g x z) as (W & D & _ & _ & _ & Eb & _).
  destruct (removeTreeAt_frame g x z) as (_ & _ & Ebd & _).
  split.
  - apply (buildingsOk_frame g); try done. intros j t' Hj. rewrite Eti in Hj.
    destruct (lookup_alter_inv _ _ _ _ _ Hj) as (t & Hj0 & [[_ ->]|[_ ->]]); eauto.
  - apply (waterOk_frame g); try done. intros j t' Hj. rewrite Eti in Hj.
    destruct (lookup_alter_inv _ _ _ _ _ Hj) as (t & Hj0 & [[_ ->]|[_ ->]]); eauto.
Qed.

(** A change of the type of a tile that carries no tree and is neither
    a foundation nor water, to a type that is not water. *)
Lemma registryOk_retile g i f :
  (forall t, tiles g !! Z.to_nat i = Some t ->
     treeId t = None /\ type t <> foundation /\ type t <> water /\ type (f t) <> water) ->
  registryOk g -> registryOk (update_tile g i f).
Proof.
  intros Hf (T & B & Wk). split; [|split].
  - apply treesOk_update_tile; [|done]. intros t Ht. now destruct (Hf t Ht).
  - unfold update_tile. destruct (Z.ltb_spec i 0); [done|].
    apply (buildingsOk_frame g); try done. intros j t' Hj. cbn [tiles set_tiles] in Hj.
    destruct (lookup_alter_inv _ _ _ _ _ Hj) as (t & Hj0 & [[_ ->]|[<- ->]]); [eauto|].
    exists t. split; [done|]. intros Ty. destruct (Hf t Hj0) as (_ & Nf & _). done.
  - unfold update_tile. destruct (Z.ltb_spec i 0); [done|].
    apply (waterOk_frame g); try done. intros j t' Hj. cbn [tiles set_tiles] in Hj.
    destruct (lookup_alter_inv _ _ _ _ _ Hj) as (t & Hj0 & [[_ ->]|[<- ->]]); [eauto|].
    exists t. split; [done|]. destruct (Hf t Hj0) as (_ & _ & Nw & Nw'). tauto.
Qed.

Lemma registryOk_addTree g tree :
  gridInv g -> registryOk g -> registryOk (addTree g tree).
Proof.
  intros I (T & B & Wk). split; [now apply treesOk_addTree|].
  destruct (addTree_cases g tree)
    as [->|(tile & trees0 & Bd & GT & Ty & Oc & E0 & Et & Eg & Etr & Ebd & W & D & Eb)]; [done|].
  split.
  - apply (buildingsOk_frame g); try done. intros j t' Hj. rewrite Et in Hj.
    destruct (lookup_alter_inv _ _ _ _ _ Hj) as (t & Hj0 & [[_ ->]|[_ ->]]); eauto.
  - apply (waterOk_frame g); try done. intros j t' Hj. rewrite Et in Hj.
    destruct (lookup_alter_inv _ _ _ _ _ Hj) as (t & Hj0 & [[_ ->]|[_ ->]]); eauto.
Qed.

(** A building is destroyed: its tiles are cleared and its record is
    deleted. *)
Lemma registryOk_destroy g bid :
  gridInv g -> registryOk g ->
  registryOk (set_buildings (JsMap.delete (buildings g) bid) (clearOccupant g bid)).
Proof.
  intros (I1 & _) (T & [ND P] & Wk). rewrite Forall_lookup in I1.
  assert (Ht : forall j t', tiles (clearOccupant g bid) !! j = Some t' ->
             exists t, tiles g !! j = Some t /\
               ((occupantId t <> Some bid /\ t' = t) \/
                (occupantId t = Some bid /\ type t = foundation /\ type t' = grass))).
  { intros j t' Hj. cbn [tiles clearOccupant set_tiles] in Hj. rewrite lookup_map in Hj.
    destruct (tiles g !! j) as [t|] eqn:E; [|discriminate]. injection Hj as <-.
    exists t. split; [done|]. destruct (bool_decide (occupantId t = Some bid)) eqn:Eb.
    - apply bool_decide_eq_true in Eb. right. destruct (I1 _ _ E) as [O _].
      assert (Ty : type t = foundation) by (apply O; congruence).
      split; [done|]. split; [done|]. cbn. rewrite bool_decide_eq_true_2 by done. done.
    - apply bool_decide_eq_false in Eb. now left. }
  split; [|split].
  - apply treesOk_set_buildings, treesOk_clearOccupant, T.
  - split; [cbn [buildings set_buildings]; now apply JsMap_NoDup_delete|].
    intros k b E. cbn [buildings set_buildings] in E. apply JsMap_elem_delete in E.
    destruct E as [Nk E]. destruct (P k b E) as [Id F]. split; [done|].
    intros j t' In Hj.
    change (footprintIndices _ b) with (footprintIndices g b) in In.
    change (tiles _) with (tiles (clearOccupant g bid)) in Hj.
    destruct (Ht _ _ Hj) as (t & Hj0 & [[_ ->]|(Ob & _)]); [eauto|].
    destruct (F j t In Hj0) as [_ Oc]. congruence.
  - intros j t' Hj. change (tiles _) with (tiles (clearOccupant g bid)) in Hj.
    change (baseTileTypes _) with (baseTileTypes g).
    destruct (Ht _ _ Hj) as (t & Hj0 & [[_ ->]|(_ & Tf & Tg)]); [now apply Wk|].
    rewrite <- (Wk j t Hj0). rewrite Tf, Tg. split; discriminate.
Qed.

(* ===================================================================== *)
(** ** The operations keep the registries consistent *)
(* ===================================================================== *)

Lemma registryOk_placeRoad g x z :
  gridInv g -> registryOk g -> registryOk (placeRoad g x z).2.
Proof.
  intros I R. unfold placeRoad.
  destruct (getTile g x z) as [tile|] eqn:GT; [|done].
  apply getTile_Some in GT. destruct GT as [B GT].
  repeat case_if; cbn [snd]; try done.
  destruct (gridInv_removeTreeAt g x z I) as [I2 N2].
  pose proof (registryOk_removeTreeAt g x z I R) as R2.
  pose proof (sameTerrain_removeTreeAt g x z) as T2.
  destruct (removeTreeAt_frame g x z) as (_ & _ & _ & _ & Ety & _).
  set (g2 := (removeTreeAt g x z).2) in *.
  assert (Ei : index g2 x z = index g x z).
  { unfold index. destruct T2 as (-> & _). reflexivity. }
  apply registryOk_retile; [|done]. intros t Ht. rewrite Ei in Ht.
  destruct (map_eq_lookup type _ _ _ _ Ety Ht) as (t0 & Ht0 & Ety0).
  rewrite GT in Ht0. injection Ht0 as <-.
  match goal with H : negb (bool_decide (type tile = grass)) = false |- _ =>
    apply negb_false_iff, bool_decide_eq_true in H; rename H into Tg end.
  split; [now apply N2|]. rewrite Ety0, Tg. cbn. repeat split; discriminate.
Qed.

Lemma registryOk_erase g x z :
  gridInv g -> registryOk g -> registryOk (erase g x z).2.
Proof.
  intros I R. unfold erase.
  destruct (getTile g x z) as [tile|] eqn:GT; [|done].
  apply getTile_Some in GT. destruct GT as [B GT].
  assert (K : bool_decide (type tile = road) = true ->
              registryOk (update_tile g (index g x z) (set_type grass))).
  { intros Tr. apply bool_decide_eq_true in Tr. apply registryOk_retile; [|done].
    intros t Ht. rewrite GT in Ht. injection Ht as <-.
    destruct I as (I1 & _). rewrite Forall_lookup in I1.
    destruct (tileOk_road_unoccupied tile (I1 _ _ GT) Tr) as [O T].
    split; [done|]. rewrite Tr. cbn. repeat split; discriminate. }
  destruct (occupantId tile) as [b|].
  - repeat case_if; cbn [snd]; try done; try now apply K.
    exact (registryOk_destroy g b I R).
  - repeat case_if; cbn [snd]; try done; now apply K.
Qed.

Lemma removeTreeAt_absent g x z :
  JsMap.get (treeByTile g) (index g x z) = None -> removeTreeAt g x z = (false, g).
Proof. intros E. unfold removeTreeAt. rewrite E. now destruct (negb _). Qed.

Lemma list_alter_absent {A} (f : A -> A) (i : nat) (l : list A) :
  l !! i = None -> alter f i l = l.
Proof.
  intros E. apply list_eq. intros j. rewrite list_lookup_alter.
  destruct (decide (i = j)) as [<-|]; [|done]. now rewrite E.
Qed.

Lemma claimTile_tiles b g dx dz :
  gridInv g ->
  tiles (claimTile b g (dx, dz)) =
  if inBounds g (originX b + dx) (originZ b + dz)
  then alter (paint b) (Z.to_nat (index g (originX b + dx) (originZ b + dz))) (tiles g)
  else tiles g.
Proof.
  intros I. unfold claimTile. cbv zeta.
  destruct (getTile g (originX b + dx) (originZ b + dz)) as [t0|] eqn:GT.
  - apply getTile_Some in GT. destruct GT as [B GT]. rewrite B.
    pose proof (restoreTile_tiles b g dx dz I) as E. unfold restoreTile in E.
    cbv zeta in E. rewrite B in E. cbn [negb] in E. exact E.
  - destruct (inBounds g (originX b + dx) (originZ b + dz)) eqn:B; [|done].
    unfold getTile, tileAt in GT. rewrite B in GT. cbn [negb] in GT.
    pose proof (index_nonneg g _ _ B) as Hi.
    destruct (Z.ltb_spec (index g (originX b + dx) (originZ b + dz)) 0); [lia|].
    symmetry. now apply list_alter_absent.
Qed.

Lemma claimTiles_tiles b (l : list (Z * Z)) : forall g,
  gridInv g ->
  tiles (fold_left (claimTile b) l g) =
  fold_left (fun ts i => alter (paint b) i ts)
    (map (fun '(dx, dz) => Z.to_nat (index g (originX b + dx) (originZ b + dz)))
         (List.filter (fun '(dx, dz) => inBounds g (originX b + dx) (originZ b + dz)) l))
    (tiles g).
Proof.
  induction l as [|[dx dz] l IH]; intros g I; cbn [fold_left List.filter map]; [done|].
  destruct (claimTile_keeps b g (dx, dz) I) as [I2 T2].
  rewrite (IH _ I2). rewrite claimTile_tiles by done.
  destruct T2 as (W & D & _).
  assert (EF : forall xz : Z * Z,
             (let '(dx0, dz0) := xz in
              inBounds (claimTile b g (dx, dz)) (originX b + dx0) (originZ b + dz0)) =
             (let '(dx0, dz0) := xz in inBounds g (originX b + dx0) (originZ b + dz0))).
  { intros [a c]. unfold inBounds. now rewrite W, D. }
  assert (EI : forall xz : Z * Z,
             (let '(dx0, dz0) := xz in
              Z.to_nat (index (claimTile b g (dx, dz)) (originX b + dx0) (originZ b + dz0))) =
             (let '(dx0, dz0) := xz in
              Z.to_nat (index g (originX b + dx0) (originZ b + dz0)))).
  { intros [a c]. unfold index. now rewrite W. }
  rewrite (List.filter_ext _ _ EF). rewrite (List.map_ext _ _ EI).
  destruct (inBounds g (originX b + dx) (originZ b + dz)); reflexivity.
Qed.

Lemma claimFootprint_lookup g b j :
  gridInv g ->
  tiles (claimFootprint g b) !! j =
  if decide (j ∈ footprintIndices g b) then paint b <$> tiles g !! j else tiles g !! j.
Proof.
  intros I. unfold claimFootprint.
  rewrite claimTiles_tiles by exact I.
  rewrite fold_alter_lookup by apply paint_idem. reflexivity.
Qed.

Lemma claimTile_frame b g dxz :
  buildings (claimTile b g dxz) = buildings g /\
  baseTileTypes (claimTile b g dxz) = baseTileTypes g.
Proof.
  destruct dxz as [dx dz]. unfold claimTile. cbv zeta.
  destruct (getTile g (originX b + dx) (originZ b + dz)); [|done].
  destruct (removeTreeAt_frame g (originX b + dx) (originZ b + dz)) as (_ & _ & Eb & Ebt & _).
  set (g2 := (removeTreeAt g (originX b + dx) (originZ b + dz)).2) in *.
  unfold update_tile. now destruct (_ <? 0)%Z.
Qed.

Lemma claimFootprint_frame g b :
  buildings (claimFootprint g b) = buildings g /\
  baseTileTypes (claimFootprint g b) = baseTileTypes g.
Proof.
  unfold claimFootprint.
  apply (fold_left_preserves
           (fun g' => buildings g' = buildings g /\ baseTileTypes g' = baseTileTypes g));
    [done|].
  intros g' dxz [E1 E2] _. destruct (claimTile_frame b g' dxz) as [-> ->]. done.
Qed.

Lemma claimTile_treesOk b g dxz :
  gridInv g -> treesOk g -> treesOk (claimTile b g dxz).
Proof.
  destruct dxz as [dx dz]. intros I T. unfold claimTile. cbv zeta.
  destruct (getTile g (originX b + dx) (originZ b + dz)) as [t0|] eqn:GT; [|done].
  apply getTile_Some in GT. destruct GT as [B _].
  destruct (gridInv_removeTreeAt g (originX b + dx) (originZ b + dz) I) as [I2 N2].
  pose proof (treesOk_removeTreeAt g (originX b + dx) (originZ b + dz) I T) as T2.
  pose proof (sameTerrain_removeTreeAt g (originX b + dx) (originZ b + dz)) as S2.
  set (g2 := (removeTreeAt g (originX b + dx) (originZ b + dz)).2) in *.
  assert (Ei : index g2 (originX b + dx) (originZ b + dz)
               = index g (originX b + dx) (originZ b + dz)).
  { unfold index. destruct S2 as (-> & _). reflexivity. }
  apply treesOk_update_tile; [|done]. intros t Ht. rewrite Ei in Ht. now apply N2.
Qed.

Lemma claimFootprint_treesOk g b :
  gridInv g -> treesOk g -> treesOk (claimFootprint g b).
Proof.
  intros I T. unfold claimFootprint.
  apply (fold_left_preserves (fun g' => gridInv g' /\ treesOk g')); [done|].
  intros g' dxz [I' T'] _. split; [now apply claimTile_keeps|now apply claimTile_treesOk].
Qed.

Lemma footprintIndices_elem g b j :
  j ∈ footprintIndices g b ->
  exists dx dz, (dx, dz) ∈ grid_coords (b_width b) (b_depth b) /\
    inBounds g (originX b + dx) (originZ b + dz) = true /\
    j = Z.to_nat (index g (originX b + dx) (originZ b + dz)).
Proof.
  unfold footprintIndices. intros In. apply list_elem_of_In, in_map_iff in In.
  destruct In as ([dx dz] & <- & In). apply filter_In in In. destruct In as [In B].
  exists dx, dz. split; [now apply list_elem_of_In|done].
Qed.

Lemma isFootprintFree_tiles g b :
  gridInv g ->
  isFootprintFree g (originX b) (originZ b) (b_width b) (b_depth b) = true ->
  forall j t, j ∈ footprintIndices g b -> tiles g !! j = Some t ->
              type t = grass /\ occupantId t = None.
Proof.
  intros (I1 & _) F j t In Hj. rewrite Forall_lookup in I1.
  destruct (footprintIndices_elem g b j In) as (dx & dz & Hc & B & ->).
  unfold isFootprintFree in F. rewrite forallb_forall in F.
  specialize (F (dx, dz) ltac:(now apply list_elem_of_In)). cbv beta iota in F.
  unfold getTile, tileAt in F. rewrite B in F. cbn [negb] in F.
  pose proof (index_nonneg g _ _ B) as Hi.
  destruct (Z.ltb_spec (index g (originX b + dx) (originZ b + dz)) 0); [lia|].
  rewrite Hj in F. apply negb_true_iff, orb_false_iff in F. destruct F as [Tg _].
  apply negb_false_iff, bool_decide_eq_true in Tg. split; [done|].
  now apply tileOk_grass_unoccupied; [apply (I1 _ _ Hj)|].
Qed.

Lemma searchFootprint_free g x z fuel : forall rng w d oX oZ,
  (searchFootprint g x z fuel rng).1 = Some (w, d, oX, oZ) ->
  isFootprintFree g oX oZ w d = true.
Proof.
  induction fuel as [|fuel IH]; intros rng w d oX oZ; cbn [searchFootprint]; [discriminate|].
  destruct (Rng.int 1 3 rng) as [w0 rng1].
  destruct (Rng.int 1 3 rng1) as [d0 rng2].
  destruct (Rng.int 0 (w0 - 1) rng2) as [ox rng3].
  destruct (Rng.int 0 (d0 - 1) rng3) as [oz rng4].
  destruct (isFootprintFree g (x - ox) (z - oz) w0 d0) eqn:F.
  - cbn [fst]. intros E. congruence.
  - apply IH.
Qed.

Lemma JsMap_elem_set_NoDup {K V} `{EqDecision K} (m : list (K * V)) k v k' v' :
  NoDup (JsMap.keys m) -> (k', v') ∈ JsMap.set m k v ->
  (k' = k /\ v' = v) \/ (k' <> k /\ (k', v') ∈ m).
Proof.
  intros ND E. destruct (decide (k' = k)) as [->|N].
  - left. split; [done|].
    pose proof (JsMap_elem_get _ _ _ (JsMap_NoDup_set m k v ND) E) as G.
    rewrite JsMap_get_set_eq in G. now injection G.
  - right. split; [done|]. apply JsMap_elem_set in E. destruct E as [[? _]|E]; done.
Qed.

(** The registries after a record is stored and its free footprint is
    claimed. *)
Lemma registryOk_claim g b :
  gridInv g -> registryOk g ->
  (forall j t, j ∈ footprintIndices g b -> tiles g !! j = Some t ->
               type t = grass /\ occupantId t = None) ->
  registryOk
    (claimFootprint (set_buildings (JsMap.set (buildings g) (b_id b) b) g) b).
Proof.
  intros I (T & [ND P] & Wk) Free.
  set (g1 := set_buildings (JsMap.set (buildings g) (b_id b) b) g).
  assert (I1 : gridInv g1) by exact I.
  destruct (claimFootprint_keeps g1 b I1) as [I2 (W & D & _)].
  destruct (claimFootprint_frame g1 b) as [Eb Ebt].
  split; [|split].
  - apply claimFootprint_treesOk; [done|]. now apply treesOk_set_buildings.
  - split.
    + rewrite Eb. cbn [g1 buildings set_buildings]. now apply JsMap_NoDup_set.
    + intros k b0 E. rewrite Eb in E. cbn [g1 buildings set_buildings] in E.
      rewrite (footprintIndices_terrain g1 _ b0 W D).
      change (footprintIndices g1 b0) with (footprintIndices g b0).
      apply JsMap_elem_set_NoDup in E; [|exact ND]. destruct E as [[-> ->]|[Nk E]].
      * split; [done|]. intros j t' In Hj. rewrite claimFootprint_lookup in Hj by done.
        change (footprintIndices g1 b) with (footprintIndices g b) in Hj.
        destruct (decide (j ∈ footprintIndices g b)); [|done].
        change (tiles g1) with (tiles g) in Hj.
        destruct (tiles g !! j); [|discriminate]. injection Hj as <-. done.
      * destruct (P k b0 E) as [Id F]. split; [done|]. intros j t' In Hj.
        rewrite claimFootprint_lookup in Hj by done.
        change (footprintIndices g1 b) with (footprintIndices g b) in Hj.
        change (tiles g1) with (tiles g) in Hj.
        destruct (decide (j ∈ footprintIndices g b)) as [Inb|_]; [|now apply (F j)].
        destruct (tiles g !! j) as [t|] eqn:Ht; [|discriminate].
        destruct (Free j t Inb Ht) as [Tg _]. destruct (F j t In Ht) as [Tf _]. congruence.
  - intros j t' Hj. rewrite Ebt. change (baseTileTypes g1) with (baseTileTypes g).
    rewrite claimFootprint_lookup in Hj by done.
    change (footprintIndices g1 b) with (footprintIndices g b) in Hj.
    change (tiles g1) with (tiles g) in Hj.
    destruct (decide (j ∈ footprintIndices g b)) as [Inb|_]; [|now apply Wk].
    destruct (tiles g !! j) as [t|] eqn:Ht; [|discriminate]. injection Hj as <-.
    destruct (Free j t Inb Ht) as [Tg _]. rewrite <- (Wk j t Ht), Tg. cbn.
    split; discriminate.
Qed.

Lemma registryOk_placeHouse pc g x z :
  gridInv g -> registryOk g -> registryOk (placeHouse pc g x z).2.
Proof.
  intros I R. unfold placeHouse.
  destruct (getTile g x z) as [tile|]; [|done].
  case_if; [done|].
  destruct (searchFootprint _ _ _ _ _) as [found rng] eqn:S.
  case_if; [done|].
  match goal with H : negb (bool_decide (is_Some found)) && _ = false |- _ =>
    rename H into Room end.
  assert (Free : forall w d oX oZ,
            match found with Some f => f | None => (1%Z, 1%Z, x, z) end = (w, d, oX, oZ) ->
            isFootprintFree g oX oZ w d = true).
  { intros w d oX oZ E. destruct found as [f|].
    - subst f. eapply searchFootprint_free. rewrite S. reflexivity.
    - injection E as <- <- <- <-. cbn in Room. now apply negb_false_iff in Room. }
  destruct (match found with Some f => f | None => _ end) as [[[w d] oX] oZ].
  specialize (Free w d oX oZ eq_refl).
  unfold Rng.range, Rng.chance, Rng.int, Rng.range, Rng.next. cbv beta iota zeta.
  cbn [snd].
  match goal with
  | |- context [claimFootprint _ ?b] =>
      apply (registryOk_claim g b I R); apply isFootprintFree_tiles; [exact I|exact Free]
  end.
Qed.

Lemma registryOk_apply pc g tool x z :
  gridInv g -> registryOk g -> registryOk (apply pc g tool x z).2.
Proof.
  intros I R. unfold apply. case_if; [done|].
  destruct tool.
  - now apply registryOk_placeHouse.
  - pose proof (registryOk_placeRoad g x z I R). now destruct (placeRoad g x z).
  - pose proof (registryOk_erase g x z I R). now destruct (erase g x z).
Qed.

Lemma registryOk_scanTile tornado sc tx tz :
  gridInv (sc_world sc) -> registryOk (sc_world sc) ->
  registryOk (sc_world (scanTile tornado sc tx tz)).
Proof.
  intros I R. unfold scanTile.
  case_if; [done|]. case_if; [done|]. cbv zeta.
  pose proof (registryOk_removeTreeAt (sc_world sc) tx tz I R) as R2.
  destruct (removeTreeAt (sc_world sc) tx tz) as [removed g2]. exact R2.
Qed.

Lemma registryOk_scanTornado sc tornado :
  gridInv (sc_world sc) -> registryOk (sc_world sc) ->
  gridInv (sc_world (scanTornado sc tornado)) /\
  registryOk (sc_world (scanTornado sc tornado)).
Proof.
  intros I R. unfold scanTornado.
  destruct (worldToTile _ _ _) as [[cx cz]|]; [|done].
  apply (fold_left_preserves
           (fun sc' => gridInv (sc_world sc') /\ registryOk (sc_world sc'))); [done|].
  intros sc' [dx dz] [I' R'] _.
  split; [now apply scanTile_keeps|now apply registryOk_scanTile].
Qed.

Lemma registryOk_destroyBuilding st b :
  gridInv st.2 -> registryOk st.2 -> registryOk (destroyBuilding st b).2.
Proof.
  destruct st as [c g]. cbn [snd]. intros I R. unfold destroyBuilding.
  case_if; cbn [snd]; [done|]. exact (registryOk_destroy g b I R).
Qed.

Lemma registryOk_markDestructionPath ws g views :
  gridInv g -> registryOk g -> registryOk (markDestructionPath ws g views).2.
Proof.
  intros I R. unfold markDestructionPath.
  match goal with
  | |- context [fold_left scanTornado views ?sc0] => set (s0 := sc0)
  end.
  assert (K : gridInv (sc_world (fold_left scanTornado views s0)) /\
              registryOk (sc_world (fold_left scanTornado views s0))).
  { apply (fold_left_preserves
             (fun sc' => gridInv (sc_world sc') /\ registryOk (sc_world sc'))); [done|].
    intros sc' t [I' R'] _. now apply registryOk_scanTornado. }
  destruct K as [I1 R1]. cbv zeta.
  set (sc1 := fold_left scanTornado views s0) in *.
  assert (K : gridInv (fold_left destroyBuilding (sc_ids sc1) (false, sc_world sc1)).2 /\
              registryOk (fold_left destroyBuilding (sc_ids sc1) (false, sc_world sc1)).2).
  { apply (fold_left_preserves (fun st => gridInv st.2 /\ registryOk st.2)); [done|].
    intros st b [I' R'] _.
    split; [now apply destroyBuilding_keeps|now apply registryOk_destroyBuilding]. }
  destruct (fold_left destroyBuilding _ _) as [bc g']. exact (proj2 K).
Qed.

Lemma treesOk_empty g : trees g = [] -> treesOk g.
Proof.
  intros E. split; rewrite E; [apply NoDup_nil_2|].
  intros k v In. now apply elem_of_nil in In.
Qed.

Lemma buildingsOk_empty g : buildings g = [] -> buildingsOk g.
Proof.
  intros E. split; rewrite E; [apply NoDup_nil_2|].
  intros k v In. now apply elem_of_nil in In.
Qed.

Lemma waterOk_types g g' :
  map type (tiles g') = map type (tiles g) -> baseTileTypes g' = baseTileTypes g ->
  waterOk g -> waterOk g'.
Proof.
  intros Ety Eb Wk j t' Hj. rewrite Eb.
  destruct (map_eq_lookup type _ _ _ _ Ety Hj) as (t & Ht & ->). now apply Wk.
Qed.

Lemma addTrees_registry (l : list TreeRecord) g :
  gridInv g -> Forall (fun t => t_id t <> EmptyString) l -> registryOk g ->
  registryOk (fold_left (fun g tree => addTree g (cloneTree tree)) l g).
Proof.
  intros I F R. rewrite Forall_forall in F.
  apply (fold_left_preserves (fun g' => gridInv g' /\ registryOk g')); [done|].
  intros g' t [I' R'] Ht. split; [|now apply registryOk_addTree].
  apply gridInv_addTree; [done|]. cbn [cloneTree t_id]. now apply F.
Qed.

Section RegistryOps.
Context `{JsMath}.

Lemma generateTreeAt_treesOk st xz :
  gridInv st.1 -> treesOk st.1 -> treesOk (generateTreeAt st xz).1.
Proof.
  destruct st as [g rng], xz as [x z]. cbn [fst]. intros I T.
  unfold generateTreeAt.
  destruct (getTile g x z) as [tile|]; [|done].
  unfold Rng.range, Rng.next. cbv zeta beta iota.
  repeat case_if; cbn [fst]; try done. now apply treesOk_addTree.
Qed.

Lemma generateTreeAt_buildings st xz :
  buildings (generateTreeAt st xz).1 = buildings st.1.
Proof.
  destruct st as [g rng], xz as [x z]. cbn [fst].
  unfold generateTreeAt.
  destruct (getTile g x z) as [tile|]; [|done].
  unfold Rng.range, Rng.next. cbv zeta beta iota.
  repeat case_if; cbn [fst]; try done.
  match goal with
  | |- buildings (addTree g ?tree) = _ =>
      destruct (addTree_cases g tree)
        as [->|(tile0 & trees0 & _ & _ & _ & _ & _ & _ & _ & _ & Eb & _)]; done
  end.
Qed.

Lemma generateTrees_treesOk g :
  Forall tileOk (tiles g) -> treesOk (generateTrees g).
Proof.
  intros I. unfold generateTrees.
  apply (fold_left_preserves (fun st => gridInv st.1 /\ treesOk st.1) generateTreeAt).
  - cbn [fst]. split; [now apply gridInv_clearTrees|now apply treesOk_empty].
  - intros st xz [I' T'] _.
    split; [now apply generateTreeAt_keeps|now apply generateTreeAt_treesOk].
Qed.

Lemma generateTrees_buildings g : buildings (generateTrees g) = buildings g.
Proof.
  unfold generateTrees.
  apply (fold_left_preserves (fun st => buildings st.1 = buildings g) generateTreeAt);
    [done|].
  intros st xz E _. now rewrite generateTreeAt_buildings.
Qed.

Lemma build_registryOk g :
  treeByTile g = [] -> buildings g = [] ->
  registryOk (captureBaseState (generateTrees (applyStreamWater (fillTiles g)))).
Proof.
  intros E Eb.
  pose proof (blankGrid_applyStreamWater _ (blankGrid_fillTiles g E)) as Bl.
  apply gridInv_blankGrid in Bl.
  set (g1 := applyStreamWater (fillTiles g)) in *.
  split; [|split].
  - apply (treesOk_frame (generateTrees g1)); try done; [eauto|].
    now apply generateTrees_treesOk, Bl.
  - apply buildingsOk_empty. cbn [captureBaseState buildings set_base].
    rewrite generateTrees_buildings. subst g1. unfold applyStreamWater.
    apply (fold_left_preserves (fun g' => buildings g' = [])); [exact Eb|].
    intros g' [x z] E' _. destruct (getTile g' x z); [|done]. case_if; [|done].
    unfold update_tile. now destruct (_ <? 0)%Z.
  - intros j t Hj. cbn [captureBaseState baseTileTypes set_base tiles] in *.
    rewrite lookup_map, Hj. cbn. split; [now intros ->|now intros [= ->]].
Qed.

Lemma GridWorld_new_registryOk config : registryOk (GridWorld_new config).
Proof.
  unfold GridWorld_new.
  repeat match goal with
         | |- context [let '(_, _) := ?p in _] => destruct p
         end.
  cbv zeta. apply build_registryOk; reflexivity.
Qed.

Lemma addTrees_treesOk (l : list TreeRecord) g :
  gridInv g -> Forall (fun t => t_id t <> EmptyString) l -> treesOk g ->
  treesOk (fold_left (fun g tree => addTree g (cloneTree tree)) l g).
Proof.
  intros I F R. rewrite Forall_forall in F.
  apply (fold_left_preserves (fun g' => gridInv g' /\ treesOk g')); [done|].
  intros g' t [I' R'] Ht. split; [|now apply treesOk_addTree].
  apply gridInv_addTree; [done|]. cbn [cloneTree t_id]. now apply F.
Qed.

Lemma resetTiles_registryOk g : worldInv g -> registryOk (resetTiles g).
Proof.
  intros [I B]. unfold resetTiles.
  match goal with
  | |- context [fold_left _ (baseTrees ?g1) ?g2] => set (g1' := g2)
  end.
  assert (I1 : gridInv g1') by (subst g1'; apply gridInv_blank).
  change (baseTrees _) with (baseTrees g).
  split; [|split].
  - apply treesOk_set_buildings, addTrees_treesOk; [done|done|now apply treesOk_empty].
  - now apply buildingsOk_empty.
  - apply (waterOk_types g1').
    + cbn [tiles set_buildings]. apply addTrees_types.
    + cbn [baseTileTypes set_buildings].
      now destruct (addTrees_terrain (baseTrees g) g1') as (?&?&?&?&?&?&?).
    + intros j t Hj. subst g1'.
      cbn [clearTrees tiles baseTileTypes set_tiles set_trees set_treeByTile] in *.
      lookup_map_in Hj. rewrite list_lookup_imap in Hj.
      destruct (tiles g !! j) as [t0|]; [|discriminate]. injection Hj as <-. cbn.
      destruct (baseTileTypes g !! j) as [ty|]; [|split; discriminate].
      split; [now intros ->|now intros [= ->]].
Qed.

Lemma reachable_consistent g : reachable noSnapshot g -> consistent g.
Proof.
  induction 1 as [config|g pc tool x z _ IH|g ws views _ IH|g _ IH|g s _ IH S].
  - split; [apply GridWorld_new_worldInv|apply GridWorld_new_registryOk].
  - destruct IH as [Wi R]. destruct (apply_keeps pc g tool x z (proj1 Wi)).
    split; [eapply worldInv_intro; eassumption|]. now apply registryOk_apply; [apply Wi|].
  - destruct IH as [Wi R]. destruct (markDestructionPath_keeps ws g views (proj1 Wi)).
    split; [eapply worldInv_intro; eassumption|].
    now apply registryOk_markDestructionPath; [apply Wi|].
  - destruct IH as [Wi R]. destruct (resetTiles_keeps g Wi).
    split; [eapply worldInv_intro; eassumption|]. now apply resetTiles_registryOk.
  - destruct S.
Qed.
End RegistryOps.

(* ===================================================================== *)
(** ** The snapshot of a grid restored on the grid itself *)
(* ===================================================================== *)

Lemma cloneTree_id t : cloneTree t = t.
Proof. now destruct t. Qed.

(** [addTree] on a free grass tile without a tree. *)
Lemma addTree_fresh g tree tile :
  inBounds g (t_x tree) (t_z tree) = true ->
  tiles g !! Z.to_nat (index g (t_x tree) (t_z tree)) = Some tile ->
  type tile = grass -> occupantId tile = None ->
  JsMap.get (treeByTile g) (index g (t_x tree) (t_z tree)) = None ->
  trees (addTree g tree) = JsMap.set (trees g) (t_id tree) tree /\
  tiles (addTree g tree) =
    alter (set_treeId (Some (t_id tree)))
          (Z.to_nat (index g (t_x tree) (t_z tree))) (tiles g) /\
  (forall i, JsMap.get (treeByTile (addTree g tree)) i =
             if decide (i = index g (t_x tree) (t_z tree)) then Some (t_id tree)
             else JsMap.get (treeByTile g) i).
Proof.
  intros B GT Ty Oc G. pose proof (index_nonneg g _ _ B) as Hi.
  unfold addTree. rewrite B. cbn [negb].
  rewrite (getTile_lookup g _ _ B), GT, Ty, Oc, G.
  rewrite bool_decide_eq_true_2 by done. cbn [negb orb Js.truthy].
  unfold update_tile. destruct (Z.ltb_spec (index g (t_x tree) (t_z tree)) 0); [lia|].
  cbn [trees tiles treeByTile set_trees set_treeByTile set_tiles].
  split; [done|]. split; [done|]. intros i.
  destruct (decide (i = index g (t_x tree) (t_z tree))) as [->|N].
  - apply JsMap_get_set_eq.
  - now apply JsMap_get_set_ne.
Qed.

Lemma keys_app {K V} (m1 m2 : list (K * V)) :
  JsMap.keys (m1 ++ m2) = JsMap.keys m1 ++ JsMap.keys m2.
Proof. unfold JsMap.keys. apply map_app. Qed.

Lemma treesRestored_step g m1 k v m2 g' :
  gridInv g -> treesOk g -> trees g = m1 ++ (k, v) :: m2 ->
  treesRestored g m1 g' ->
  treesRestored g (m1 ++ [(k, v)]) (addTree g' (cloneTree v)).
Proof.
  intros (I1 & I2 & I3) [ND P] Em (I' & W & D & Et & Ht & Hs & Hx).
  rewrite cloneTree_id. rewrite Forall_lookup in I1.
  destruct (P k v) as (Id & B & t & Hj & Tr).
  { rewrite Em. apply elem_of_app. right. apply elem_of_cons. now left. }
  pose proof (index_nonneg g _ _ B) as Hi.
  assert (Nk : k ∉ JsMap.keys m1).
  { rewrite Em, keys_app in ND. apply NoDup_app in ND. destruct ND as (_ & ND & _).
    intros In. apply (ND k In). cbn. apply elem_of_cons. now left. }
  assert (Tg : type t = grass).
  { destruct (I1 _ _ Hj) as [_ Tt]. apply Tt. congruence. }
  assert (Kn : k <> EmptyString).
  { apply (I3 (index g (t_x v) (t_z v))). rewrite <- Tr.
    rewrite (I2 _ _ Hj). now rewrite Z2Nat.id. }
  assert (Ei : index g' (t_x v) (t_z v) = index g (t_x v) (t_z v))
    by now apply index_frame.
  assert (B' : inBounds g' (t_x v) (t_z v) = true)
    by now rewrite (inBounds_frame g g').
  destruct (Hs _ _ Hj) as [t' Hj'].
  destruct (Ht _ _ Hj') as (t0 & Hj0 & Ty' & Oc' & Tr').
  rewrite Hj in Hj0. injection Hj0 as <-.
  assert (G : JsMap.get (treeByTile g') (index g (t_x v) (t_z v)) = None).
  { destruct (JsMap.get (treeByTile g') (index g (t_x v) (t_z v))) as [k'|] eqn:G; [|done].
    exfalso. destruct I' as (_ & I2' & _).
    pose proof (I2' _ _ Hj') as S. rewrite Z2Nat.id, G in S by done.
    destruct (Tr' _ S) as [Trk In]. rewrite Tr in Trk. injection Trk as ->. done. }
  destruct (addTree_fresh g' v t') as (E1 & E2 & E3); rewrite ?Ei; try done; [congruence|].
  rewrite Ei in E2, E3.
  split; [apply gridInv_addTree; [done|congruence]|].
  destruct (sameTerrain_addTree g' v) as (W' & D' & _).
  split; [congruence|]. split; [congruence|]. split.
  { rewrite E1, Et, Id. now apply JsMap_set_fresh. }
  split; [|split].
  - intros j t1 H1. rewrite E2 in H1.
    destruct (lookup_alter_inv _ _ _ _ _ H1) as (t2 & H2 & [[N ->]|[<- ->]]).
    + destruct (Ht _ _ H2) as (t3 & H3 & ? & ? & Tr3). exists t3. repeat split; try done.
      * now apply Tr3.
      * rewrite keys_app. apply elem_of_app. left. now apply Tr3.
    + rewrite Hj' in H2. injection H2 as <-. exists t. cbn. repeat split; try done.
      * congruence.
      * rewrite keys_app. apply elem_of_app. right. cbn. apply elem_of_cons. left. congruence.
  - intros j t1 H1. rewrite E2. destruct (Hs _ _ H1) as [t2 H2].
    rewrite list_lookup_alter. destruct (decide (_ = j)) as [<-|]; rewrite H2; cbn; eauto.
  - intros idx k0. rewrite E3. destruct (decide (idx = _)) as [->|N].
    + intros _. split; [done|]. rewrite E2, list_lookup_alter_eq, Hj'. cbn. eauto.
    + intros G0. destruct (Hx _ _ G0) as [? [t2 H2]]. split; [done|].
      rewrite E2, list_lookup_alter. destruct (decide (_ = _)) as [->|]; rewrite H2; cbn; eauto.
Qed.

Lemma treesRestored_all g :
  gridInv g -> treesOk g ->
  forall m2 m1 g', trees g = m1 ++ m2 -> treesRestored g m1 g' ->
    treesRestored g (trees g)
      (fold_left (fun g tree => addTree g (cloneTree tree))
                 (map cloneTree (JsMap.values m2)) g').
Proof.
  intros I T. induction m2 as [|[k v] m2 IH]; intros m1 g' Em R; cbn [fold_left map JsMap.values].
  - rewrite app_nil_r in Em. now rewrite Em.
  - rewrite cloneTree_id. apply (IH (m1 ++ [(k, v)])).
    + now rewrite <- app_assoc.
    + eapply treesRestored_step; eassumption.
Qed.

Lemma footprintIndices_intro g b dx dz :
  (dx, dz) ∈ grid_coords (b_width b) (b_depth b) ->
  inBounds g (originX b + dx) (originZ b + dz) = true ->
  Z.to_nat (index g (originX b + dx) (originZ b + dz)) ∈ footprintIndices g b.
Proof.
  intros In B. unfold footprintIndices. apply list_elem_of_In, in_map_iff.
  exists (dx, dz). split; [done|]. apply filter_In. split; [now apply list_elem_of_In|done].
Qed.

Section RoundTrip.
Context `{JsMath}.

Lemma restoreTile_buildings b g dxz : buildings (restoreTile b g dxz) = buildings g.
Proof.
  destruct dxz as [dx dz]. unfold restoreTile. cbv zeta. case_if; [done|].
  destruct (removeTreeAt_frame g (originX b + dx) (originZ b + dz)) as (_ & _ & Eb & _).
  set (g2 := (removeTreeAt g (originX b + dx) (originZ b + dz)).2) in *.
  unfold update_tile. now destruct (_ <? 0)%Z.
Qed.

Lemma restoreBuilding_buildings g b :
  buildings (restoreBuilding g b) = JsMap.set (buildings g) (b_id b) b.
Proof.
  unfold restoreBuilding. cbv zeta.
  apply (fold_left_preserves
           (fun g' => buildings g' = JsMap.set (buildings g) (b_id b) b)); [done|].
  intros g' dxz E _. now rewrite restoreTile_buildings.
Qed.

Lemma buildingsRestored_tile g k b g' dxz :
  gridInv g -> buildingsOk g -> (k, b) ∈ buildings g ->
  dxz ∈ grid_coords (b_width b) (b_depth b) ->
  buildingsRestored g g' -> buildingsRestored g (restoreTile b g' dxz).
Proof.
  intros (I1 & I2 & I3) [ND P] Eb In R. pose proof R as (I' & W & D & Et & Ht & Hx).
  destruct dxz as [dx dz]. rewrite Forall_lookup in I1.
  pose proof (restoreTile_keeps b g' (dx, dz) I') as [I'' _].
  revert I''. unfold restoreTile. cbv zeta.
  destruct (inBounds g' (originX b + dx) (originZ b + dz)) eqn:B'; cbn [negb];
    [|intros _; exact R].
  assert (B : inBounds g (originX b + dx) (originZ b + dz) = true)
    by now rewrite <- (inBounds_frame g g').
  assert (Ei : index g' (originX b + dx) (originZ b + dz)
               = index g (originX b + dx) (originZ b + dz)) by now apply index_frame.
  pose proof (index_nonneg g _ _ B) as Hi.
  pose proof (footprintIndices_intro g b dx dz In B) as Inj.
  destruct (P k b Eb) as [_ F].
  assert (G : JsMap.get (treeByTile g') (index g' (originX b + dx) (originZ b + dz)) = None).
  { rewrite Ei.
    destruct (JsMap.get (treeByTile g') _) as [k'|] eqn:G; [|done]. exfalso.
    destruct (Hx _ _ G) as [_ [t' Hj']]. destruct I' as (_ & I2' & _).
    pose proof (I2' _ _ Hj') as S. rewrite Z2Nat.id, G in S by done.
    destruct (Ht _ _ _ Hj' S) as (t & Hj & Tr). destruct (F _ _ Inj Hj) as [Tf _].
    destruct (I1 _ _ Hj) as [_ Tt]. destruct Tt as [Tg _]; congruence. }
  rewrite (removeTreeAt_absent g' _ _ G). cbn [snd]. rewrite Ei. intros I''.
  destruct (update_tile_frame g' (index g (originX b + dx) (originZ b + dz))
              (fun tile => set_occupantId (Some (b_id b)) (set_type foundation tile)))
    as (E1 & E2 & _ & E4 & E5 & _).
  split; [done|]. split; [congruence|]. split; [congruence|]. split; [congruence|].
  split.
  - intros j t1 k1 H1 Tr1. rewrite tiles_update_tile in H1 by done.
    destruct (lookup_alter_inv _ _ _ _ _ H1) as (t2 & H2 & [[N ->]|[<- ->]]);
      now apply (Ht _ t2).
  - intros idx k0. rewrite E1. intros G0. destruct (Hx _ _ G0) as [? [t2 H2]].
    split; [done|]. rewrite tiles_update_tile by done.
    rewrite list_lookup_alter. destruct (decide (_ = _)) as [->|]; rewrite H2; cbn; eauto.
Qed.

Lemma buildingsRestored_building g k b g' :
  gridInv g -> buildingsOk g -> (k, b) ∈ buildings g ->
  buildingsRestored g g' -> buildingsRestored g (restoreBuilding g' b).
Proof.
  intros I Bk Eb R. unfold restoreBuilding. cbv zeta.
  apply (fold_left_preserves (buildingsRestored g)); [exact R|].
  intros g'' dxz R' In. eapply buildingsRestored_tile; eassumption.
Qed.

Lemma buildingsRestored_all g :
  gridInv g -> buildingsOk g ->
  forall bs2 bs1 g', buildings g = bs1 ++ bs2 ->
    buildingsRestored g g' -> buildings g' = bs1 ->
    buildingsRestored g (fold_left restoreBuilding (JsMap.values bs2) g') /\
    buildings (fold_left restoreBuilding (JsMap.values bs2) g') = buildings g.
Proof.
  intros I Bk. induction bs2 as [|[k b] bs2 IH]; intros bs1 g' Em R Eb;
    cbn [fold_left map JsMap.values].
  - rewrite app_nil_r in Em. split; [done|congruence].
  - assert (In : (k, b) ∈ buildings g).
    { rewrite Em. apply elem_of_app. right. apply elem_of_cons. now left. }
    apply (IH (bs1 ++ [(k, b)])).
    + now rewrite <- app_assoc.
    + eapply buildingsRestored_building; eassumption.
    + cbn [snd]. rewrite restoreBuilding_buildings, Eb. destruct Bk as [ND P].
      destruct (P k b In) as [-> _]. apply JsMap_set_fresh.
      rewrite Em, keys_app in ND. apply NoDup_app in ND. destruct ND as (_ & ND & _).
      intros In1. apply (ND _ In1). cbn. apply elem_of_cons. now left.
Qed.
End RoundTrip.

Lemma fold_alter_length {A} (f : A -> A) (idxs : list nat) (l : list A) :
  length (fold_left (fun ts i => alter f i ts) idxs l) = length l.
Proof.
  revert l. induction idxs as [|i idxs IH]; intros l; cbn [fold_left]; [done|].
  now rewrite IH, length_alter.
Qed.

Lemma map_type_length (l1 l2 : list Tile) :
  map type l1 = map type l2 -> length l1 = length l2.
Proof. intros E. now rewrite <- (length_map type l1), E, length_map. Qed.

Section RoundTripTypes.
Context `{JsMath}.

Lemma restoreBuilding_length g b :
  length (tiles (restoreBuilding g b)) = length (tiles g).
Proof.
  rewrite <- (length_map type (tiles (restoreBuilding g b))).
  unfold restoreBuilding. cbv zeta. rewrite restoreTiles_types.
  now rewrite fold_alter_length, length_map.
Qed.

(** [applySnapshot] never changes the number of tiles. *)
Lemma applySnapshot_length g s :
  length (tiles (applySnapshot g s)) = length (tiles g).
Proof.
  unfold applySnapshot. case_if; [done|].
  match goal with
  | |- context [fold_left restoreBuilding _ ?g0] => set (g3 := g0)
  end.
  assert (K : length (tiles g3) = length (tiles g)).
  { subst g3.
    match goal with
    | |- context [if negb ?c then repairWater ?g1 else _] => set (g1' := g1); set (c' := c)
    end.
    assert (L1 : length (tiles (if negb c' then repairWater g1' else g1'))
                 = length (tiles g)).
    { destruct (negb c'); subst g1';
        cbn [repairWater clearTrees tiles set_tiles set_trees set_treeByTile set_buildings];
        now rewrite ?length_imap, ?length_map. }
    destruct (s_trees s) as [[|tree rest]|].
    - rewrite (map_type_length _ _ (generateTrees_types _)). exact L1.
    - rewrite (map_type_length _ _ (addTrees_types (tree :: rest) _)). exact L1.
    - rewrite (map_type_length _ _ (generateTrees_types _)). exact L1. }
  clearbody g3. rewrite <- K.
  apply (fold_left_preserves (fun g' => length (tiles g') = length (tiles g3))); [done|].
  intros g' b E _. now rewrite restoreBuilding_length.
Qed.
End RoundTripTypes.

Lemma coveredIndices_elem g bs j :
  j ∈ coveredIndices g bs -> exists b, b ∈ bs /\ j ∈ footprintIndices g b.
Proof.
  unfold coveredIndices. intros In. apply list_elem_of_In, in_flat_map in In.
  destruct In as (b & Inb & Inj). exists b. split; now apply list_elem_of_In.
Qed.

Lemma values_elem {K V} (m : list (K * V)) v :
  v ∈ JsMap.values m -> exists k, (k, v) ∈ m.
Proof.
  unfold JsMap.values. intros In. apply list_elem_of_fmap in In.
  destruct In as ([k v'] & -> & In). now exists k.
Qed.

Section RoundTripProof.
Context `{JsMath}.

Lemma addTrees_buildings (l : list TreeRecord) g :
  buildings (fold_left (fun g tree => addTree g (cloneTree tree)) l g) = buildings g.
Proof.
  apply (fold_left_preserves (fun g' => buildings g' = buildings g)); [done|].
  intros g' t E _.
  destruct (addTree_cases g' (cloneTree t))
    as [->|(tile0 & trees0 & _ & _ & _ & _ & _ & _ & _ & _ & Eb & _)]; congruence.
Qed.

Lemma round_trip_types g :
  gridInv g -> buildingsOk g -> waterOk g ->
  map type (tiles (applySnapshot g (toSnapshot g))) = map type (tiles g).
Proof.
  intros (I1 & _) [_ P] Wk. apply list_eq. intros j.
  destruct (map type (tiles (applySnapshot g (toSnapshot g))) !! j) as [ty'|] eqn:E.
  - destruct (applySnapshot_types g (toSnapshot g) j ty' eq_refl eq_refl E)
      as (t & Ht & C).
    rewrite lookup_map, Ht. cbn. f_equal.
    assert (Es : snapshotType g (toSnapshot g) j = type t).
    { unfold snapshotType. cbn [tileTypes toSnapshot]. now rewrite lookup_map, Ht. }
    destruct C as [[In ->]|[_ ->]].
    + cbn [s_buildings toSnapshot] in In.
      destruct (coveredIndices_elem _ _ _ In) as (b & Inb & Inj).
      destruct (values_elem _ _ Inb) as [k Ek].
      destruct (P k b Ek) as [_ F]. now destruct (F j t Inj Ht).
    + rewrite Es. destruct (existsb _ _); [done|].
      destruct (bool_decide (type t = grass)) eqn:Tg; [|done].
      destruct (bool_decide (baseTileTypes g !! j = Some water)) eqn:Bw; [|done].
      apply bool_decide_eq_true in Tg, Bw. apply (Wk j t Ht) in Bw. congruence.
  - symmetry. rewrite lookup_map in *.
    destruct (tiles (applySnapshot g (toSnapshot g)) !! j) eqn:E1; [discriminate|].
    apply lookup_ge_None in E1. rewrite applySnapshot_length in E1.
    apply lookup_ge_None in E1. now rewrite E1.
Qed.

Lemma round_trip_registries g :
  gridInv g -> registryOk g -> trees g <> [] ->
  trees (applySnapshot g (toSnapshot g)) = trees g /\
  buildings (applySnapshot g (toSnapshot g)) = buildings g.
Proof.
  intros I (T & Bk & Wk) Ne. unfold applySnapshot.
  cbn [toSnapshot s_width s_depth s_trees s_buildings tileTypes].
  rewrite !bool_decide_eq_true_2 by done. cbn [negb orb].
  destruct (map cloneTree (JsMap.values (trees g))) as [|tree rest] eqn:El.
  { destruct (trees g) as [|[k v] m]; [done|cbn in El; discriminate El]. }
  rewrite <- El. clear El tree rest.
  match goal with
  | |- context [fold_left _ (map cloneTree _) ?g0] => set (g4 := g0)
  end.
  assert (R0 : treesRestored g [] g4 /\ buildings g4 = []).
  { subst g4.
    match goal with
    | |- context [if negb ?c then repairWater ?g1 else _] => set (g1' := g1); set (c' := c)
    end.
    assert (B1 : blankGrid g1').
    { subst g1'. split; [done|].
      cbn [tiles set_tiles clearTrees set_trees set_treeByTile set_buildings].
      apply Forall_lookup. intros j t Hj.
      rewrite list_lookup_imap in Hj. lookup_map_in Hj.
      destruct (tiles g !! j); [|discriminate]. now injection Hj as <-. }
    assert (Tl : forall j,
               tiles (if negb c' then repairWater g1' else g1') !! j =
               (fun t => {| type := type t; height := height t;
                            occupantId := None; treeId := None |}) <$> tiles g !! j).
    { intros j.
      assert (E1 : tiles g1' !! j =
                   (fun t => {| type := type t; height := height t;
                                occupantId := None; treeId := None |}) <$> tiles g !! j).
      { subst g1'. cbn [tiles set_tiles]. rewrite list_lookup_imap.
        cbn [clearTrees tiles set_tiles set_trees set_treeByTile set_buildings].
        rewrite (lookup_map (set_treeId None)).
        unfold snapshotType. cbn [tileTypes toSnapshot]. rewrite (lookup_map type).
        now destruct (tiles g !! j). }
      destruct (negb c'); [|exact E1].
      unfold repairWater. cbn [tiles set_tiles]. rewrite list_lookup_imap, E1.
      destruct (tiles g !! j) as [t|] eqn:Ht; [|done].
      cbn [fmap option_fmap option_map type].
      destruct (bool_decide (type t = grass)) eqn:Tg; [|done].
      destruct (bool_decide (baseTileTypes g1' !! j = Some water)) eqn:Bw; [|done].
      apply bool_decide_eq_true in Tg, Bw. apply (Wk j t Ht) in Bw. congruence. }
    assert (B2 : blankGrid (if negb c' then repairWater g1' else g1')).
    { destruct (negb c'); [now apply blankGrid_repairWater|done]. }
    split; [|now destruct (negb c')].
    split; [now apply gridInv_blankGrid|].
    split; [now destruct (negb c')|]. split; [now destruct (negb c')|].
    split; [now destruct (negb c')|]. split; [|split].
    - intros j t' Hj. rewrite Tl in Hj. destruct (tiles g !! j) as [t|]; [|discriminate].
      injection Hj as <-. exists t. cbn. repeat split; discriminate.
    - intros j t Hj. rewrite Tl, Hj. cbn. eauto.
    - intros idx k. destruct B2 as [-> _]. discriminate. }
  destruct R0 as [R0 Eb0].
  pose proof (treesRestored_all g I T (trees g) [] g4 eq_refl R0) as R1.
  pose proof (addTrees_buildings (map cloneTree (JsMap.values (trees g))) g4) as Eb1.
  set (g5 := fold_left _ (map cloneTree _) g4) in *.
  destruct R1 as (I5 & W5 & D5 & Et5 & Ht5 & _ & Hx5).
  assert (Rb : buildingsRestored g g5).
  { split; [done|]. split; [done|]. split; [done|]. split; [done|]. split; [|done].
    intros j t' k Hj Tr. destruct (Ht5 _ _ Hj) as (t & Ht & _ & _ & Tk).
    exists t. split; [done|]. now apply Tk. }
  destruct (buildingsRestored_all g I Bk (buildings g) [] g5 eq_refl Rb) as [Rf Ebf];
    [congruence|].
  split; [|exact Ebf]. now destruct Rf as (_ & _ & _ & ? & _).
Qed.

(** C2 (amended).  On every grid with at least one tree that is reached
    from a freshly constructed one by the build tools, destruction
    passes and resets, restoring the grid's own snapshot leaves the
    tile types, the tree registry and the building registry as they
    were. *)
Theorem snapshot_round_trip g :
  reachable noSnapshot g -> trees g <> [] ->
  map type (tiles (applySnapshot g (toSnapshot g))) = map type (tiles g) /\
  trees (applySnapshot g (toSnapshot g)) = trees g /\
  buildings (applySnapshot g (toSnapshot g)) = buildings g.
Proof.
  intros R Ne. destruct (reachable_consistent g R) as [[I _] Rg].
  split; [|now apply round_trip_registries].
  destruct Rg as (_ & Bk & Wk). now apply round_trip_types.
Qed.
End RoundTripProof.

(* ===================================================================== *)
(** ** The repair of the water tiles *)
(* ===================================================================== *)

Section WaterRepair.
Context `{JsMath}.

(** C8 (amended).  A snapshot of matching dimensions without a water
    entry is restored.  Every tile under the footprint of a building of
    the snapshot ends as a foundation.  Of the other tiles, one that is
    grass in the snapshot and water in the base state ends as water,
    and one whose snapshot type is not grass ends with its snapshot
    type. *)
Theorem water_repair_on_restore g s j t :
  s_width s = width g -> s_depth s = depth g ->
  existsb (fun ty => bool_decide (ty = water)) (tileTypes s) = false ->
  tiles g !! j = Some t ->
  exists t', tiles (applySnapshot g s) !! j = Some t' /\
    (j ∈ coveredIndices g (s_buildings s) -> type t' = foundation) /\
    (~ j ∈ coveredIndices g (s_buildings s) ->
     (tileTypes s !! j = Some grass -> baseTileTypes g !! j = Some water ->
      type t' = water) /\
     (forall ty, tileTypes s !! j = Some ty -> ty <> grass -> type t' = ty)).
Proof.
  intros W D Nw Ht.
  destruct (tiles (applySnapshot g s) !! j) as [t'|] eqn:E.
  2:{ apply lookup_ge_None in E. rewrite applySnapshot_length in E.
      apply lookup_ge_None in E. congruence. }
  exists t'. split; [done|].
  assert (E' : map type (tiles (applySnapshot g s)) !! j = Some (type t'))
    by now rewrite lookup_map, E.
  destruct (applySnapshot_types g s j (type t') W D E') as (t0 & _ & C).
  rewrite Nw in C. split; [|intros Nin; split].
  - intros In. destruct C as [[_ ->]|[Nin _]]; [done|]. now destruct Nin.
  - intros Sg Bw. destruct C as [[In _]|[_ ->]]; [now destruct Nin|].
    unfold snapshotType. rewrite Sg, Bw.
    now rewrite !bool_decide_eq_true_2 by done.
  - intros ty Sty Ng. destruct C as [[In _]|[_ ->]]; [now destruct Nin|].
    unfold snapshotType. rewrite Sty.
    now rewrite (bool_decide_eq_false_2 (ty = grass)) by done.
Qed.
End WaterRepair.

(* ===================================================================== *)
(** ** The shape of a constructed grid *)
(* ===================================================================== *)

Lemma grid_coords_length w d :
  length (grid_coords w d) = (Z.to_nat d * Z.to_nat w)%nat.
Proof.
  unfold grid_coords. rewrite <- (length_seqZ 0 d) at 1.
  induction (seqZ 0 d) as [|z l IH]; cbn [flat_map length]; [done|].
  rewrite length_app, length_map, length_seqZ, IH. lia.
Qed.

Lemma grid_coords_elem w d x z :
  (x, z) ∈ grid_coords w d <-> (0 <= x < w)%Z /\ (0 <= z < d)%Z.
Proof.
  unfold grid_coords. rewrite list_elem_of_In, in_flat_map. split.
  - intros (z' & Hz & Hx). apply in_map_iff in Hx. destruct Hx as (x' & [= <- <-] & Hx).
    apply list_elem_of_In, elem_of_seqZ in Hz. apply list_elem_of_In, elem_of_seqZ in Hx. lia.
  - intros [Hx Hz]. exists z. split.
    + apply list_elem_of_In, elem_of_seqZ. lia.
    + apply in_map_iff. exists x. split; [done|]. apply list_elem_of_In, elem_of_seqZ. lia.
Qed.

(** The loops [for z ... for x ...] reach the pair [(x, z)] at the
    position [z * w + x]. *)
Lemma grid_coords_lookup w d x z :
  (0 <= x < w)%Z -> (0 <= z < d)%Z ->
  grid_coords w d !! Z.to_nat (z * w + x) = Some (x, z).
Proof.
  intros Hx Hz. unfold grid_coords.
  assert (G : forall (l : list Z) (k : nat) (z0 : Z),
             l !! k = Some z0 ->
             flat_map (fun z => map (fun x => (x, z)) (seqZ 0 w)) l
               !! (k * Z.to_nat w + Z.to_nat x)%nat = Some (x, z0)).
  { induction l as [|a l IH]; intros k z0 Hk; [done|]. cbn [flat_map].
    destruct k as [|k].
    - injection Hk as ->. rewrite lookup_app_l by (rewrite length_map, length_seqZ; lia).
      rewrite lookup_map, lookup_seqZ_lt by lia. cbn. do 2 f_equal. lia.
    - rewrite lookup_app_r by (rewrite length_map, length_seqZ; lia).
      rewrite length_map, length_seqZ.
      replace (S k * Z.to_nat w + Z.to_nat x - Z.to_nat w)%nat
        with (k * Z.to_nat w + Z.to_nat x)%nat by lia.
      now apply IH. }
  replace (Z.to_nat (z * w + x)) with (Z.to_nat z * Z.to_nat w + Z.to_nat x)%nat by nia.
  apply G. rewrite lookup_seqZ_lt by lia. f_equal. lia.
Qed.

Section Shape.
Context `{JsMath}.

Lemma applyStreamWater_shape g :
  width (applyStreamWater g) = width g /\ depth (applyStreamWater g) = depth g /\
  tileSize (applyStreamWater g) = tileSize g /\ seed (applyStreamWater g) = seed g /\
  heightField (applyStreamWater g) = heightField g /\
  buildings (applyStreamWater g) = buildings g /\
  length (tiles (applyStreamWater g)) = length (tiles g) /\
  map height (tiles (applyStreamWater g)) = map height (tiles g).
Proof.
  unfold applyStreamWater.
  apply (fold_left_preserves
           (fun g' => width g' = width g /\ depth g' = depth g /\
                      tileSize g' = tileSize g /\ seed g' = seed g /\
                      heightField g' = heightField g /\ buildings g' = buildings g /\
                      length (tiles g') = length (tiles g) /\
                      map height (tiles g') = map height (tiles g))); [done|].
  intros g' [x z] (W & D & T & S & Hf & B & L & Hh) _.
  destruct (getTile g' x z); [|done]. case_if; [|done].
  unfold update_tile. destruct (_ <? 0)%Z; [done|].
  cbn [width depth tileSize seed heightField buildings tiles set_tiles].
  rewrite length_alter. repeat (split; [done|]). rewrite <- Hh.
  apply list_eq. intros j. rewrite !lookup_map, list_lookup_alter.
  destruct (decide (_ = j)) as [->|]; [|done]. now destruct (tiles g' !! j).
Qed.

(** The constructor takes the dimensions, tile size and seed of the
    configuration, registers no building, and creates one tile per
    pair of the grid and one height per vertex. *)
Lemma GridWorld_new_shape config :
  width (GridWorld_new config) = c_width config /\
  depth (GridWorld_new config) = c_depth config /\
  tileSize (GridWorld_new config) = c_tileSize config /\
  seed (GridWorld_new config) = c_seed config /\
  buildings (GridWorld_new config) = [] /\
  length (tiles (GridWorld_new config))
    = (Z.to_nat (c_depth config) * Z.to_nat (c_width config))%nat /\
  length (heightField (GridWorld_new config))
    = (Z.to_nat (c_depth config + 1) * Z.to_nat (c_width config + 1))%nat /\
  baseTileTypes (GridWorld_new config) = map type (tiles (GridWorld_new config)).
Proof.
  unfold GridWorld_new.
  repeat match goal with
         | |- context [let '(_, _) := ?p in _] => destruct p
         end.
  cbv zeta.
  match goal with
  | |- context [applyStreamWater ?g0] => set (g2 := g0)
  end.
  destruct (applyStreamWater_shape g2) as (W & D & T & S & Hf & B & L & _).
  destruct (generateTrees_keeps_terrain (applyStreamWater g2))
    as (W' & D' & T' & S' & Hf' & _).
  pose proof (generateTrees_buildings (applyStreamWater g2)) as B'.
  pose proof (map_type_length _ _ (generateTrees_types (applyStreamWater g2))) as L'.
  cbn [captureBaseState width depth tileSize seed buildings tiles heightField
       baseTileTypes set_base].
  rewrite W', D', T', S', B', L', Hf', W, D, T, S, B, L, Hf. subst g2.
  cbn [fillTiles fillHeightField width depth tileSize seed buildings tiles heightField
       set_tiles set_heightField set_hills].
  rewrite !length_map, !grid_coords_length. done.
Qed.
End Shape.

(* ===================================================================== *)
(** ** Closed instances *)
(* ===================================================================== *)

Lemma keys_nil {K V} (m : list (K * V)) : JsMap.keys m = [] -> m = [].
Proof. now destruct m. Qed.

(** The world [brook], read by evaluation. *)
Lemma brook_survey :
  Examples.survey Examples.brook =
  (["t-0-9"; "t-0-11"]%string,
   [grass; grass; grass; grass; water; grass; grass; grass; grass; grass; grass; grass],
   [], ["t-0-9"; "t-0-11"]%string).
Proof. vm_compute. reflexivity. Qed.

Lemma pair_eq_inv {A B} (a a' : A) (b b' : B) :
  (a, b) = (a', b') -> a = a' /\ b = b'.
Proof. intros E. split; [exact (f_equal fst E)|exact (f_equal snd E)]. Qed.

Lemma brook_facts :
  JsMap.keys (trees Examples.brook) = ["t-0-9"; "t-0-11"]%string /\
  baseTileTypes Examples.brook =
    [grass; grass; grass; grass; water; grass; grass; grass; grass; grass; grass; grass] /\
  JsMap.keys (trees Examples.clearing) = [] /\
  JsMap.keys (trees (@applySnapshot RationalMath Examples.clearing
                                    (toSnapshot Examples.clearing)))
  = ["t-0-9"; "t-0-11"]%string.
Proof.
  pose proof brook_survey as S. unfold Examples.survey in S. cbv zeta in S.
  apply pair_eq_inv in S. destruct S as [S E4].
  apply pair_eq_inv in S. destruct S as [S E3].
  apply pair_eq_inv in S. destruct S as [E1 E2].
  exact (conj E1 (conj E2 (conj E3 E4))).
Qed.

Section Instances.
Context `{JsMath}.

(** The snapshot [namelessTree] restored on a grid of one column and
    two tiles. *)
Lemma nameless_tree_under_building g t0 t1 :
  width g = 1%Z -> depth g = 2%Z -> tiles g = [t0; t1] ->
  tiles (applySnapshot g Examples.namelessTree) !! 0%nat =
  Some {| type := foundation; height := height t0;
          occupantId := Some "b"%string; treeId := Some EmptyString |}.
Proof.
  destruct g as [w d ts sd tl hf bs tr tbt bty btr s1 s2 s3 s4 s5 hl].
  cbn [width depth tiles]. intros -> -> ->. vm_compute. reflexivity.
Qed.
End Instances.

(** C1.  The code breaks the tile invariant on a snapshot whose tree has
    the empty id: [removeTreeAt] takes the empty id for no tree, so when
    the snapshot [namelessTree] is restored on the lawn, the building of
    the snapshot claims the tile of that tree without removing it.  The
    first tile is then a foundation owned by the building that still
    carries the tree id of the snapshot, the empty string. *)
Lemma tile_invariant_broken_by_nameless_tree :
  @reachable RationalMath (fun _ => True) Examples.overbuilt /\
  exists t, tiles Examples.overbuilt !! 0%nat = Some t /\
            treeId t = Some EmptyString /\ type t = foundation /\
            occupantId t = Some "b"%string.
Proof.
  split; [apply reach_snapshot; [apply reach_new|exact I]|].
  destruct (@GridWorld_new_shape RationalMath (Examples.config 1 2 1))
    as (W & D & _ & _ & _ & L & _).
  destruct (tiles Examples.lawn) as [|t0 [|t1 [|t2 l]]] eqn:E; try discriminate L.
  eexists. split.
  - exact (@nameless_tree_under_building RationalMath Examples.lawn t0 t1 W D E).
  - split; [reflexivity|]. split; reflexivity.
Qed.

Lemma tile_invariant_reachable_witness :
  @reachable RationalMath snapshotTreeIdsTruthy
     (apply Examples.pc0 Examples.lawn Tool.house 0 0).2 /\
  Forall (fun t => (occupantId t <> None -> type t = foundation) /\
                   (treeId t <> None -> type t = grass /\ occupantId t = None))
         (tiles (apply Examples.pc0 Examples.lawn Tool.house 0 0).2).
Proof.
  assert (R : @reachable RationalMath snapshotTreeIdsTruthy
                (apply Examples.pc0 Examples.lawn Tool.house 0 0).2)
    by (apply reach_apply, reach_new).
  split; [exact R|]. apply Forall_forall. intros t Ht.
  exact (@tile_invariant_reachable RationalMath _ R t Ht).
Defined.

(** C2, as stated, fails: the two trees of the brook were removed by
    roads that were erased again; the snapshot of that grid holds no
    tree, and restoring it generates the trees anew. *)
Lemma round_trip_regenerates_trees :
  @reachable RationalMath noSnapshot Examples.clearing /\
  trees Examples.clearing = [] /\
  JsMap.keys (trees (@applySnapshot RationalMath Examples.clearing
                                    (toSnapshot Examples.clearing)))
  = ["t-0-9"; "t-0-11"]%string.
Proof.
  destruct brook_facts as (_ & _ & E3 & E4).
  split; [unfold Examples.pave; repeat apply reach_apply; apply reach_new|].
  split; [exact (keys_nil _ E3)|exact E4].
Qed.

Lemma snapshot_round_trip_witness :
  @reachable RationalMath noSnapshot Examples.brook /\
  trees Examples.brook <> [] /\
  map type (tiles (@applySnapshot RationalMath Examples.brook (toSnapshot Examples.brook)))
  = map type (tiles Examples.brook) /\
  trees (@applySnapshot RationalMath Examples.brook (toSnapshot Examples.brook))
  = trees Examples.brook /\
  buildings (@applySnapshot RationalMath Examples.brook (toSnapshot Examples.brook))
  = buildings Examples.brook.
Proof.
  assert (R : @reachable RationalMath noSnapshot Examples.brook) by apply reach_new.
  assert (N : trees Examples.brook <> []).
  { destruct brook_facts as (E1 & _). intros E. rewrite E in E1. discriminate E1. }
  split; [exact R|]. split; [exact N|].
  exact (@snapshot_round_trip RationalMath _ R N).
Defined.

Lemma construction_is_deterministic_witness :
  c_width (Examples.config 1 12 3) = c_width (Examples.config 1 12 3) /\
  heightField (@GridWorld_new RationalMath (Examples.config 1 12 3))
  = heightField (@GridWorld_new RationalMath (Examples.config 1 12 3)) /\
  map type (tiles (@GridWorld_new RationalMath (Examples.config 1 12 3)))
  = map type (tiles (@GridWorld_new RationalMath (Examples.config 1 12 3))) /\
  trees (@GridWorld_new RationalMath (Examples.config 1 12 3))
  = trees (@GridWorld_new RationalMath (Examples.config 1 12 3)).
Proof.
  split; [reflexivity|].
  exact (@construction_is_deterministic RationalMath _ _
           eq_refl eq_refl eq_refl eq_refl).
Defined.

Lemma tornado_destroys_centred_building_witness :
  tileSize Examples.block = 1 /\
  tv_radius Examples.twister = 4 /\
  (forall dx dz, inFootprint (Examples.hut "b" 0 0 3 3) dx dz ->
     index Examples.block (0 + dx) (0 + dz)
       ∈ destroyedTileSet
           (markDestructionPath WeatherSystem_new Examples.block [Examples.twister]).1.2) /\
  JsMap.has (buildings (markDestructionPath WeatherSystem_new Examples.block
                                            [Examples.twister]).2) "b"%string = false /\
  Forall (fun t => occupantId t <> Some "b"%string)
         (tiles (markDestructionPath WeatherSystem_new Examples.block
                                     [Examples.twister]).2) /\
  dr_buildingsChanged
    (markDestructionPath WeatherSystem_new Examples.block [Examples.twister]).1.1 = true.
Proof.
  split; [reflexivity|]. split; [reflexivity|].
  apply (tornado_destroys_centred_building WeatherSystem_new Examples.block
           (Examples.hut "b" 0 0 3 3) Examples.twister);
    try reflexivity; try discriminate.
  intros dx dz [Hx Hz]. cbn in Hx, Hz.
  assert (Dx : dx = 0%Z \/ dx = 1%Z \/ dx = 2%Z) by lia.
  assert (Dz : dz = 0%Z \/ dz = 1%Z \/ dz = 2%Z) by lia.
  destruct Dx as [->|[->| ->]], Dz as [->|[->| ->]];
    (split; [reflexivity|eexists; split; reflexivity]).
Defined.

Lemma applySnapshot_dimension_mismatch_witness :
  (s_width Examples.wide <> width Examples.drained \/
   s_depth Examples.wide <> depth Examples.drained) /\
  @applySnapshot RationalMath Examples.drained Examples.wide = Examples.drained.
Proof.
  assert (D : s_width Examples.wide <> width Examples.drained \/
              s_depth Examples.wide <> depth Examples.drained) by (left; discriminate).
  split; [exact D|].
  exact (@applySnapshot_dimension_mismatch RationalMath _ _ D).
Defined.

(** C8, as stated, fails: the snapshot [dammed] of the brook has no
    water; its tile 4 is grass and was water in the base state, but the
    building of the snapshot stands on it, and it ends as a foundation. *)
Lemma water_repair_overbuilt :
  s_width Examples.dammed = width Examples.brook /\
  s_depth Examples.dammed = depth Examples.brook /\
  existsb (fun ty => bool_decide (ty = water)) (tileTypes Examples.dammed) = false /\
  tileTypes Examples.dammed !! 4%nat = Some grass /\
  baseTileTypes Examples.brook !! 4%nat = Some water /\
  map type (tiles (@applySnapshot RationalMath Examples.brook Examples.dammed)) !! 4%nat
  = Some foundation.
Proof.
  destruct (@GridWorld_new_shape RationalMath (Examples.config 1 12 2))
    as (W & D & _ & _ & _ & L & _).
  change (c_width (Examples.config 1 12 2)) with 1%Z in W.
  change (c_depth (Examples.config 1 12 2)) with 12%Z in D.
  change (Z.to_nat (c_depth (Examples.config 1 12 2)) *
          Z.to_nat (c_width (Examples.config 1 12 2)))%nat with 12%nat in L.
  destruct brook_facts as (_ & E2 & _).
  split; [exact (eq_sym W)|]. split; [exact (eq_sym D)|].
  split; [reflexivity|]. split; [reflexivity|].
  split; [rewrite E2; reflexivity|].
  assert (L' : length (tiles (@applySnapshot RationalMath Examples.brook Examples.dammed))
               = 12%nat) by (rewrite applySnapshot_length; exact L).
  destruct (lookup_lt_is_Some_2
              (tiles (@applySnapshot RationalMath Examples.brook Examples.dammed)) 4)
    as [t' Ht']; [rewrite L'; lia|].
  rewrite lookup_map, Ht'. cbn [fmap option_fmap option_map]. f_equal.
  assert (E' : map type (tiles (@applySnapshot RationalMath Examples.brook Examples.dammed))
               !! 4%nat = Some (type t')) by (rewrite lookup_map, Ht'; reflexivity).
  destruct (@applySnapshot_types RationalMath Examples.brook Examples.dammed 4 (type t')
              (eq_sym W) (eq_sym D) E') as (t0 & _ & [[_ C]|[Nin _]]);
    [exact C|].
  exfalso. apply Nin.
  rewrite (coveredIndices_terrain (Examples.flat 1 12 [] [] []) Examples.brook
             (s_buildings Examples.dammed) W D).
  vm_compute. apply elem_of_cons. left. reflexivity.
Qed.

Lemma water_repair_on_restore_witness :
  s_width Examples.drainedSnapshot = width Examples.drained /\
  existsb (fun ty => bool_decide (ty = water)) (tileTypes Examples.drainedSnapshot) = false /\
  exists t',
    tiles (@applySnapshot RationalMath Examples.drained Examples.drainedSnapshot) !! 0%nat
    = Some t' /\
    (0%nat ∈ coveredIndices Examples.drained (s_buildings Examples.drainedSnapshot) ->
     type t' = foundation) /\
    (~ 0%nat ∈ coveredIndices Examples.drained (s_buildings Examples.drainedSnapshot) ->
     (tileTypes Examples.drainedSnapshot !! 0%nat = Some grass ->
      baseTileTypes Examples.drained !! 0%nat = Some water -> type t' = water) /\
     (forall ty, tileTypes Examples.drainedSnapshot !! 0%nat = Some ty ->
                 ty <> grass -> type t' = ty)).
Proof.
  split; [reflexivity|]. split; [reflexivity|].
  exact (@water_repair_on_restore RationalMath Examples.drained Examples.drainedSnapshot
           0%nat (Examples.plainTile grass None) eq_refl eq_refl eq_refl eq_refl).
Defined.


(* ===================================================================== *)
(** ** The seeded random stream *)
(* ===================================================================== *)

Lemma ToUint32_range n : (0 <= Js.ToUint32 n < Js.two32)%Z.
Proof. unfold Js.ToUint32. apply Z.mod_pos_bound. reflexivity. Qed.

Lemma ToInt32_congr a b :
  (a mod Js.two32 = b mod Js.two32)%Z -> Js.ToInt32 a = Js.ToInt32 b.
Proof. unfold Js.ToInt32. now intros ->. Qed.

Lemma next_unit r : 0 <= (Rng.next r).1 /\ (Rng.next r).1 < 1.
Proof.
  unfold Rng.next. cbn [fst].
  set (m := Rng.mix _).
  assert (Hm : (0 <= m < 4294967296)%Z) by apply ToUint32_range.
  split.
  - apply Qle_shift_div_l; [reflexivity|]. rewrite Qmult_0_l.
    change 0 with (inject_Z 0). rewrite <- Zle_Qle. lia.
  - apply Qlt_shift_div_r; [reflexivity|]. rewrite Qmult_1_l.
    change 4294967296 with (inject_Z 4294967296). rewrite <- Zlt_Qlt. lia.
Qed.

(** X2.  [hashSeed] returns an unsigned 32-bit number. *)
Theorem hashSeed_is_uint32 (inputs : list Z) :
  (0 <= hashSeed inputs < 4294967296)%Z.
Proof. apply ToUint32_range. Qed.

(** X3.  [hashSeed] reads each input through [value | 0]: inputs that
    agree modulo 2^32 give the same hash. *)
Theorem hashSeed_reads_inputs_as_int32 (l1 l2 : list Z) :
  Forall2 (fun a b => (a mod 4294967296 = b mod 4294967296)%Z) l1 l2 ->
  hashSeed l1 = hashSeed l2.
Proof.
  intros F. unfold hashSeed. f_equal. generalize 2166136261%Z.
  induction F as [|a b l1 l2 E F IH]; intros h; cbn [fold_left]; [done|].
  rewrite IH. unfold Js.xor, Js.or. now rewrite (ToInt32_congr a b E).
Qed.

Lemma hashSeed_reads_inputs_as_int32_witness :
  Forall2 (fun a b => (a mod 4294967296 = b mod 4294967296)%Z)
          [7%Z; (-1)%Z] [(7 + 4294967296)%Z; 4294967295%Z] /\
  hashSeed [7%Z; (-1)%Z] = hashSeed [(7 + 4294967296)%Z; 4294967295%Z].
Proof.
  assert (F : Forall2 (fun a b => (a mod 4294967296 = b mod 4294967296)%Z)
                      [7%Z; (-1)%Z] [(7 + 4294967296)%Z; 4294967295%Z])
    by (repeat constructor).
  split; [exact F|]. exact (hashSeed_reads_inputs_as_int32 _ _ F).
Defined.

(** X4.  The constructor of [SeededRng] keeps the seed modulo 2^32 and
    never starts from the state zero. *)
Theorem Rng_new_state (seed k : Z) :
  (0 < state (Rng.new seed) < 4294967296)%Z /\
  Rng.new (seed + k * 4294967296) = Rng.new seed.
Proof.
  split.
  - unfold Rng.new. cbv zeta. pose proof (ToUint32_range seed) as R.
    destruct (Z.eqb_spec (Js.ToUint32 seed) 0) as [E|N]; cbn [state]; [lia|].
    unfold Js.two32 in R. lia.
  - unfold Rng.new, Js.ToUint32, Js.two32. now rewrite Z.mod_add.
Qed.

(** X5.  [next()] returns a number of the interval from 0 (included) to 1
    (excluded). *)
Theorem Rng_next_in_unit_interval (r : SeededRng) :
  0 <= (Rng.next r).1 /\ (Rng.next r).1 < 1.
Proof. apply next_unit. Qed.

Lemma range_within lo hi r :
  lo <= hi ->
  lo <= (Rng.range lo hi r).1 /\
  ((Rng.range lo hi r).1 <= hi) /\ (lo < hi -> (Rng.range lo hi r).1 < hi).
Proof.
  intros L. unfold Rng.range. destruct (next_unit r) as [H0 H1].
  destruct (Rng.next r) as [v r']. cbn [fst] in *. split; [|split]; [nra|nra|].
  intros L'. nra.
Qed.

(** X6.  [range(min, max)] with [min <= max] returns a number from [min]
    to [max], and less than [max] when [min < max]. *)
Theorem Rng_range_within (lo hi : Q) (r : SeededRng) :
  lo <= hi ->
  lo <= (Rng.range lo hi r).1 /\
  ((Rng.range lo hi r).1 <= hi) /\ (lo < hi -> (Rng.range lo hi r).1 < hi).
Proof. apply range_within. Qed.

Lemma Rng_range_within_witness :
  0.6 <= 1.4 /\
  0.6 <= (Rng.range 0.6 1.4 (Rng.new 5)).1 /\
  ((Rng.range 0.6 1.4 (Rng.new 5)).1 <= 1.4) /\
  (0.6 < 1.4 -> (Rng.range 0.6 1.4 (Rng.new 5)).1 < 1.4).
Proof.
  assert (L : 0.6 <= 1.4) by (vm_compute; discriminate).
  split; [exact L|]. exact (Rng_range_within 0.6 1.4 (Rng.new 5) L).
Defined.

Lemma int_within lo hi r :
  (lo <= hi)%Z -> (lo <= (Rng.int lo hi r).1 <= hi)%Z.
Proof.
  intros L. unfold Rng.int.
  assert (Lq : inject_Z lo < inject_Z (hi + 1)) by (rewrite <- Zlt_Qlt; lia).
  destruct (range_within (inject_Z lo) (inject_Z (hi + 1)) r (Qlt_le_weak _ _ Lq))
    as (A & _ & B). specialize (B Lq).
  destruct (Rng.range (inject_Z lo) (inject_Z (hi + 1)) r) as [v r']. cbn [fst] in *.
  unfold Js.floor. split.
  - apply Qfloor_resp_le in A. now rewrite Qfloor_Z in A.
  - assert (F : (Qfloor v < hi + 1)%Z); [|lia].
    rewrite Zlt_Qlt. eapply Qle_lt_trans; [apply Qfloor_le|exact B].
Qed.

(** X7.  [int(min, max)] with [min <= max] returns an integer from [min]
    to [max]. *)
Theorem Rng_int_within (lo hi : Z) (r : SeededRng) :
  (lo <= hi)%Z -> (lo <= (Rng.int lo hi r).1 <= hi)%Z.
Proof. apply int_within. Qed.

Lemma Rng_int_within_witness :
  (1 <= 3)%Z /\ (1 <= (Rng.int 1 3 (Rng.new 5)).1 <= 3)%Z.
Proof.
  assert (L : (1 <= 3)%Z) by lia.
  split; [exact L|]. exact (Rng_int_within 1 3 (Rng.new 5) L).
Defined.

(** X8.  [chance(p)] is false for every [p <= 0] and true for every
    [p >= 1]. *)
Theorem Rng_chance_extremes (p : Q) (r : SeededRng) :
  (p <= 0 -> (Rng.chance p r).1 = false) /\ (1 <= p -> (Rng.chance p r).1 = true).
Proof.
  unfold Rng.chance. destruct (next_unit r) as [H0 H1].
  destruct (Rng.next r) as [v r']. cbn [fst] in *. split; intros Hp.
  - apply Js_lt_false. lra.
  - apply Js_lt_true. lra.
Qed.

(* ===================================================================== *)
(** ** Terrain and tile count are fixed by the constructor *)
(* ===================================================================== *)

Lemma sameShape_refl g : sameShape g g.
Proof. split; [apply sameTerrain_refl|done]. Qed.

Lemma sameShape_trans g1 g2 g3 : sameShape g1 g2 -> sameShape g2 g3 -> sameShape g1 g3.
Proof.
  intros [T1 L1] [T2 L2]. split; [eapply sameTerrain_trans; eassumption|congruence].
Qed.

Lemma sameShape_update_tile g i f : sameShape g (update_tile g i f).
Proof.
  split; [apply sameTerrain_update_tile|].
  unfold update_tile. destruct (i <? 0)%Z; [done|]. cbn [tiles set_tiles].
  apply length_alter.
Qed.

Lemma sameShape_removeTreeAt g x z : sameShape g (removeTreeAt g x z).2.
Proof.
  split; [apply sameTerrain_removeTreeAt|].
  destruct (removeTreeAt_frame g x z) as (_ & _ & _ & _ & E & _).
  now apply map_type_length.
Qed.

Lemma sameShape_addTree g tree : sameShape g (addTree g tree).
Proof.
  split; [apply sameTerrain_addTree|].
  apply map_type_length, addTree_types.
Qed.

Lemma sameShape_clearOccupant g b : sameShape g (clearOccupant g b).
Proof.
  split; [apply sameTerrain_clearOccupant|]. cbn [clearOccupant tiles set_tiles].
  apply length_map.
Qed.

Lemma sameShape_placeRoad g x z : sameShape g (placeRoad g x z).2.
Proof.
  unfold placeRoad. destruct (getTile g x z); [|apply sameShape_refl].
  repeat case_if; cbn [snd]; try apply sameShape_refl.
  eapply sameShape_trans; [apply sameShape_removeTreeAt|apply sameShape_update_tile].
Qed.

Lemma sameShape_erase g x z : sameShape g (erase g x z).2.
Proof.
  unfold erase. destruct (getTile g x z) as [tile|]; [|apply sameShape_refl].
  destruct (occupantId tile);
    repeat case_if; cbn [snd]; try apply sameShape_refl; try apply sameShape_update_tile.
  eapply sameShape_trans; [apply (sameShape_clearOccupant g s)|]. split; [repeat split|done].
Qed.

Lemma sameShape_claimFootprint g b : sameShape g (claimFootprint g b).
Proof.
  unfold claimFootprint.
  apply (fold_left_preserves (sameShape g)); [apply sameShape_refl|].
  intros g' [dx dz] S _. eapply sameShape_trans; [exact S|].
  unfold claimTile. cbv zeta. destruct (getTile g' _ _); [|apply sameShape_refl].
  eapply sameShape_trans; [apply sameShape_removeTreeAt|apply sameShape_update_tile].
Qed.

Lemma sameShape_placeHouse pc g x z : sameShape g (placeHouse pc g x z).2.
Proof.
  unfold placeHouse.
  destruct (getTile g x z) as [tile|]; [|apply sameShape_refl].
  case_if; [apply sameShape_refl|].
  destruct (searchFootprint _ _ _ _ _) as [found rng].
  case_if; [apply sameShape_refl|].
  destruct (match found with Some f => f | None => _ end) as [[[w d] oX] oZ].
  unfold Rng.range, Rng.chance, Rng.int, Rng.range, Rng.next. cbv beta iota zeta.
  cbn [snd].
  match goal with
  | |- context [claimFootprint ?g1 ?b] =>
      eapply sameShape_trans; [|apply (sameShape_claimFootprint g1 b)]
  end.
  split; [repeat split|done].
Qed.

Lemma sameShape_apply pc g tool x z : sameShape g (apply pc g tool x z).2.
Proof.
  unfold apply. case_if; [apply sameShape_refl|].
  destruct tool.
  - apply sameShape_placeHouse.
  - pose proof (sameShape_placeRoad g x z). now destruct (placeRoad g x z).
  - pose proof (sameShape_erase g x z). now destruct (erase g x z).
Qed.

Lemma sameShape_scanTornado sc tornado :
  sameShape (sc_world sc) (sc_world (scanTornado sc tornado)).
Proof.
  unfold scanTornado.
  destruct (worldToTile _ _ _) as [[cx cz]|]; [|apply sameShape_refl].
  apply (fold_left_preserves (fun sc' => sameShape (sc_world sc) (sc_world sc')));
    [apply sameShape_refl|].
  intros sc' [dx dz] S _. eapply sameShape_trans; [exact S|].
  unfold scanTile. case_if; [apply sameShape_refl|]. case_if; [apply sameShape_refl|].
  cbv zeta. pose proof (sameShape_removeTreeAt (sc_world sc') (cx + dx) (cz + dz)) as S2.
  destruct (removeTreeAt (sc_world sc') (cx + dx) (cz + dz)) as [removed g2]. exact S2.
Qed.

Lemma sameShape_markDestructionPath ws g views :
  sameShape g (markDestructionPath ws g views).2.
Proof.
  unfold markDestructionPath.
  match goal with
  | |- context [fold_left scanTornado views ?sc0] => set (s0 := sc0)
  end.
  assert (K : sameShape g (sc_world (fold_left scanTornado views s0))).
  { apply (fold_left_preserves (fun sc' => sameShape g (sc_world sc')));
      [apply sameShape_refl|].
    intros sc' t S _. eapply sameShape_trans; [exact S|apply sameShape_scanTornado]. }
  cbv zeta. set (sc1 := fold_left scanTornado views s0) in *.
  assert (K2 : sameShape g (fold_left destroyBuilding (sc_ids sc1) (false, sc_world sc1)).2).
  { apply (fold_left_preserves (fun st => sameShape g st.2)); [exact K|].
    intros [c g'] b S _. cbn [snd] in *. unfold destroyBuilding.
    case_if; cbn [snd]; [exact S|].
    eapply sameShape_trans; [exact S|].
    eapply sameShape_trans; [apply (sameShape_clearOccupant g' b)|].
    split; [repeat split|done]. }
  destruct (fold_left destroyBuilding _ _) as [bc g']. exact K2.
Qed.

Section ShapeOps.
Context `{JsMath}.

Lemma sameShape_addTrees (l : list TreeRecord) g :
  sameShape g (fold_left (fun g tree => addTree g (cloneTree tree)) l g).
Proof.
  apply (fold_left_preserves (sameShape g)); [apply sameShape_refl|].
  intros g' t S _. eapply sameShape_trans; [exact S|apply sameShape_addTree].
Qed.

Lemma sameShape_resetTiles g : sameShape g (resetTiles g).
Proof.
  unfold resetTiles.
  match goal with
  | |- context [fold_left _ (baseTrees ?g1) ?g2] => set (g1' := g2)
  end.
  assert (S1 : sameShape g g1').
  { subst g1'. split; [repeat split|].
    cbn [clearTrees tiles set_tiles set_trees set_treeByTile].
    now rewrite length_map, length_imap. }
  change (baseTrees _) with (baseTrees g).
  eapply sameShape_trans; [exact S1|].
  eapply sameShape_trans; [apply sameShape_addTrees|]. split; [repeat split|done].
Qed.

Lemma sameShape_applySnapshot g s : sameShape g (applySnapshot g s).
Proof.
  split; [|apply applySnapshot_length].
  unfold applySnapshot. case_if; [apply sameTerrain_refl|].
  match goal with
  | |- context [fold_left restoreBuilding _ ?g0] => set (g3 := g0)
  end.
  assert (K : sameTerrain g g3).
  { subst g3.
    match goal with
    | |- context [if negb ?c then repairWater ?g1 else _] => set (g1' := g1); set (c' := c)
    end.
    assert (T2 : sameTerrain g (if negb c' then repairWater g1' else g1'))
      by (destruct (negb c'); repeat split).
    destruct (s_trees s) as [[|tree rest]|].
    - eapply sameTerrain_trans; [exact T2|apply generateTrees_keeps_terrain].
    - eapply sameTerrain_trans; [exact T2|apply addTrees_terrain].
    - eapply sameTerrain_trans; [exact T2|apply generateTrees_keeps_terrain]. }
  clearbody g3.
  apply (fold_left_preserves (sameTerrain g)); [exact K|].
  intros g' b T _. eapply sameTerrain_trans; [exact T|apply sameTerrain_restoreBuilding].
Qed.

Lemma wellShaped_new config :
  (0 <= c_width config)%Z -> (0 <= c_depth config)%Z ->
  wellShaped (GridWorld_new config).
Proof.
  intros Hw Hd.
  destruct (GridWorld_new_shape config) as (W & D & _ & _ & _ & L & Lh & B).
  split; [now rewrite L, W, D|]. split; [now rewrite Lh, W, D|].
  now rewrite B, length_map.
Qed.



(** X9.  Build tools, destruction passes, resets and restored snapshots
    leave the terrain as the constructor made it (dimensions, tile
    size, seed, height field, stream, hills, base tile types and base
    trees) and never change the number of tiles. *)
Theorem terrain_is_written_once pc g tool x z ws views s :
  sameShape g (apply pc g tool x z).2 /\
  sameShape g (markDestructionPath ws g views).2 /\
  sameShape g (resetTiles g) /\
  sameShape g (applySnapshot g s).
Proof.
  split; [apply sameShape_apply|]. split; [apply sameShape_markDestructionPath|].
  split; [apply sameShape_resetTiles|apply sameShape_applySnapshot].
Qed.

(** X10.  For a width and a depth that are not negative, the constructor
    takes the dimensions, tile size and seed of the configuration,
    registers no building, creates [width * depth] tiles and
    [(width + 1) * (depth + 1)] heights, and records the tile types as
    the base types. *)
Theorem constructor_shape config :
  (0 <= c_width config)%Z -> (0 <= c_depth config)%Z ->
  width (GridWorld_new config) = c_width config /\
  depth (GridWorld_new config) = c_depth config /\
  tileSize (GridWorld_new config) = c_tileSize config /\
  seed (GridWorld_new config) = c_seed config /\
  buildings (GridWorld_new config) = [] /\
  Z.of_nat (length (tiles (GridWorld_new config)))
    = (c_width config * c_depth config)%Z /\
  Z.of_nat (length (heightField (GridWorld_new config)))
    = ((c_width config + 1) * (c_depth config + 1))%Z /\
  baseTileTypes (GridWorld_new config) = map type (tiles (GridWorld_new config)).
Proof.
  intros W D.
  destruct (GridWorld_new_shape config) as (E1 & E2 & E3 & E4 & E5 & L & Lh & B).
  split; [exact E1|]. split; [exact E2|]. split; [exact E3|]. split; [exact E4|].
  split; [exact E5|]. split; [rewrite L; nia|]. split; [rewrite Lh; nia|exact B].
Qed.

End ShapeOps.

Lemma constructor_shape_witness :
  width Examples.lawn = 1%Z /\ depth Examples.lawn = 2%Z /\
  tileSize Examples.lawn = 1 /\ seed Examples.lawn = 1%Z /\
  buildings Examples.lawn = [] /\
  Z.of_nat (length (tiles Examples.lawn)) = (1 * 2)%Z /\
  Z.of_nat (length (heightField Examples.lawn)) = ((1 + 1) * (2 + 1))%Z /\
  baseTileTypes Examples.lawn = map type (tiles Examples.lawn).
Proof.
  exact (@constructor_shape RationalMath (Examples.config 1 2 1)
           ltac:(discriminate) ltac:(discriminate)).
Defined.


(* ===================================================================== *)
(** ** Tile and world coordinates *)
(* ===================================================================== *)

Lemma floor_plus_half (n : Z) : Js.floor (inject_Z n + 0.5) = n.
Proof.
  unfold Js.floor. apply Z.le_antisymm.
  - assert (L : (Qfloor (inject_Z n + 0.5) < n + 1)%Z); [|lia].
    rewrite Zlt_Qlt. eapply Qle_lt_trans; [apply Qfloor_le|].
    rewrite inject_Z_plus. change (inject_Z 1) with 1. lra.
  - rewrite <- (Qfloor_Z n) at 1. apply Qfloor_resp_le. lra.
Qed.

(** X12.  For a grid with a positive tile size, the world position of the
    centre of an in-bounds tile lies in that tile: [worldToTile] after
    [tileToWorld] returns the coordinates of the tile. *)
Theorem worldToTile_inverts_tileToWorld g x z :
  0 < tileSize g -> inBounds g x z = true ->
  worldToTile g (wx (tileToWorld g (inject_Z x) (inject_Z z)))
                (wz (tileToWorld g (inject_Z x) (inject_Z z))) = Some (x, z).
Proof.
  intros Ts B. unfold worldToTile, tileToWorld. cbn [wx wz].
  assert (Nz : Qeq_bool (tileSize g) 0 = false).
  { destruct (Qeq_bool (tileSize g) 0) eqn:E; [|done]. apply Qeq_bool_iff in E. lra. }
  rewrite Nz.
  assert (Ex : (inject_Z x - inject_Z (width g) / 2 + 0.5) * tileSize g / tileSize g
               + inject_Z (width g) / 2 == inject_Z x + 0.5) by (field; lra).
  assert (Ez : (inject_Z z - inject_Z (depth g) / 2 + 0.5) * tileSize g / tileSize g
               + inject_Z (depth g) / 2 == inject_Z z + 0.5) by (field; lra).
  unfold Js.floor. rewrite (Qfloor_comp _ _ Ex), (Qfloor_comp _ _ Ez).
  fold (Js.floor (inject_Z x + 0.5)). fold (Js.floor (inject_Z z + 0.5)).
  rewrite !floor_plus_half, B. reflexivity.
Qed.

Lemma worldToTile_inverts_tileToWorld_witness :
  0 < tileSize Examples.block /\ inBounds Examples.block 2 1 = true /\
  worldToTile Examples.block (wx (tileToWorld Examples.block (inject_Z 2) (inject_Z 1)))
              (wz (tileToWorld Examples.block (inject_Z 2) (inject_Z 1))) = Some (2%Z, 1%Z).
Proof.
  assert (Ts : 0 < tileSize Examples.block) by reflexivity.
  assert (B : inBounds Examples.block 2 1 = true) by reflexivity.
  split; [exact Ts|]. split; [exact B|].
  exact (worldToTile_inverts_tileToWorld Examples.block 2 1 Ts B).
Defined.

(* ===================================================================== *)
(** ** Reset *)
(* ===================================================================== *)

Section Reset.
Context `{JsMath}.

Lemma captureBaseState_base g :
  baseTrees (captureBaseState g)
  = map cloneTree (JsMap.values (trees (captureBaseState g))).
Proof. reflexivity. Qed.

Lemma GridWorld_new_base config :
  baseTrees (GridWorld_new config)
  = map cloneTree (JsMap.values (trees (GridWorld_new config))).
Proof.
  unfold GridWorld_new.
  repeat match goal with
         | |- context [let '(_, _) := ?p in _] => destruct p
         end.
  cbv zeta. apply captureBaseState_base.
Qed.

Lemma reset_restores g0 g :
  gridInv g0 -> treesOk g0 ->
  baseTileTypes g0 = map type (tiles g0) ->
  baseTrees g0 = map cloneTree (JsMap.values (trees g0)) ->
  sameShape g0 g ->
  map type (tiles (resetTiles g)) = map type (tiles g0) /\
  trees (resetTiles g) = trees g0 /\
  buildings (resetTiles g) = [].
Proof.
  intros I0 T0 Bt Btr [T L].
  destruct T as (W & D & _ & _ & _ & Eb & Ebt & _).
  unfold resetTiles.
  match goal with
  | |- context [fold_left _ (baseTrees ?g1) ?g2] => set (g1' := g2)
  end.
  change (baseTrees _) with (baseTrees g). rewrite Ebt, Btr.
  assert (Tl : forall j, tiles g1' !! j =
               match tiles g !! j, tiles g0 !! j with
               | Some t, Some t0 =>
                   Some {| type := type t0; height := height t;
                           occupantId := None; treeId := None |}
               | _, _ => None
               end).
  { intros j. subst g1'.
    cbn [clearTrees tiles set_tiles set_trees set_treeByTile].
    rewrite lookup_map, list_lookup_imap, Eb, Bt, lookup_map.
    destruct (tiles g !! j) as [t|] eqn:Ej; [|reflexivity].
    destruct (tiles g0 !! j) as [t0|] eqn:E0; [reflexivity|].
    apply lookup_lt_Some in Ej. apply lookup_ge_None in E0. lia. }
  assert (R0 : treesRestored g0 [] g1').
  { split; [subst g1'; apply gridInv_blank|].
    split; [exact W|]. split; [exact D|]. split; [reflexivity|]. split; [|split].
    - intros j t' Hj. rewrite Tl in Hj.
      destruct (tiles g !! j) as [t|]; [|discriminate].
      destruct (tiles g0 !! j) as [t0|]; [|discriminate].
      injection Hj as <-. exists t0. cbn [type occupantId treeId].
      split; [reflexivity|]. split; [reflexivity|]. split; [reflexivity|]. discriminate.
    - intros j t0 Hj. rewrite Tl, Hj.
      destruct (tiles g !! j) as [t|] eqn:Ej; [eauto|].
      apply lookup_lt_Some in Hj. apply lookup_ge_None in Ej. lia.
    - intros idx k. subst g1'. cbn [clearTrees treeByTile set_treeByTile JsMap.get].
      discriminate. }
  pose proof (treesRestored_all g0 I0 T0 (trees g0) [] g1' eq_refl R0) as R1.
  split; [|split; [|reflexivity]].
  - cbn [tiles set_buildings]. rewrite addTrees_types. apply list_eq. intros j.
    rewrite !lookup_map, Tl.
    destruct (tiles g0 !! j) as [t0|] eqn:E0; destruct (tiles g !! j) as [t|] eqn:Ej;
      try reflexivity.
    apply lookup_lt_Some in E0. apply lookup_ge_None in Ej. lia.
  - cbn [trees set_buildings]. destruct R1 as (_ & _ & _ & R1 & _). exact R1.
Qed.

(** X13.  On every grid that has the terrain and the tile count of a
    freshly constructed one, [resetTiles] brings back the tile types
    and the tree registry of the constructed grid and leaves no
    building. *)
Theorem reset_restores_constructed_world config g :
  sameShape (GridWorld_new config) g ->
  map type (tiles (resetTiles g)) = map type (tiles (GridWorld_new config)) /\
  trees (resetTiles g) = trees (GridWorld_new config) /\
  buildings (resetTiles g) = [].
Proof.
  apply reset_restores.
  - apply GridWorld_new_worldInv.
  - apply GridWorld_new_registryOk.
  - apply GridWorld_new_shape.
  - apply GridWorld_new_base.
Qed.
End Reset.

Lemma reset_restores_constructed_world_witness :
  sameShape Examples.lawn (apply Examples.pc0 Examples.lawn Tool.road 0 1).2 /\
  map type (tiles (resetTiles (apply Examples.pc0 Examples.lawn Tool.road 0 1).2))
  = map type (tiles Examples.lawn) /\
  trees (resetTiles (apply Examples.pc0 Examples.lawn Tool.road 0 1).2)
  = trees Examples.lawn /\
  buildings (resetTiles (apply Examples.pc0 Examples.lawn Tool.road 0 1).2) = [].
Proof.
  assert (S : sameShape Examples.lawn (apply Examples.pc0 Examples.lawn Tool.road 0 1).2)
    by apply sameShape_apply.
  split; [exact S|].
  exact (@reset_restores_constructed_world RationalMath (Examples.config 1 2 1) _ S).
Defined.

(* ===================================================================== *)
(** ** Build tools *)
(* ===================================================================== *)

(** X14.  A call of [apply] that reports no change leaves the grid as it
    was. *)
Theorem apply_without_change_keeps_grid pc g tool x z :
  changed (apply pc g tool x z).1.1 = false -> (apply pc g tool x z).2 = g.
Proof.
  unfold apply. case_if; [done|]. destruct tool.
  - unfold placeHouse. destruct (getTile g x z) as [tile|]; [|done].
    case_if; [done|].
    destruct (searchFootprint _ _ _ _ _) as [found rng].
    case_if; [done|].
    destruct (match found with Some f => f | None => _ end) as [[[w d] oX] oZ].
    unfold Rng.range, Rng.chance, Rng.int, Rng.range, Rng.next. cbv beta iota zeta.
    cbn [fst snd changed]. discriminate.
  - unfold placeRoad. destruct (getTile g x z) as [tile|]; [|done].
    repeat case_if; cbn [fst snd changed]; try done.
  - unfold erase. destruct (getTile g x z) as [tile|]; [|done].
    destruct (occupantId tile); repeat case_if; cbn [fst snd changed]; try done.
Qed.

Lemma apply_without_change_keeps_grid_witness :
  changed (apply Examples.pc0 Examples.block Tool.road 1 1).1.1 = false /\
  (apply Examples.pc0 Examples.block Tool.road 1 1).2 = Examples.block.
Proof.
  assert (C : changed (apply Examples.pc0 Examples.block Tool.road 1 1).1.1 = false)
    by reflexivity.
  split; [exact C|].
  exact (apply_without_change_keeps_grid Examples.pc0 Examples.block Tool.road 1 1 C).
Defined.

Lemma clearOccupant_clears g bid :
  Forall (fun t => occupantId t <> Some bid) (tiles (clearOccupant g bid)).
Proof.
  cbn [clearOccupant tiles set_tiles]. apply Forall_forall. intros t Ht.
  apply list_elem_of_In, in_map_iff in Ht. destruct Ht as (t0 & <- & _).
  cbv beta zeta.
  destruct (bool_decide (occupantId t0 = Some bid)) eqn:E.
  - destruct (bool_decide (type (set_occupantId None t0) = foundation)); discriminate.
  - now apply bool_decide_eq_false in E.
Qed.

(** X15.  [erase] on a tile of a building removes the whole building: the
    call reports its id, deletes its record and leaves no tile occupied
    by it. *)
Theorem erase_removes_whole_building g x z tile bid :
  getTile g x z = Some tile -> occupantId tile = Some bid -> bid <> EmptyString ->
  changed (erase g x z).1 = true /\
  removedBuildingId (erase g x z).1 = Some bid /\
  JsMap.has (buildings (erase g x z).2) bid = false /\
  Forall (fun t => occupantId t <> Some bid) (tiles (erase g x z).2).
Proof.
  intros GT Oc Nb. unfold erase. rewrite GT, Oc.
  rewrite (proj2 (truthy_Some bid) Nb). cbn [fst snd changed removedBuildingId].
  split; [done|]. split; [done|]. split.
  - unfold JsMap.has. cbn [buildings set_buildings]. now rewrite JsMap_get_delete_eq.
  - apply (clearOccupant_clears g bid).
Qed.

Lemma erase_removes_whole_building_witness :
  getTile Examples.block 2 0 = Some (Examples.plainTile foundation (Some "b"%string)) /\
  changed (erase Examples.block 2 0).1 = true /\
  removedBuildingId (erase Examples.block 2 0).1 = Some "b"%string /\
  JsMap.has (buildings (erase Examples.block 2 0).2) "b"%string = false /\
  Forall (fun t => occupantId t <> Some "b"%string) (tiles (erase Examples.block 2 0).2).
Proof.
  assert (G : getTile Examples.block 2 0
              = Some (Examples.plainTile foundation (Some "b"%string))) by reflexivity.
  split; [exact G|].
  exact (erase_removes_whole_building Examples.block 2 0 _ "b"%string G eq_refl
           ltac:(discriminate)).
Defined.

Lemma searchFootprint_bounds g x z fuel : forall rng w d oX oZ,
  (searchFootprint g x z fuel rng).1 = Some (w, d, oX, oZ) ->
  (1 <= w <= 3)%Z /\ (1 <= d <= 3)%Z /\
  (oX <= x < oX + w)%Z /\ (oZ <= z < oZ + d)%Z.
Proof.
  induction fuel as [|fuel IH]; intros rng w d oX oZ; cbn [searchFootprint]; [discriminate|].
  pose proof (int_within 1 3 rng ltac:(lia)) as Hw.
  destruct (Rng.int 1 3 rng) as [w0 rng1]. cbn [fst] in Hw.
  pose proof (int_within 1 3 rng1 ltac:(lia)) as Hd.
  destruct (Rng.int 1 3 rng1) as [d0 rng2]. cbn [fst] in Hd.
  pose proof (int_within 0 (w0 - 1) rng2 ltac:(lia)) as Hx.
  destruct (Rng.int 0 (w0 - 1) rng2) as [ox rng3]. cbn [fst] in Hx.
  pose proof (int_within 0 (d0 - 1) rng3 ltac:(lia)) as Hz.
  destruct (Rng.int 0 (d0 - 1) rng3) as [oz rng4]. cbn [fst] in Hz.
  destruct (isFootprintFree g (x - ox) (z - oz) w0 d0) eqn:F.
  - cbn [fst]. intros E. injection E as <- <- <- <-. lia.
  - apply IH.
Qed.

Lemma isFootprintFree_getTile g oX oZ w d dx dz :
  isFootprintFree g oX oZ w d = true -> (0 <= dx < w)%Z -> (0 <= dz < d)%Z ->
  exists t, getTile g (oX + dx) (oZ + dz) = Some t.
Proof.
  intros F Hx Hz. unfold isFootprintFree in F. rewrite forallb_forall in F.
  specialize (F (dx, dz)). cbv beta iota in F.
  destruct (getTile g (oX + dx) (oZ + dz)) as [t|]; [eauto|].
  discriminate F. apply list_elem_of_In, grid_coords_elem. lia.
Qed.

(** X16.  When [placeHouse] adds a building, its footprint is between one
    and three tiles wide and deep and contains the tile that was
    clicked, its id is [b-] followed by the hexadecimal seed, the
    counter has advanced by one, the record is registered under the id,
    and every tile of the footprint is a foundation occupied by the
    building, without a tree. *)
Theorem placeHouse_claims_its_footprint pc g x z b :
  gridInv g -> addedBuilding (placeHouse pc g x z).1.1 = Some b ->
  (1 <= b_width b <= 3)%Z /\ (1 <= b_depth b <= 3)%Z /\
  (originX b <= x < originX b + b_width b)%Z /\
  (originZ b <= z < originZ b + b_depth b)%Z /\
  b_seed b = hashSeed [seed g; x; z; (placementCounter pc + 1)%Z] /\
  b_id b = ("b-" ++ Js.hex (b_seed b))%string /\
  placementCounter (placeHouse pc g x z).1.2 = (placementCounter pc + 1)%Z /\
  JsMap.get (buildings (placeHouse pc g x z).2) (b_id b) = Some b /\
  forall dx dz, inFootprint b dx dz ->
    exists t, getTile (placeHouse pc g x z).2 (originX b + dx) (originZ b + dz) = Some t /\
              type t = foundation /\ occupantId t = Some (b_id b) /\ treeId t = None.
Proof.
  intros I. unfold placeHouse.
  destruct (getTile g x z) as [tile|]; [|discriminate].
  case_if; [discriminate|].
  destruct (searchFootprint _ _ _ _ _) as [found rng] eqn:S.
  case_if; [discriminate|].
  match goal with H : negb (bool_decide (is_Some found)) && _ = false |- _ =>
    rename H into Room end.
  assert (K : forall w d oX oZ,
            match found with Some f => f | None => (1%Z, 1%Z, x, z) end = (w, d, oX, oZ) ->
            isFootprintFree g oX oZ w d = true /\
            (1 <= w <= 3)%Z /\ (1 <= d <= 3)%Z /\
            (oX <= x < oX + w)%Z /\ (oZ <= z < oZ + d)%Z).
  { intros w d oX oZ E. destruct found as [f|].
    - subst f. split.
      + eapply searchFootprint_free. rewrite S. reflexivity.
      + eapply searchFootprint_bounds. rewrite S. reflexivity.
    - injection E as <- <- <- <-. cbn in Room. apply negb_false_iff in Room.
      split; [exact Room|lia]. }
  destruct (match found with Some f => f | None => _ end) as [[[w d] oX] oZ].
  destruct (K w d oX oZ eq_refl) as (Free & Hw & Hd & Hx & Hz). clear K.
  unfold Rng.range, Rng.chance, Rng.int, Rng.range, Rng.next. cbv beta iota zeta.
  cbn [fst snd addedBuilding placementCounter].
  match goal with
  | |- Some ?b0 = Some b -> _ => set (b1 := b0); intros E; injection E as <-
  end.
  split; [exact Hw|]. split; [exact Hd|]. split; [exact Hx|]. split; [exact Hz|].
  split; [reflexivity|].
  split; [unfold b1; cbn [b_id b_seed]; reflexivity|].
  split; [reflexivity|].
  set (g1 := set_buildings (JsMap.set (buildings g) (b_id b1) b1) g).
  assert (I1 : gridInv g1) by exact I.
  split.
  - destruct (claimFootprint_frame g1 b1) as [Eb _].
    rewrite Eb. apply JsMap_get_set_eq.
  - intros dx dz [Hdx Hdz].
    change (0 <= dx < w)%Z in Hdx. change (0 <= dz < d)%Z in Hdz.
    change (originX b1) with oX. change (originZ b1) with oZ.
    destruct (isFootprintFree_getTile g oX oZ w d dx dz Free Hdx Hdz) as [t Ht].
    apply getTile_Some in Ht. destruct Ht as [B Ht].
    destruct (claimFootprint_keeps g1 b1 I1) as [_ (W & D & _)].
    assert (B' : inBounds (claimFootprint g1 b1) (oX + dx) (oZ + dz) = true)
      by (rewrite (inBounds_frame g1 _ _ _ W D); exact B).
    rewrite (getTile_lookup _ _ _ B'), (index_frame g1 _ _ _ W).
    rewrite claimFootprint_lookup by exact I1.
    rewrite decide_True.
    + change (tiles g1) with (tiles g). change (index g1 (oX + dx) (oZ + dz))
        with (index g (oX + dx) (oZ + dz)). rewrite Ht.
      eexists. split; [reflexivity|]. repeat split.
    + apply (footprintIndices_intro g1 b1 dx dz); [|exact B].
      apply grid_coords_elem. split; [exact Hdx|exact Hdz].
Qed.

Lemma meadow_gridInv : gridInv Samples.meadow.
Proof.
  apply gridInv_blankGrid. split; [reflexivity|].
  repeat (constructor; [split; reflexivity|]). constructor.
Qed.

Lemma placeHouse_claims_its_footprint_witness :
  gridInv Samples.meadow /\
  addedBuilding (placeHouse Examples.pc0 Samples.meadow 1 1).1.1 = Some Samples.cottage /\
  (1 <= b_width Samples.cottage <= 3)%Z /\ (1 <= b_depth Samples.cottage <= 3)%Z /\
  (originX Samples.cottage <= 1 < originX Samples.cottage + b_width Samples.cottage)%Z /\
  (originZ Samples.cottage <= 1 < originZ Samples.cottage + b_depth Samples.cottage)%Z /\
  b_seed Samples.cottage
  = hashSeed [seed Samples.meadow; 1%Z; 1%Z; (placementCounter Examples.pc0 + 1)%Z] /\
  b_id Samples.cottage = ("b-" ++ Js.hex (b_seed Samples.cottage))%string /\
  placementCounter (placeHouse Examples.pc0 Samples.meadow 1 1).1.2
  = (placementCounter Examples.pc0 + 1)%Z /\
  JsMap.get (buildings (placeHouse Examples.pc0 Samples.meadow 1 1).2)
            (b_id Samples.cottage) = Some Samples.cottage /\
  forall dx dz, inFootprint Samples.cottage dx dz ->
    exists t, getTile (placeHouse Examples.pc0 Samples.meadow 1 1).2
                      (originX Samples.cottage + dx) (originZ Samples.cottage + dz) = Some t /\
              type t = foundation /\ occupantId t = Some (b_id Samples.cottage) /\
              treeId t = None.
Proof.
  assert (A : addedBuilding (placeHouse Examples.pc0 Samples.meadow 1 1).1.1
              = Some Samples.cottage) by (vm_compute; reflexivity).
  split; [exact meadow_gridInv|]. split; [exact A|].
  exact (placeHouse_claims_its_footprint Examples.pc0 Samples.meadow 1 1 Samples.cottage
           meadow_gridInv A).
Defined.

(* ===================================================================== *)
(** ** Lightning *)
(* ===================================================================== *)

Lemma unit_clamp' v : 0 <= Js.max 0 (Js.min 1 v) /\ Js.max 0 (Js.min 1 v) <= 1.
Proof.
  destruct (Js_max_cases 0 (Js.min 1 v)) as [[? ->]|[? ->]];
    destruct (Js_min_cases 1 v) as [[? E]|[? E]]; try rewrite E in *; lra.
Qed.

Lemma settle_kept dt entries :
  Forall (fun e => 0 < delay e) (settle dt entries).1.
Proof.
  cbn [settle fst]. apply Forall_forall. intros e He.
  apply list_elem_of_In, filter_In in He. destruct He as [_ D].
  apply negb_true_iff in D. now apply Js_le_false in D.
Qed.

Lemma filter_partition {A} (p : A -> bool) (l : list A) :
  (length (List.filter p l) + length (List.filter (fun a => negb (p a)) l))%nat = length l.
Proof.
  induction l as [|a l IH]; [done|]. cbn [List.filter]. destruct (p a); cbn; lia.
Qed.

Lemma thunders_only (l : list PendingThunder) :
  List.filter (fun e => negb (isFlash e)) (map (fun e => onThunder (strength e)) l)
  = map (fun e => onThunder (strength e)) l.
Proof. induction l as [|e l IH]; [done|]. cbn. now rewrite IH. Qed.

Lemma settle_counts dt entries :
  (length (settle dt entries).1 + thunderCount (settle dt entries).2)%nat = length entries.
Proof.
  cbn [settle fst snd]. unfold thunderCount.
  rewrite thunders_only, length_map, List.filter_rev, length_rev.
  rewrite Nat.add_comm, filter_partition. apply length_map.
Qed.

Lemma settle_no_flash dt entries : flashCount (settle dt entries).2 = 0%nat.
Proof.
  cbn [settle snd]. unfold flashCount.
  generalize (List.filter due (rev (map (age dt) entries))).
  intros l. induction l as [|e l IH]; [done|exact IH].
Qed.

Lemma count_app (p : LightningEvent -> bool) l1 l2 :
  length (List.filter p (l1 ++ l2))
  = (length (List.filter p l1) + length (List.filter p l2))%nat.
Proof. now rewrite List.filter_app, length_app. Qed.

(** X17.  With lightning disabled, or at an intensity of at most 0.01,
    [update] makes no callback and draws no random number; it drops the
    pending thunders and leaves a cooldown that is at most 2.2 and at
    most the cooldown before the call. *)
Theorem lightning_off_drops_pending ls dt enabled intensity rnd :
  enabled = false \/ intensity <= 0.01 ->
  pending (LightningSystem_update ls dt enabled intensity rnd).1.1 = [] /\
  (LightningSystem_update ls dt enabled intensity rnd).1.2 = [] /\
  (LightningSystem_update ls dt enabled intensity rnd).2 = rnd /\
  flashCooldown (LightningSystem_update ls dt enabled intensity rnd).1.1 <= 2.2 /\
  flashCooldown (LightningSystem_update ls dt enabled intensity rnd).1.1 <= flashCooldown ls.
Proof.
  intros Off. unfold LightningSystem_update.
  assert (E : negb enabled || Js.le intensity 0.01 = true).
  { destruct Off as [->|L]; [done|]. apply orb_true_iff. right. now apply Js_le_true. }
  rewrite E. cbn [fst snd pending flashCooldown].
  split; [done|]. split; [done|]. split; [done|].
  destruct (Js_min_cases (flashCooldown ls) 2.2) as [[? ->]|[? ->]]; lra.
Qed.

Lemma lightning_off_drops_pending_witness :
  pending (LightningSystem_update charged 0.1 false 1 Examples.steady).1.1 = [] /\
  (LightningSystem_update charged 0.1 false 1 Examples.steady).1.2 = [] /\
  (LightningSystem_update charged 0.1 false 1 Examples.steady).2 = Examples.steady /\
  flashCooldown (LightningSystem_update charged 0.1 false 1 Examples.steady).1.1 <= 2.2 /\
  flashCooldown (LightningSystem_update charged 0.1 false 1 Examples.steady).1.1
  <= flashCooldown charged.
Proof.
  exact (lightning_off_drops_pending charged 0.1 false 1 Examples.steady
           (or_introl eq_refl)).
Defined.

(** X18.  After every call of [update] each thunder that is still pending
    has a positive delay: a thunder whose delay has run out is reported
    in the call that finds it. *)
Theorem pending_thunders_are_not_due ls dt enabled intensity rnd :
  Forall (fun e => 0 < delay e)
         (pending (LightningSystem_update ls dt enabled intensity rnd).1.1).
Proof.
  unfold LightningSystem_update. case_if; [constructor|].
  destruct (Js.le (flashCooldown ls - dt) 0); unfold Math_random; cbv beta iota zeta;
    match goal with |- context [settle dt ?l] =>
      pose proof (settle_kept dt l) as K; destruct (settle dt l) as [kept thunders] end;
    exact K.
Qed.

(** X19.  In an enabled call of [update] the thunders are conserved: the
    thunders pending after the call plus those reported are the thunders
    pending before it plus one per flash, and the call makes at most one
    flash. *)
Theorem every_flash_queues_one_thunder ls dt intensity rnd :
  0.01 < intensity ->
  (length (pending (LightningSystem_update ls dt true intensity rnd).1.1)
   + thunderCount (LightningSystem_update ls dt true intensity rnd).1.2
   = length (pending ls)
     + flashCount (LightningSystem_update ls dt true intensity rnd).1.2)%nat /\
  (flashCount (LightningSystem_update ls dt true intensity rnd).1.2 <= 1)%nat.
Proof.
  intros On. unfold LightningSystem_update.
  assert (E : negb true || Js.le intensity 0.01 = false) by now apply Js_le_false.
  rewrite E.
  destruct (Js.le (flashCooldown ls - dt) 0); unfold Math_random; cbv beta iota zeta;
    match goal with |- context [settle dt ?l] =>
      pose proof (settle_counts dt l) as C; pose proof (settle_no_flash dt l) as F;
      destruct (settle dt l) as [kept thunders] end;
    cbn [fst snd pending] in *; unfold flashCount, thunderCount in *;
    rewrite !count_app; cbn [List.filter isFlash negb length app] in *.
  - rewrite F, length_app in *. cbn [length] in C. lia.
  - rewrite F. lia.
Qed.

Lemma every_flash_queues_one_thunder_witness :
  (length (pending (LightningSystem_update charged 0.5 true 1 Examples.steady).1.1)
   + thunderCount (LightningSystem_update charged 0.5 true 1 Examples.steady).1.2
   = length (pending charged)
     + flashCount (LightningSystem_update charged 0.5 true 1 Examples.steady).1.2)%nat /\
  (flashCount (LightningSystem_update charged 0.5 true 1 Examples.steady).1.2 <= 1)%nat.
Proof.
  exact (every_flash_queues_one_thunder charged 0.5 1 Examples.steady ltac:(lra)).
Defined.

Lemma draw_bounds rnd : unitDraws rnd -> 0 <= (Math_random rnd).1 /\ (Math_random rnd).1 < 1.
Proof. intros U. apply U. Qed.

Lemma draw_keeps rnd : unitDraws rnd -> unitDraws (Math_random rnd).2.
Proof. intros U n. apply U. Qed.

(** X20.  When the cooldown runs out in an enabled call of [update], the
    call first reports a flash of a duration between 0.1 and 0.25
    seconds, reports no other flash, and sets the next cooldown between
    1.5 and 9.5 seconds. *)
Theorem flash_resets_cooldown ls dt intensity rnd :
  unitDraws rnd -> 0.01 < intensity -> flashCooldown ls - dt <= 0 ->
  exists duration thunders,
    (LightningSystem_update ls dt true intensity rnd).1.2 = onFlash duration :: thunders /\
    flashCount thunders = 0%nat /\
    0.1 <= duration /\ duration < 0.25 /\
    1.5 <= flashCooldown (LightningSystem_update ls dt true intensity rnd).1.1 /\
    flashCooldown (LightningSystem_update ls dt true intensity rnd).1.1 < 9.5.
Proof.
  intros U On Out. unfold LightningSystem_update.
  assert (E : negb true || Js.le intensity 0.01 = false) by now apply Js_le_false.
  rewrite E. apply Js_le_true in Out. rewrite Out.
  unfold Math_random. cbv beta iota zeta. cbn [draws cursor].
  match goal with |- context [settle dt ?l] =>
    pose proof (settle_no_flash dt l) as F; destruct (settle dt l) as [kept thunders] end.
  cbn [fst snd flashCooldown cursor app] in *.
  destruct (U (cursor rnd)) as [A1 B1]. destruct (U (S (cursor rnd))) as [A2 B2].
  destruct (unit_clamp' intensity) as [Lo Hi].
  eexists _, thunders. split; [reflexivity|]. split; [exact F|].
  split; [lra|]. split; [lra|]. split; nra.
Qed.

Lemma steady_unit : unitDraws Examples.steady.
Proof. intros n. cbn. lra. Qed.

Lemma flash_resets_cooldown_witness :
  exists duration thunders,
    (LightningSystem_update charged 0.5 true 1 Examples.steady).1.2
    = onFlash duration :: thunders /\
    flashCount thunders = 0%nat /\
    0.1 <= duration /\ duration < 0.25 /\
    1.5 <= flashCooldown (LightningSystem_update charged 0.5 true 1 Examples.steady).1.1 /\
    flashCooldown (LightningSystem_update charged 0.5 true 1 Examples.steady).1.1 < 9.5.
Proof.
  exact (flash_resets_cooldown charged 0.5 1 Examples.steady steady_unit
           ltac:(lra) ltac:(cbn; lra)).
Defined.

(** X21.  The cooldown of the lightning stays positive: it starts at three
    seconds, and a call of [update] on a positive cooldown leaves a
    positive cooldown, whatever its arguments. *)
Theorem lightning_cooldown_stays_positive ls dt enabled intensity rnd :
  unitDraws rnd -> 0 < flashCooldown ls ->
  0 < flashCooldown LightningSystem_new /\
  0 < flashCooldown (LightningSystem_update ls dt enabled intensity rnd).1.1.
Proof.
  intros U P. split; [reflexivity|]. unfold LightningSystem_update. case_if.
  - cbn [fst flashCooldown].
    destruct (Js_min_cases (flashCooldown ls) 2.2) as [[? ->]|[? ->]]; lra.
  - destruct (Js.le (flashCooldown ls - dt) 0) eqn:Out;
      unfold Math_random; cbv beta iota zeta; cbn [draws cursor];
      match goal with |- context [settle dt ?l] => destruct (settle dt l) as [kept thunders] end;
      cbn [fst flashCooldown].
    + destruct (U (cursor rnd)) as [A1 B1].
      destruct (unit_clamp' intensity) as [Lo Hi]. nra.
    + now apply Js_le_false in Out.
Qed.

Lemma lightning_cooldown_stays_positive_witness :
  0 < flashCooldown LightningSystem_new /\
  0 < flashCooldown (LightningSystem_update charged 0.5 true 1 Examples.steady).1.1.
Proof.
  exact (lightning_cooldown_stays_positive charged 0.5 true 1 Examples.steady steady_unit
           ltac:(reflexivity)).
Defined.

(* ===================================================================== *)
(** ** Tornado ids, spawning, the clock and the destruction path *)
(* ===================================================================== *)

Lemma NoDup_map_filter {A B} (f : A -> B) (p : A -> bool) (l : list A) :
  NoDup (map f l) -> NoDup (map f (List.filter p l)).
Proof.
  induction l as [|a l IH]; [done|]. cbn [map List.filter]. intros N.
  inversion N as [|x l' Nin N' E]. subst. destruct (p a); [|auto].
  cbn [map]. constructor; [|auto]. intros In. apply Nin.
  apply list_elem_of_In in In. apply list_elem_of_In.
  apply in_map_iff in In. destruct In as (y & <- & Hy). apply filter_In in Hy.
  apply in_map. tauto.
Qed.

Lemma idsOk_push ts (t : TornadoEntity) :
  idsOk ts -> e_id t = (idCounter ts + 1)%Z ->
  idsOk {| tornadoes := tornadoes ts ++ [t]; idCounter := (idCounter ts + 1)%Z |}.
Proof.
  intros [N F] E. split; cbn [tornadoes idCounter].
  - rewrite map_app. apply NoDup_app. split; [exact N|]. split.
    + intros x Hx [<-|[]]%list_elem_of_In. rewrite Forall_forall in F.
      apply list_elem_of_In, in_map_iff in Hx. destruct Hx as (y & Ey & Hy).
      apply list_elem_of_In in Hy. specialize (F y Hy). lia.
    + cbn. constructor; [intros []%list_elem_of_In|constructor].
  - apply Forall_app. split.
    + eapply Forall_impl; [exact F|]. intros y Hy. cbn in *. lia.
    + constructor; [lia|constructor].
Qed.

Lemma iter_cursor n rnd :
  cursor (Nat.iter n (fun r => snd (Math_random r)) rnd) = (n + cursor rnd)%nat /\
  draws (Nat.iter n (fun r => snd (Math_random r)) rnd) = draws rnd.
Proof.
  induction n as [|n [IH1 IH2]]; [done|].
  change (Nat.iter (S n) (fun r => snd (Math_random r)) rnd)
    with (snd (Math_random (Nat.iter n (fun r => snd (Math_random r)) rnd))).
  unfold Math_random at 1 3. cbn [snd cursor draws]. split; [lia|exact IH2].
Qed.

Section TornadoIds.
Context `{JsMath}.

Lemma stepAll_ids hW hD dt ts rnd :
map e_id (stepAll hW hD dt ts rnd).1.1
= map e_id (List.filter (fun t => negb (expires dt t)) ts).
Proof.
destruct (stepAll_spec hW hD dt ts rnd) as [F _]. revert F.
generalize (stepAll hW hD dt ts rnd).1.1.
generalize (List.filter (fun t => negb (expires dt t)) ts).
intros l l'. induction 1 as [|t t' l l' [r Hs] _ IH]; [done|].
cbn [map]. rewrite IH. f_equal.
destruct (expires dt t) eqn:E.
- rewrite (stepTornado_None _ _ _ _ _ E) in Hs. discriminate.
- destruct (stepTornado_Some hW hD dt t r E) as (t2 & E2 & Ei & _).
  rewrite E2 in Hs. injection Hs as <-. exact Ei.
Qed.

Lemma stepAll_idsOk hW hD dt ts rnd :
idsOk ts ->
idsOk {| tornadoes := (stepAll hW hD dt (tornadoes ts) rnd).1.1;
         idCounter := idCounter ts |}.
Proof.
intros [N F]. split; cbn [tornadoes idCounter].
- rewrite stepAll_ids. now apply NoDup_map_filter.
- apply Forall_forall. intros t Ht.
  assert (In (e_id t) (map e_id (stepAll hW hD dt (tornadoes ts) rnd).1.1))
    as Hi by (apply in_map; now apply list_elem_of_In).
  rewrite stepAll_ids in Hi. apply in_map_iff in Hi. destruct Hi as (y & Ey & Hy).
  apply filter_In in Hy. destruct Hy as [Hy _]. rewrite Forall_forall in F.
  rewrite <- Ey. apply F. now apply list_elem_of_In.
Qed.

Lemma spawnManual_push ts g x z rnd :
exists t,
  (spawnManual ts g x z rnd).1.2
  = {| tornadoes := tornadoes ts ++ [t]; idCounter := (idCounter ts + 1)%Z |} /\
  (spawnManual ts g x z rnd).1.1 = viewOf t /\
  e_id t = (idCounter ts + 1)%Z.
Proof.
unfold spawnManual, createEntity.
destruct x, z; unfold Math_random; cbv beta iota zeta; cbn [fst snd tornadoes idCounter];
  eexists; (split; [reflexivity|]); split; reflexivity.
Qed.

Lemma spawnManual_idsOk ts g x z rnd :
idsOk ts -> idsOk (spawnManual ts g x z rnd).1.2.
Proof.
intros I. destruct (spawnManual_push ts g x z rnd) as (t & -> & _ & E).
now apply idsOk_push.
Qed.

Lemma update_idsOk ts g dt intensity allow rnd :
idsOk ts -> idsOk (TornadoSystem_update ts g dt intensity allow rnd).1.2.
Proof.
intros I. unfold TornadoSystem_update. cbv zeta.
assert (K : forall ts1 r1, idsOk ts1 ->
          idsOk (let '(kept, results, rnd0) :=
                   stepAll (inject_Z (width g) * tileSize g / 2)
                           (inject_Z (depth g) * tileSize g / 2) dt (tornadoes ts1) r1 in
                 (results, {| tornadoes := kept; idCounter := idCounter ts1 |}, rnd0)).1.2).
{ intros ts1 r1 I1.
  pose proof (stepAll_idsOk (inject_Z (width g) * tileSize g / 2)
                (inject_Z (depth g) * tileSize g / 2) dt ts1 r1 I1) as S.
  destruct (stepAll _ _ _ _ _) as [[kept results] rnd0]. exact S. }
destruct allow; [|apply K; exact I].
unfold Math_random at 1. cbv beta iota.
match goal with |- context [Js.lt ?a ?b] => destruct (Js.lt a b) end.
- match goal with |- context [spawnManual ts g None None ?r] =>
    pose proof (spawnManual_idsOk ts g None None r I) as S;
    destruct (spawnManual ts g None None r) as [[v ts1] r1] end.
  apply K. exact S.
- apply K. exact I.
Qed.

(** X22.  The ids of the active tornadoes stay distinct and never exceed
  the id counter, through [spawnManual] and through [update]. *)
Theorem tornado_ids_stay_distinct ts g x z dt intensity allow rnd :
idsOk ts ->
idsOk (spawnManual ts g x z rnd).1.2 /\
idsOk (TornadoSystem_update ts g dt intensity allow rnd).1.2.
Proof.
intros I. split; [now apply spawnManual_idsOk|now apply update_idsOk].
Qed.
End TornadoIds.

Lemma stormy_idsOk : idsOk (tornadoSystem Examples.stormy).
Proof.
  split; cbn [Examples.stormy tornadoSystem tornadoes idCounter map].
  - constructor; [intros []%list_elem_of_In|constructor].
  - constructor; [cbn; lia|constructor].
Qed.

Lemma tornado_ids_stay_distinct_witness :
  idsOk (tornadoSystem Examples.stormy) /\
  idsOk (@spawnManual RationalMath (tornadoSystem Examples.stormy) Examples.street
           None None Examples.steady).1.2 /\
  idsOk (@TornadoSystem_update RationalMath (tornadoSystem Examples.stormy) Examples.street
           0.05 0.5 true Examples.steady).1.2.
Proof.
  pose proof stormy_idsOk as I.
  split; [exact I|].
  exact (@tornado_ids_stay_distinct RationalMath (tornadoSystem Examples.stormy)
           Examples.street None None 0.05 0.5 true Examples.steady I).
Defined.

Section Spawn.
Context `{JsMath}.

(** X23.  A tornado spawned without coordinates, on draws from the unit
  interval, is appended to the active tornadoes with the next id; it
  starts within the world, with a radius between 3 and 4.8 and a
  lifetime between 20 and 90 seconds. *)
Theorem spawned_tornado_starts_inside_world ts g rnd :
unitDraws rnd ->
0 <= inject_Z (width g) * tileSize g -> 0 <= inject_Z (depth g) * tileSize g ->
exists t,
  tornadoes (spawnManual ts g None None rnd).1.2 = tornadoes ts ++ [t] /\
  idCounter (spawnManual ts g None None rnd).1.2 = (idCounter ts + 1)%Z /\
  (spawnManual ts g None None rnd).1.1 = viewOf t /\
  e_id t = (idCounter ts + 1)%Z /\
  inWorld g (v_x (position t)) (v_y (position t)) /\
  3 <= radius t /\ radius t < 4.8 /\
  20 <= lifetime t /\ lifetime t < 90.
Proof.
intros U W D. unfold spawnManual, createEntity.
unfold Math_random at 1 2 3. cbv beta iota zeta. cbn [draws cursor].
match goal with |- context [Nat.iter ?n ?f ?r] =>
  destruct (iter_cursor n r) as [Ec Ed]; set (r0 := Nat.iter n f r) in * end.
unfold Math_random. cbv beta iota zeta. cbn [fst snd tornadoes idCounter draws cursor].
eexists. split; [reflexivity|]. split; [reflexivity|]. split; [reflexivity|].
cbn [e_id position radius lifetime v_x v_y]. split; [reflexivity|].
rewrite Ec, Ed. cbn [cursor draws].
destruct (U (cursor rnd)) as [A1 B1]. destruct (U (S (cursor rnd))) as [A2 B2].
destruct (U (S (S (cursor rnd)))) as [A3 B3].
match goal with |- context [20 + draws rnd ?n * 70] => destruct (U n) as [A4 B4] end.
split; [|split; [lra|split; [lra|split; lra]]].
unfold inWorld.
set (P := inject_Z (width g) * tileSize g) in *.
set (R := inject_Z (depth g) * tileSize g) in *.
set (a := draws rnd (cursor rnd)) in *. set (b := draws rnd (S (cursor rnd))) in *.
clearbody P R a b.
assert (0 <= a * P) by nra. assert (0 <= (1 - a) * P) by nra.
assert (0 <= b * R) by nra. assert (0 <= (1 - b) * R) by nra.
assert (EP : P / 2 == P * 0.5) by field. assert (ER : R / 2 == R * 0.5) by field.
rewrite EP, ER. split; split; lra.
Qed.
End Spawn.

Lemma spawned_tornado_starts_inside_world_witness :
  exists t,
    tornadoes (@spawnManual RationalMath (tornadoSystem Examples.stormy) Examples.street
                 None None Examples.steady).1.2
    = tornadoes (tornadoSystem Examples.stormy) ++ [t] /\
    idCounter (@spawnManual RationalMath (tornadoSystem Examples.stormy) Examples.street
                 None None Examples.steady).1.2
    = (idCounter (tornadoSystem Examples.stormy) + 1)%Z /\
    (@spawnManual RationalMath (tornadoSystem Examples.stormy) Examples.street
       None None Examples.steady).1.1 = viewOf t /\
    e_id t = (idCounter (tornadoSystem Examples.stormy) + 1)%Z /\
    inWorld Examples.street (v_x (position t)) (v_y (position t)) /\
    3 <= radius t /\ radius t < 4.8 /\
    20 <= lifetime t /\ lifetime t < 90.
Proof.
  exact (@spawned_tornado_starts_inside_world RationalMath (tornadoSystem Examples.stormy)
           Examples.street Examples.steady steady_unit
           ltac:(vm_compute; discriminate) ltac:(vm_compute; discriminate)).
Defined.

Lemma Qfloor_quot (q : Q) :
  0 <= q -> Z.quot (Qnum q) (Zpos (Qden q)) = Qfloor q.
Proof.
  intros P. destruct q as [n d]. cbn [Qnum Qden Qfloor].
  apply Z.quot_div_nonneg; [|lia]. unfold Qle in P. cbn in P. lia.
Qed.

Lemma Js_rem_range a : 0 <= a -> 0 <= Js_rem a 24 /\ Js_rem a 24 < 24.
Proof.
  intros P. unfold Js_rem.
  assert (Pq : 0 <= a / 24) by (apply Qle_shift_div_l; lra).
  rewrite (Qfloor_quot _ Pq).
  pose proof (Qfloor_le (a / 24)) as L. pose proof (Qlt_floor (a / 24)) as U.
  rewrite inject_Z_plus in U. change (inject_Z 1) with 1 in U.
  assert (E : a == 24 * (a / 24)) by (field).
  set (q := a / 24) in *. set (f := inject_Z (Qfloor q)) in *. lra.
Qed.

Section Clock.
Context `{JsMath}.

Lemma markDestructionPath_clock ws g views :
dayTimeHours (markDestructionPath ws g views).1.2 = dayTimeHours ws /\
sirenHold (markDestructionPath ws g views).1.2 = sirenHold ws /\
tornadoSystem (markDestructionPath ws g views).1.2 = tornadoSystem ws.
Proof.
unfold markDestructionPath. cbv zeta.
destruct (fold_left destroyBuilding _ _) as [bc g']. cbn. auto.
Qed.

(** X24.  The clock of the weather stays within the day: from a time of
  day in [0, 24) and a time step that is not negative, [update]
  leaves a time of day in [0, 24), and reports that time. *)
Theorem day_time_stays_within_day ws g dt st rnd :
0 <= dayTimeHours ws -> dayTimeHours ws < 24 -> 0 <= dt ->
0 <= dayTimeHours (WeatherSystem_update ws g dt st rnd).1.1.2 /\
dayTimeHours (WeatherSystem_update ws g dt st rnd).1.1.2 < 24 /\
r_dayTimeHours (WeatherSystem_update ws g dt st rnd).1.1.1
= dayTimeHours (WeatherSystem_update ws g dt st rnd).1.1.2.
Proof.
intros P L T. unfold WeatherSystem_update. cbv zeta.
destruct (playing st); cbn [negb]; [|cbn; auto].
destruct (TornadoSystem_update _ _ _ _ _ _) as [[views tsys] rnd1].
match goal with |- context [markDestructionPath ?w ?gg ?vv] =>
  destruct (markDestructionPath_clock w gg vv) as (Ed & _ & _);
  destruct (markDestructionPath w gg vv) as [[dr ws2] g2] end.
cbn [fst snd dayTimeHours r_dayTimeHours] in *. rewrite Ed.
split; [|split; [|reflexivity]]; apply Js_rem_range;
  pose proof (scaleOf_pos (timeScale st)); unfold GAME_HOURS_PER_SECOND; nra.
Qed.
End Clock.

Lemma day_time_stays_within_day_witness :
  0 <= dayTimeHours (@WeatherSystem_update RationalMath Examples.stormy Examples.street 0.05
                       (tk_state (Examples.tick 0.05)) Examples.steady).1.1.2 /\
  dayTimeHours (@WeatherSystem_update RationalMath Examples.stormy Examples.street 0.05
                  (tk_state (Examples.tick 0.05)) Examples.steady).1.1.2 < 24 /\
  r_dayTimeHours (@WeatherSystem_update RationalMath Examples.stormy Examples.street 0.05
                    (tk_state (Examples.tick 0.05)) Examples.steady).1.1.1
  = dayTimeHours (@WeatherSystem_update RationalMath Examples.stormy Examples.street 0.05
                    (tk_state (Examples.tick 0.05)) Examples.steady).1.1.2.
Proof.
  exact (@day_time_stays_within_day RationalMath Examples.stormy Examples.street 0.05
           (tk_state (Examples.tick 0.05)) Examples.steady
           ltac:(vm_compute; discriminate) ltac:(reflexivity) ltac:(vm_compute; discriminate)).
Defined.

(* ===================================================================== *)
(** ** The destruction path *)
(* ===================================================================== *)

Lemma scanOk_scanTile g ws tornado sc tx tz :
  scanOk g ws sc -> scanOk g ws (scanTile tornado sc tx tz).
Proof.
  intros (W & S & N & more & P). unfold scanTile.
  case_if; [repeat split; eauto|]. case_if; [repeat split; eauto|].
  cbv zeta. pose proof (removeTreeAt_frame (sc_world sc) tx tz) as (W2 & _).
  destruct (removeTreeAt (sc_world sc) tx tz) as [removed g2]. cbn [snd] in W2.
  unfold scanOk. cbn [sc_world sc_set sc_tiles].
  split; [congruence|].
  unfold JsSet.add, JsSet.has.
  destruct (bool_decide (index (sc_world sc) tx tz ∈ sc_set sc)) eqn:E; cbn [negb].
  - split; [exact S|]. split; [exact N|]. eauto.
  - apply bool_decide_eq_false in E. split; [|split].
    + rewrite map_app, <- S. cbn [map d_x d_z]. unfold index. now rewrite W.
    + apply NoDup_app. split; [exact N|]. split.
      * intros x Hx [<-|[]]%list_elem_of_In. exact (E Hx).
      * constructor; [intros []%list_elem_of_In|constructor].
    + exists (more ++ [{| d_x := tx; d_z := tz |}]). now rewrite P, app_assoc.
Qed.

Lemma scanOk_scanTornado g ws sc tornado :
  scanOk g ws sc -> scanOk g ws (scanTornado sc tornado).
Proof.
  intros I. unfold scanTornado.
  destruct (worldToTile _ _ _) as [[cx cz]|]; [|exact I].
  apply (fold_left_preserves (scanOk g ws)); [exact I|].
  intros sc' [dx dz] I' _. now apply scanOk_scanTile.
Qed.

Lemma markDestructionPath_ledger ws g views :
  ledgerOk g ws ->
  ledgerOk (markDestructionPath ws g views).2 (markDestructionPath ws g views).1.2 /\
  exists more,
    destroyedTiles (markDestructionPath ws g views).1.2 = destroyedTiles ws ++ more.
Proof.
  intros [S N].
  destruct (sameShape_markDestructionPath ws g views) as [(W & _) _].
  revert W. unfold markDestructionPath.
  match goal with
  | |- context [fold_left scanTornado views ?sc0] => set (s0 := sc0)
  end.
  assert (K : scanOk g ws (fold_left scanTornado views s0)).
  { apply (fold_left_preserves (scanOk g ws)).
    - split; [done|]. split; [exact S|]. split; [exact N|]. exists []. now rewrite app_nil_r.
    - intros sc' t I _. now apply scanOk_scanTornado. }
  cbv zeta. set (sc1 := fold_left scanTornado views s0) in *.
  destruct (fold_left destroyBuilding _ _) as [bc g'].
  cbn [fst snd destroyedTiles destroyedTileSet]. intros W.
  destruct K as (_ & S1 & N1 & P1). split; [|exact P1].
  split; cbn [destroyedTiles destroyedTileSet]; [|exact N1].
  rewrite S1. apply map_ext. intros d. unfold index. now rewrite W.
Qed.

Section Ledger.
Context `{JsMath}.

(** X25.  The destruction path lists every destroyed tile once: when the
  set of destroyed indices mirrors the path and has no duplicate, the
  same holds after [update]; the path only grows, at its end; the
  call reports the path it leaves; and [reset] empties it. *)
Theorem destruction_path_lists_each_tile_once ws g dt st rnd :
ledgerOk g ws ->
ledgerOk (WeatherSystem_update ws g dt st rnd).1.2
         (WeatherSystem_update ws g dt st rnd).1.1.2 /\
(exists more,
   destroyedTiles (WeatherSystem_update ws g dt st rnd).1.1.2
   = destroyedTiles ws ++ more) /\
destructionPath (WeatherSystem_update ws g dt st rnd).1.1.1
= destroyedTiles (WeatherSystem_update ws g dt st rnd).1.1.2 /\
destroyedTiles (WeatherSystem_reset ws) = [].
Proof.
intros L. unfold WeatherSystem_update. cbv zeta.
destruct (playing st); cbn [negb].
- destruct (TornadoSystem_update _ _ _ _ _ _) as [[views tsys] rnd1].
  match goal with |- context [markDestructionPath ?w ?gg ?vv] =>
    destruct (markDestructionPath_ledger w gg vv L) as (L2 & P2);
    destruct (markDestructionPath w gg vv) as [[dr ws2] g2] end.
  cbn [fst snd destroyedTiles destructionPath] in *.
  split; [exact L2|]. split; [exact P2|]. split; reflexivity.
- cbn [fst snd destructionPath]. split; [exact L|].
  split; [exists []; now rewrite app_nil_r|]. split; reflexivity.
Qed.
End Ledger.

Lemma destruction_path_lists_each_tile_once_witness :
  ledgerOk (@WeatherSystem_update RationalMath Examples.stormy Examples.street 0.05
              (tk_state (Examples.tick 0.05)) Examples.steady).1.2
           (@WeatherSystem_update RationalMath Examples.stormy Examples.street 0.05
              (tk_state (Examples.tick 0.05)) Examples.steady).1.1.2 /\
  (exists more,
     destroyedTiles (@WeatherSystem_update RationalMath Examples.stormy Examples.street 0.05
                       (tk_state (Examples.tick 0.05)) Examples.steady).1.1.2
     = destroyedTiles Examples.stormy ++ more) /\
  destructionPath (@WeatherSystem_update RationalMath Examples.stormy Examples.street 0.05
                     (tk_state (Examples.tick 0.05)) Examples.steady).1.1.1
  = destroyedTiles (@WeatherSystem_update RationalMath Examples.stormy Examples.street 0.05
                      (tk_state (Examples.tick 0.05)) Examples.steady).1.1.2 /\
  destroyedTiles (WeatherSystem_reset Examples.stormy) = [].
Proof.
  exact (@destruction_path_lists_each_tile_once RationalMath Examples.stormy Examples.street
           0.05 (tk_state (Examples.tick 0.05)) Examples.steady
           (conj eq_refl (NoDup_nil_2 (A := Z)))).
Defined.

(* ===================================================================== *)
(** ** Lifetimes and reflection over calls of [TornadoSystem.update] *)
(* ===================================================================== *)

Lemma bounce_reflected half p v p' v' :
  0 <= half -> bounce half p v = (p', v') -> reflected half p v p' v'.
Proof.
  intros Hh. unfold bounce.
  destruct (Js.lt p (- half)) eqn:E1; cbn [orb].
  - apply Js_lt_true in E1. intros [= <- <-]. split; [|split]; [intros _|intros ?; lra|intros ?; lra].
    split; [|ring].
    destruct (Js_max_cases (- half) (Js.min half p)) as [[? ->]|[? ->]];
      destruct (Js_min_cases half p) as [[? E]|[? E]]; try rewrite E in *; lra.
  - apply Js_lt_false in E1. destruct (Js.gt p half) eqn:E2.
    + apply Js_gt_true in E2. intros [= <- <-].
      split; [|split]; [intros ?; lra|intros _|intros ?; lra].
      split; [|ring].
      destruct (Js_max_cases (- half) (Js.min half p)) as [[? ->]|[? ->]];
        destruct (Js_min_cases half p) as [[? E]|[? E]]; try rewrite E in *; lra.
    + apply Js_gt_false in E2. intros [= <- <-].
      split; [|split]; [intros ?; lra|intros ?; lra|intros _; split; reflexivity].
Qed.

Lemma dtOver_nonneg ticks :
  Forall (fun tk => 0 <= tt_dt tk) ticks -> 0 <= dtOver ticks.
Proof.
  induction 1 as [|tk ticks P _ IH]; [cbn; lra|].
  change (dtOver (tk :: ticks)) with (tt_dt tk + dtOver ticks). lra.
Qed.

Section TornadoCalls.
Context `{JsMath}.

(** What one call does to a tornado that stays. *)
Lemma stepped_facts hW hD dt t t' :
0 <= hW -> 0 <= hD -> stepped hW hD dt t t' ->
e_id t' = e_id t /\ lifetime t' = lifetime t - dt /\ bounced hW hD dt t t'.
Proof.
intros HW HD [r Hs]. destruct (expires dt t) eqn:E.
- rewrite (stepTornado_None _ _ _ _ _ E) in Hs. discriminate.
- destruct (stepTornado_Some hW hD dt t r E) as (t2 & E2 & Ei & _ & El & Ex & Ey).
  rewrite E2 in Hs. injection Hs as <-.
  split; [exact Ei|]. split; [exact El|]. split; [exact Ei|].
  exists (Math_random r).1. cbv zeta in *.
  split; apply bounce_reflected; auto.
Qed.

Lemma stepped_id_life hW hD dt t t' :
stepped hW hD dt t t' -> e_id t' = e_id t /\ lifetime t' = lifetime t - dt.
Proof.
intros [r Hs]. destruct (expires dt t) eqn:E.
- rewrite (stepTornado_None _ _ _ _ _ E) in Hs. discriminate.
- destruct (stepTornado_Some hW hD dt t r E) as (t2 & E2 & Ei & _ & El & _).
  rewrite E2 in Hs. injection Hs as <-. auto.
Qed.

(** The call steps the tornadoes it had and the one it has spawned, if
  any. *)
Lemma update_spawned ts g dt intensity allow rnd :
exists spawned rnd1,
  TornadoSystem_update ts g dt intensity allow rnd =
    (let s := stepAll (inject_Z (width g) * tileSize g / 2)
                      (inject_Z (depth g) * tileSize g / 2) dt
                      (tornadoes ts ++ spawned) rnd1 in
     (s.1.2,
      {| tornadoes := s.1.1;
         idCounter := (idCounter ts + Z.of_nat (length spawned))%Z |},
      s.2)) /\
  (length spawned <= 1)%nat /\
  Forall (fun t => e_id t = (idCounter ts + 1)%Z) spawned /\
  (allow = false -> spawned = []).
Proof.
unfold TornadoSystem_update. cbv zeta.
destruct allow.
- unfold Math_random at 1. cbv beta iota.
  match goal with |- context [Js.lt ?a ?b] => destruct (Js.lt a b) end.
  + unfold spawnManual, createEntity, Math_random. cbv beta iota zeta.
    cbn [tornadoes idCounter fst snd].
    match goal with |- context [stepAll ?a ?b ?c (tornadoes ts ++ [?t]) ?e] =>
      exists [t], e; destruct (stepAll a b c (tornadoes ts ++ [t]) e) as [[k r] q] end.
    split; [reflexivity|]. split; [cbn; lia|]. split; [|discriminate].
    constructor; [reflexivity|constructor].
  + exists [], (snd (Math_random rnd)). rewrite app_nil_r, Z.add_0_r.
    unfold Math_random. cbn [snd].
    match goal with |- context [stepAll ?a ?b ?c ?d ?e] =>
      destruct (stepAll a b c d e) as [[k r] q] end.
    split; [reflexivity|]. split; [cbn; lia|]. split; [constructor|reflexivity].
- exists [], rnd. rewrite app_nil_r, Z.add_0_r.
  match goal with |- context [stepAll ?a ?b ?c ?d ?e] =>
    destruct (stepAll a b c d e) as [[k r] q] end.
  split; [reflexivity|]. split; [cbn; lia|]. split; [constructor|reflexivity].
Qed.

Lemma spawned_part (R S : TornadoEntity -> TornadoEntity -> Prop) (id : Z)
  (l new : list TornadoEntity) :
Forall2 S l new ->
(forall t t', S t t' -> e_id t' = e_id t /\ R t t') ->
(forall t, In t l -> e_id t = id) ->
Forall (fun t' => exists t, e_id t = id /\ R t t') new /\
Forall (fun t' => e_id t' = id) new /\
length new = length l.
Proof.
intros F HS. induction F as [|t t' l new St _ IH]; intros Sub.
- split; [constructor|]. split; [constructor|reflexivity].
- destruct IH as (I1 & I2 & I3); [intros; apply Sub; now right|].
  destruct (HS t t' St) as [Ei Rt].
  split; [|split].
  + constructor; [|exact I1]. exists t. split; [apply Sub; now left|exact Rt].
  + constructor; [|exact I2]. rewrite Ei. apply Sub. now left.
  + cbn. now rewrite I3.
Qed.

(** The tornadoes after a call: those that stay, in their order, then
  what is left of the tornado spawned in the call. *)
Lemma update_split (R : TornadoEntity -> TornadoEntity -> Prop) ts g dt intensity allow rnd :
(forall t t', stepped (inject_Z (width g) * tileSize g / 2)
                      (inject_Z (depth g) * tileSize g / 2) dt t t' ->
              e_id t' = e_id t /\ R t t') ->
exists old new,
  tornadoes (TornadoSystem_update ts g dt intensity allow rnd).1.2 = old ++ new /\
  (TornadoSystem_update ts g dt intensity allow rnd).1.1 = rev (map viewOf (old ++ new)) /\
  Forall2 R (List.filter (fun t => negb (expires dt t)) (tornadoes ts)) old /\
  Forall (fun t' => exists t, e_id t = (idCounter ts + 1)%Z /\ R t t') new /\
  Forall (fun t' => e_id t' = (idCounter ts + 1)%Z) new /\
  (length new <= 1)%nat /\
  (allow = false -> new = []) /\
  (idCounter ts
   <= idCounter (TornadoSystem_update ts g dt intensity allow rnd).1.2)%Z.
Proof.
intros HR.
destruct (update_spawned ts g dt intensity allow rnd)
  as (spawned & rnd1 & -> & Ls & Is & As).
cbv zeta. cbn [fst snd tornadoes idCounter].
destruct (stepAll_spec (inject_Z (width g) * tileSize g / 2)
            (inject_Z (depth g) * tileSize g / 2) dt (tornadoes ts ++ spawned) rnd1)
  as [F V].
rewrite filter_alive_app in F. apply Forall2_app_inv_l in F.
destruct F as (old & new & F1 & F2 & E).
exists old, new. rewrite V, E.
split; [reflexivity|]. split; [reflexivity|]. split.
{ eapply Forall2_impl; [exact F1|]. intros t t' S. now destruct (HR t t' S). }
assert (Sub : forall t, In t (List.filter (fun t => negb (expires dt t)) spawned) ->
                        e_id t = (idCounter ts + 1)%Z).
{ intros t Ht. apply filter_In in Ht. destruct Ht as [Ht _].
  rewrite Forall_forall in Is. apply Is. now apply list_elem_of_In. }
destruct (spawned_part R _ _ _ _ F2 HR Sub) as (N1 & N2 & N3).
split; [exact N1|]. split; [exact N2|]. split; [|split].
- rewrite N3. etransitivity; [apply List.filter_length_le|exact Ls].
- intros A. rewrite (As A) in N3. now destruct new.
- lia.
Qed.
(** The relation of the lifetimes before and after a call. *)
Lemma update_lifetimes ts g dt intensity allow rnd :
exists old new,
  tornadoes (TornadoSystem_update ts g dt intensity allow rnd).1.2 = old ++ new /\
  Forall2 (fun t t' => e_id t' = e_id t /\ lifetime t' = lifetime t - dt)
          (List.filter (fun t => negb (Js.le (lifetime t - dt) 0)) (tornadoes ts)) old /\
  Forall (fun t' => e_id t' = (idCounter ts + 1)%Z) new /\
  (length new <= 1)%nat /\
  (allow = false -> new = []) /\
  (idCounter ts <= idCounter (TornadoSystem_update ts g dt intensity allow rnd).1.2)%Z.
Proof.
destruct (update_split (fun t t' => e_id t' = e_id t /\ lifetime t' = lifetime t - dt)
            ts g dt intensity allow rnd)
  as (old & new & E & _ & F & _ & N & L & A & C).
{ intros a b S. pose proof (stepped_id_life _ _ _ _ _ S) as [? ?]. auto. }
exists old, new. auto 10.
Qed.

(** A tornado that outlives the call stays, with its id and with its
  lifetime lowered by the time step. *)
Lemma update_survivor ts g dt intensity allow rnd t :
t ∈ tornadoes ts -> 0 < lifetime t - dt ->
exists t', t' ∈ tornadoes (TornadoSystem_update ts g dt intensity allow rnd).1.2 /\
           e_id t' = e_id t /\ lifetime t' = lifetime t - dt.
Proof.
intros In L.
destruct (update_lifetimes ts g dt intensity allow rnd) as (old & new & -> & F & _).
assert (A : t ∈ List.filter (fun t => negb (Js.le (lifetime t - dt) 0)) (tornadoes ts)).
{ apply list_elem_of_In, filter_In. split; [now apply list_elem_of_In|].
  apply negb_true_iff. now apply Js_le_false. }
apply list_elem_of_lookup in A. destruct A as [i Hi].
destruct (Forall2_lookup_l _ _ _ _ _ F Hi) as (t' & Ht' & Ei & El).
exists t'. split; [|auto]. apply elem_of_app. left.
eapply list_elem_of_lookup_2. exact Ht'.
Qed.

(** An id that no tornado carries past the call is carried by none
  after it. *)
Lemma update_absent ts g dt intensity allow rnd (id : Z) :
idsOk ts -> (id <= idCounter ts)%Z ->
(forall t, t ∈ tornadoes ts -> e_id t = id -> lifetime t - dt <= 0) ->
Forall (fun t' => e_id t' <> id)
       (tornadoes (TornadoSystem_update ts g dt intensity allow rnd).1.2) /\
(id <= idCounter (TornadoSystem_update ts g dt intensity allow rnd).1.2)%Z.
Proof.
intros [_ Le] Hid Gone.
destruct (update_lifetimes ts g dt intensity allow rnd)
  as (old & new & -> & F & N & _ & _ & C).
split; [|lia]. apply Forall_app. split.
- apply Forall_forall. intros t' Ht' Eid.
  apply list_elem_of_lookup in Ht'. destruct Ht' as [i Hi].
  destruct (Forall2_lookup_r _ _ _ _ _ F Hi) as (t & Ht & Ei & _).
  apply list_elem_of_lookup_2, list_elem_of_In, filter_In in Ht. destruct Ht as [Ht Al].
  apply negb_true_iff, Js_le_false in Al.
  assert (lifetime t - dt <= 0) by (apply Gone; [now apply list_elem_of_In|congruence]).
  lra.
- eapply Forall_impl; [exact N|]. intros t' E. cbv beta in *. lia.
Qed.

Lemma run_absent g ticks (id : Z) : forall ts,
idsOk ts -> (id <= idCounter ts)%Z ->
Forall (fun t' => e_id t' <> id) (tornadoes ts) ->
Forall (fun t' => e_id t' <> id) (tornadoes (runUpdates g ts ticks)).
Proof.
induction ticks as [|tk ticks IH]; intros ts I Le Ab; [exact Ab|].
change (runUpdates g ts (tk :: ticks))
  with (runUpdates g (TornadoSystem_update ts g (tt_dt tk) (tt_intensity tk) (tt_allow tk)
                        (tt_random tk)).1.2 ticks).
destruct (update_absent ts g (tt_dt tk) (tt_intensity tk) (tt_allow tk) (tt_random tk) id
            I Le) as [Ab' Le'].
{ intros t Ht E. rewrite Forall_forall in Ab. destruct (Ab t Ht E). }
apply IH; [now apply update_idsOk|exact Le'|exact Ab'].
Qed.

Lemma run_idsOk g ticks : forall ts, idsOk ts -> idsOk (runUpdates g ts ticks).
Proof.
induction ticks as [|tk ticks IH]; intros ts I; [exact I|].
change (runUpdates g ts (tk :: ticks))
  with (runUpdates g (TornadoSystem_update ts g (tt_dt tk) (tt_intensity tk) (tt_allow tk)
                        (tt_random tk)).1.2 ticks).
apply IH. now apply update_idsOk.
Qed.

Lemma run_lifetime g ticks : forall ts t,
idsOk ts -> t ∈ tornadoes ts -> 0 < lifetime t ->
Forall (fun tk => 0 <= tt_dt tk) ticks ->
(0 < lifetime t - dtOver ticks ->
   exists t', t' ∈ tornadoes (runUpdates g ts ticks) /\ e_id t' = e_id t /\
              lifetime t' == lifetime t - dtOver ticks) /\
(lifetime t - dtOver ticks <= 0 ->
   Forall (fun t' => e_id t' <> e_id t) (tornadoes (runUpdates g ts ticks))).
Proof.
induction ticks as [|tk ticks IH]; intros ts t I In Pos Dts.
- change (dtOver []) with 0. split.
  + intros _. exists t. split; [exact In|]. split; [reflexivity|ring].
  + intros L. lra.
- change (dtOver (tk :: ticks)) with (tt_dt tk + dtOver ticks).
  change (runUpdates g ts (tk :: ticks))
    with (runUpdates g (TornadoSystem_update ts g (tt_dt tk) (tt_intensity tk) (tt_allow tk)
                          (tt_random tk)).1.2 ticks).
  inversion Dts as [|? ? Dt Dts']. subst.
  pose proof (dtOver_nonneg ticks Dts') as Rest.
  pose proof (update_idsOk ts g (tt_dt tk) (tt_intensity tk) (tt_allow tk) (tt_random tk) I)
    as I'.
  destruct (Qlt_le_dec 0 (lifetime t - tt_dt tk)) as [Alive|Dead].
  + destruct (update_survivor ts g (tt_dt tk) (tt_intensity tk) (tt_allow tk) (tt_random tk)
                t In Alive) as (t1 & In1 & Ei & El).
    destruct (IH _ t1 I' In1 ltac:(rewrite El; exact Alive) Dts') as [S R].
    rewrite El, Ei in *. split.
    * intros L. destruct S as (t' & In' & Ei' & El'); [lra|].
      exists t'. split; [exact In'|]. split; [exact Ei'|]. rewrite El'. ring.
    * intros L. apply R. lra.
  + split; [intros L; lra|]. intros _.
    destruct I as [Nd Le].
    destruct (update_absent ts g (tt_dt tk) (tt_intensity tk) (tt_allow tk) (tt_random tk)
                (e_id t) (conj Nd Le)) as [Ab Le'].
    * rewrite Forall_forall in Le. now apply Le.
    * intros t2 In2 E2.
      assert (t2 = t) as ->; [|exact Dead].
      apply list_elem_of_lookup in In. destruct In as [i Hi].
      apply list_elem_of_lookup in In2. destruct In2 as [j Hj].
      assert (i = j) as ->.
      { eapply NoDup_lookup; [exact Nd| |]; rewrite list_lookup_fmap.
        - rewrite Hi. reflexivity.
        - rewrite Hj. cbn. now rewrite E2. }
      congruence.
    * apply run_absent; assumption.
Qed.

(** C5.  Over any run of [TornadoSystem.update] calls with time steps
  that are not negative, a tornado that is active with a positive
  lifetime [L] is still active after the run, with lifetime [L] minus
  the time passed, when that difference is positive, and is no longer
  active when it is zero or less: it is removed in the call in which
  its lifetime first reaches zero or less, not before and not after.
  The ids stay distinct over the run, so an id names one tornado.
  In each single call the tornadoes that outlive it are kept in their
  order, each with its id and with its lifetime lowered by exactly
  [dt], and all that follows them is the one tornado the call may have
  spawned, under a fresh id. *)
Theorem tornado_lifetime_and_removal ts g ticks t :
idsOk ts -> t ∈ tornadoes ts -> 0 < lifetime t ->
Forall (fun tk => 0 <= tt_dt tk) ticks ->
(0 < lifetime t - dtOver ticks ->
   exists t', t' ∈ tornadoes (runUpdates g ts ticks) /\ e_id t' = e_id t /\
              lifetime t' == lifetime t - dtOver ticks) /\
(lifetime t - dtOver ticks <= 0 ->
   Forall (fun t' => e_id t' <> e_id t) (tornadoes (runUpdates g ts ticks))) /\
idsOk (runUpdates g ts ticks) /\
(forall dt intensity allow rnd, exists old new,
   tornadoes (TornadoSystem_update ts g dt intensity allow rnd).1.2 = old ++ new /\
   Forall2 (fun t t' => e_id t' = e_id t /\ lifetime t' = lifetime t - dt)
           (List.filter (fun t => negb (Js.le (lifetime t - dt) 0)) (tornadoes ts)) old /\
   Forall (fun t' => e_id t' = (idCounter ts + 1)%Z) new /\
   (length new <= 1)%nat /\
   (allow = false -> new = [])).
Proof.
intros I In Pos Dts.
destruct (run_lifetime g ticks ts t I In Pos Dts) as [S R].
split; [exact S|]. split; [exact R|]. split; [now apply run_idsOk|].
intros dt intensity allow rnd.
destruct (update_lifetimes ts g dt intensity allow rnd)
  as (old & new & E & F & N & L & A & _).
exists old, new. auto.
Qed.

(** C6.  After a call of [TornadoSystem.update] on a world whose extents
  are not negative, every tornado that outlived the call is the result
  of turning its velocity, translating its position and reflecting
  each axis: a position component that left the half-extent of its
  axis is set to the bound it crossed and the velocity component of
  that axis changes sign, and a component within the half-extent is
  kept with its velocity.  The same holds of the tornado the call may
  have spawned.  Consequently every tornado that is still active lies
  within the half-extents of the world, and so does every view
  returned, the views being those of the active tornadoes. *)
Theorem tornado_boundary_reflection ts g dt intensity allow rnd :
0 <= inject_Z (width g) * tileSize g ->
0 <= inject_Z (depth g) * tileSize g ->
exists old new,
  tornadoes (TornadoSystem_update ts g dt intensity allow rnd).1.2 = old ++ new /\
  Forall2 (bounced (inject_Z (width g) * tileSize g / 2)
                   (inject_Z (depth g) * tileSize g / 2) dt)
          (List.filter (fun t => negb (Js.le (lifetime t - dt) 0)) (tornadoes ts)) old /\
  Forall (fun t' => exists t, e_id t = (idCounter ts + 1)%Z /\
                      bounced (inject_Z (width g) * tileSize g / 2)
                              (inject_Z (depth g) * tileSize g / 2) dt t t') new /\
  (length new <= 1)%nat /\
  (allow = false -> new = []) /\
  Forall (fun t' => inWorld g (v_x (position t')) (v_y (position t')))
         (tornadoes (TornadoSystem_update ts g dt intensity allow rnd).1.2) /\
  (TornadoSystem_update ts g dt intensity allow rnd).1.1
  = rev (map viewOf (tornadoes (TornadoSystem_update ts g dt intensity allow rnd).1.2)) /\
  Forall (fun v => inWorld g (tv_x v) (tv_z v))
         (TornadoSystem_update ts g dt intensity allow rnd).1.1.
Proof.
intros HW HD.
pose proof (half_nonneg _ HW) as HW2. pose proof (half_nonneg _ HD) as HD2.
destruct (update_split
            (fun t t' => bounced (inject_Z (width g) * tileSize g / 2)
                                 (inject_Z (depth g) * tileSize g / 2) dt t t' /\
                         inWorld g (v_x (position t')) (v_y (position t')))
            ts g dt intensity allow rnd)
  as (old & new & E & V & F & N & _ & L & A & _).
{ intros a b S.
  destruct (stepped_facts _ _ _ _ _ HW2 HD2 S) as (Ei & _ & B).
  split; [exact Ei|]. split; [exact B|].
  exact (stepped_in_range _ _ _ _ _ HW2 HD2 S). }
assert (K : Forall (fun t' => inWorld g (v_x (position t')) (v_y (position t'))) (old ++ new)).
{ apply Forall_app. split.
  - clear -F. induction F as [|? ? ? ? [_ ?] _ IH]; constructor; auto.
  - eapply Forall_impl; [exact N|]. intros t' (t & _ & _ & W). exact W. }
exists old, new. rewrite E, V.
split; [reflexivity|]. split.
{ eapply Forall2_impl; [exact F|]. now intros ? ? [? _]. }
split.
{ eapply Forall_impl; [exact N|]. intros t' (t & Ei & B & _). eauto. }
split; [exact L|]. split; [exact A|]. split; [exact K|]. split; [reflexivity|].
apply Forall_forall. intros v Hv. apply list_elem_of_In in Hv.
apply in_rev, in_map_iff in Hv. destruct Hv as (t & <- & Ht).
rewrite Forall_forall in K. apply K. now apply list_elem_of_In.
Qed.
End TornadoCalls.
Lemma tornado_lifetime_and_removal_witness :
  (exists t', t' ∈ tornadoes (@runUpdates RationalMath Examples.street
                                (tornadoSystem Examples.stormy) [Examples.longTick]) /\
              e_id t' = e_id Examples.funnel /\
              lifetime t' == lifetime Examples.funnel - dtOver [Examples.longTick]) /\
  Forall (fun t' => e_id t' <> e_id Examples.funnel)
         (tornadoes (@runUpdates RationalMath Examples.street (tornadoSystem Examples.stormy)
                       [Examples.longTick; Examples.longTick])).
Proof.
  assert (In : Examples.funnel ∈ tornadoes (tornadoSystem Examples.stormy))
    by apply list_elem_of_here.
  assert (Pos : 0 < lifetime Examples.funnel) by reflexivity.
  assert (Dt : 0 <= tt_dt Examples.longTick) by (vm_compute; discriminate).
  assert (D1 : Forall (fun tk => 0 <= tt_dt tk) [Examples.longTick])
    by (constructor; [exact Dt|constructor]).
  assert (D2 : Forall (fun tk => 0 <= tt_dt tk) [Examples.longTick; Examples.longTick])
    by (constructor; [exact Dt|exact D1]).
  split.
  - apply (proj1 (@tornado_lifetime_and_removal RationalMath (tornadoSystem Examples.stormy)
                    Examples.street [Examples.longTick] Examples.funnel stormy_idsOk In Pos
                    D1)).
    reflexivity.
  - apply (proj1 (proj2 (@tornado_lifetime_and_removal RationalMath
                           (tornadoSystem Examples.stormy) Examples.street
                           [Examples.longTick; Examples.longTick] Examples.funnel
                           stormy_idsOk In Pos
                           D2))).
    vm_compute. discriminate.
Defined.

(** The tornado near the east edge of the street crosses the edge in a
    call of a twentieth of a second: it is put back on the edge, heading
    west. *)
Lemma edge_tornado_turns_back :
  exists t',
    tornadoes (@TornadoSystem_update RationalMath Examples.edgeStorm Examples.street
                 0.05 0.5 false Examples.steady).1.2 = [t'] /\
    v_x (position t') == 8 /\ v_x (velocity t') < 0.
Proof.
  eexists. split; [vm_compute; reflexivity|]. split; reflexivity.
Qed.

Lemma tornado_boundary_reflection_witness :
  0 <= inject_Z (width Examples.street) * tileSize Examples.street /\
  0 <= inject_Z (depth Examples.street) * tileSize Examples.street /\
  (exists t',
     tornadoes (@TornadoSystem_update RationalMath Examples.edgeStorm Examples.street
                  0.05 0.5 false Examples.steady).1.2 = [t'] /\
     v_x (position t') == 8 /\ v_x (velocity t') < 0) /\
  exists old new,
    tornadoes (@TornadoSystem_update RationalMath Examples.edgeStorm Examples.street
                 0.05 0.5 false Examples.steady).1.2 = old ++ new /\
    Forall2 (@bounced RationalMath
               (inject_Z (width Examples.street) * tileSize Examples.street / 2)
               (inject_Z (depth Examples.street) * tileSize Examples.street / 2) 0.05)
            (List.filter (fun t => negb (Js.le (lifetime t - 0.05) 0))
                         (tornadoes Examples.edgeStorm)) old /\
    Forall (fun t' => exists t, e_id t = (idCounter Examples.edgeStorm + 1)%Z /\
                        @bounced RationalMath
                          (inject_Z (width Examples.street) * tileSize Examples.street / 2)
                          (inject_Z (depth Examples.street) * tileSize Examples.street / 2)
                          0.05 t t') new /\
    (length new <= 1)%nat /\
    (false = false -> new = []) /\
    Forall (fun t' => inWorld Examples.street (v_x (position t')) (v_y (position t')))
           (tornadoes (@TornadoSystem_update RationalMath Examples.edgeStorm Examples.street
                         0.05 0.5 false Examples.steady).1.2) /\
    (@TornadoSystem_update RationalMath Examples.edgeStorm Examples.street
       0.05 0.5 false Examples.steady).1.1
    = rev (map viewOf
             (tornadoes (@TornadoSystem_update RationalMath Examples.edgeStorm Examples.street
                           0.05 0.5 false Examples.steady).1.2)) /\
    Forall (fun v => inWorld Examples.street (tv_x v) (tv_z v))
           (@TornadoSystem_update RationalMath Examples.edgeStorm Examples.street
              0.05 0.5 false Examples.steady).1.1.
Proof.
  assert (HW : 0 <= inject_Z (width Examples.street) * tileSize Examples.street)
    by (vm_compute; discriminate).
  assert (HD : 0 <= inject_Z (depth Examples.street) * tileSize Examples.street)
    by (vm_compute; discriminate).
  split; [exact HW|]. split; [exact HD|]. split; [exact edge_tornado_turns_back|].
  exact (@tornado_boundary_reflection RationalMath Examples.edgeStorm Examples.street
           0.05 0.5 false Examples.steady HW HD).
Defined.

